(** * Well-test fitting core: resampler, residuals, Jacobian, LM driver, Horner

    A shallow embedding of [fittingcore.cpp] and of the data side of
    [fittingchart.cpp]: [FittingChart::calculateHornerPressure] and the points
    the three plots are given.

    - A C++ [double] is Rocq's primitive binary64 [float]: [+ - * /], [abs]
      and the comparisons are the IEEE operations the compiled code performs,
      NaN and infinities included.
    - The C math library ([log], [log10], [pow]), the model evaluator
      ([ModelManager::calculateTheoreticalCurve]), Eigen's LDLT solve and the
      cancellation flag written by the UI thread are not part of the sources:
      they are the [Variable]s of the sections below.
    - A [QVector<double>] is a [list float]; a [QMap<QString,double>] is a
      [gmap string float]; an [int] is a [Z] (sizes) or a [nat] (indices). *)

From Stdlib Require Import ZArith List Bool Lia Floats Sorted Permutation.
From stdpp Require Import gmap strings.
Import ListNotations.

Set Warnings "-inexact-float,-abstract-large-number".
Open Scope Z_scope.

(** ** Doubles *)

Abbreviation double := float.

(** [int -> double] conversion (exact for every 32-bit [int]). *)
Definition double_of_int (z : Z) : double :=
  if z <? 0 then (- of_uint63 (Uint63.of_Z (- z)))%float
  else of_uint63 (Uint63.of_Z z).

(** [double -> int] conversion: truncation toward zero.  (The conversion is
    undefined in C++ for NaN, infinities and values outside [int]; the model
    returns 0 for the first two.) *)
Definition int_of_double (f : double) : Z :=
  match Prim2SF f with
  | S754_finite s m e =>
      let a := if 0 <=? e then Z.shiftl (Zpos m) e else Z.shiftr (Zpos m) (- e) in
      if s then - a else a
  | _ => 0
  end.

(** Qt's [qMin] and [qMax]: [(a < b) ? a : b] and [(a < b) ? b : a]. *)
Definition qMin (a b : double) : double := if (a <? b)%float then a else b.
Definition qMax (a b : double) : double := if (a <? b)%float then b else a.

(** The order of the doubles that are not NaN, read off the sign, exponent
    and mantissa of [Prim2SF]: rank triples compared lexicographically. *)
Definition sf_rank (f : spec_float) : Z * Z * Z :=
  match f with
  | S754_infinity true => (-2, 0, 0)
  | S754_finite true m e => (-1, - e, Zneg m)
  | S754_zero _ | S754_nan => (0, 0, 0)
  | S754_finite false m e => (1, e, Zpos m)
  | S754_infinity false => (2, 0, 0)
  end.

Definition rank (x : double) : Z * Z * Z := sf_rank (Prim2SF x).

Definition lex_lt (a b : Z * Z * Z) : Prop :=
  a.1.1 < b.1.1
  \/ (a.1.1 = b.1.1 /\ (a.1.2 < b.1.2 \/ (a.1.2 = b.1.2 /\ a.2 < b.2))).

Definition lex_le (a b : Z * Z * Z) : Prop := lex_lt a b \/ a = b.

(** [v[i]] on a [QVector<double>] (every use in the sources is in range). *)
Definition at_ (v : list double) (i : nat) : double := nth i v 0%float.

(** ** Horner regressor ([fittingchart.cpp], lines 312-352) *)

Record Sums := mkSums {
  sumX : double; sumY : double; sumXY : double; sumXX : double; count : Z }.

Definition zeroSums : Sums := mkSums 0 0 0 0 0.

(** One pass of the body of the summation loop (lines 338-344) at index [i]. *)
Definition sumStep (X Y : list double) (s : Sums) (i : nat) : Sums :=
  mkSums (sumX s + at_ X i) (sumY s + at_ Y i)
         (sumXY s + at_ X i * at_ Y i) (sumXX s + at_ X i * at_ X i)
         (count s + 1).

(** [for (int i = first; i < nPoints; ++i)]. *)
Definition hornerSums (X Y : list double) (first nPoints : nat) : Sums :=
  fold_left (sumStep X Y) (seq first (nPoints - first)) zeroSums.

(** Lines 331-333: [int fitCount = nPoints * 0.3; if (fitCount < 3) fitCount = nPoints;]. *)
Definition fitCountOf (nPoints : Z) : Z :=
  let fitCount := int_of_double (double_of_int nPoints * 0.3) in
  if fitCount <? 3 then nPoints else fitCount.

(** Lines 346-351: the degenerate-denominator guard, slope and intercept. *)
Definition hornerIntercept (s : Sums) : double :=
  let c := double_of_int (count s) in
  if (abs (c * sumXX s - sumX s * sumX s) <? 1e-9)%float then 0%float
  else
    let slope := ((c * sumXY s - sumX s * sumY s) / (c * sumXX s - sumX s * sumX s))%float in
    ((sumY s - slope * sumX s) / c)%float.

(** Lines 331-344: the five accumulators after the summation loop. *)
Definition hornerFitSums (X Y : list double) : Sums :=
  let nPoints := length X in
  let fitCount := Z.to_nat (fitCountOf (Z.of_nat nPoints)) in
  hornerSums X Y (nPoints - fitCount) nPoints.

(** Lines 329-351: everything after the filter loop. *)
Definition hornerFit (X Y : list double) : double :=
  if (length X <? 5)%nat then 0%float
  else hornerIntercept (hornerFitSums X Y).

Section Horner.
Variable log10 : double -> double.

(** Lines 317-327: the filter loop building [X] and [Y]. *)
Definition hornerXY (producingTime : double) (m_obsT m_obsRawP : list double)
  : list double * list double :=
  fold_left
    (fun XY i =>
       let dt := at_ m_obsT i in
       if (1e-5 <? dt)%float && (i <? length m_obsRawP)%nat then
         let val := ((producingTime + dt) / dt)%float in
         if (0 <? val)%float
         then (fst XY ++ [log10 val], snd XY ++ [at_ m_obsRawP i])
         else XY
       else XY)
    (seq 0 (length m_obsT)) ([], []).

Definition calculateHornerPressure (producingTime : double) (m_obsT m_obsRawP : list double)
  : double :=
  if (length m_obsT =? 0)%nat || (length m_obsRawP =? 0)%nat
     || (producingTime <=? 0)%float
  then 0%float
  else
    let XY := hornerXY producingTime m_obsT m_obsRawP in
    hornerFit (fst XY) (snd XY).

End Horner.

(** The regression the specification describes: sums over a list of points. *)
Definition olsSums (pts : list (double * double)) : Sums :=
  fold_left
    (fun s xy =>
       mkSums (sumX s + fst xy) (sumY s + snd xy)
              (sumXY s + fst xy * snd xy) (sumXX s + fst xy * fst xy)
              (count s + 1))
    pts zeroSums.

(** The last [k] of the filtered points. *)
Definition lastPoints (k : nat) (X Y : list double) : list (double * double) :=
  skipn (length X - k) (combine X Y).

(** The fit count of the specification: [max (floor (0.3 N)) 3]. *)
Definition specFitCount (n : nat) : nat := Nat.max (3 * n / 10) 3.

(** The y-intercept of the least-squares line through [pts]. *)
Definition olsIntercept (pts : list (double * double)) : double :=
  let s := olsSums pts in
  let c := double_of_int (count s) in
  let slope := ((c * sumXY s - sumX s * sumY s) / (c * sumXX s - sumX s * sumX s))%float in
  ((sumY s - slope * sumX s) / c)%float.

(** Does the truncated double product [n * 0.3] equal [floor (3 n / 10)] for
    the [fuel] integers from [n] on? *)
Fixpoint trunc_agrees (fuel : nat) (n : Z) : bool :=
  match fuel with
  | O => true
  | S fuel' =>
      (int_of_double (double_of_int n * 0.3) =? 3 * n / 10)
      && trunc_agrees fuel' (n + 1)
  end.

(** Five filtered points on which the tail regression and the full regression
    differ. *)
Definition horner_X5 : list double := [5; 4; 3; 2; 1]%float.
Definition horner_Y5 : list double := [1; 2; 4; 8; 16]%float.


(** ** Data model of the fitting core *)

(** [struct FitParameter] ([fittingparameterchart.h]); [displayName],
    [isVisible] and [step] are not read by the core. *)
Module FitParameter.
Record FitParameter := mk {
  name : string; value : double; isFit : bool; min : double; max : double }.
End FitParameter.
Abbreviation FitParameter := FitParameter.FitParameter.

Definition defaultFitParameter : FitParameter :=
  FitParameter.mk "" 0%float false 0%float 100%float.

(** [struct SamplingInterval], as [getLogSampledData] reads it. *)
Module SamplingInterval.
Record SamplingInterval := mk { tStart : double; tEnd : double; count : Z }.
End SamplingInterval.
Abbreviation SamplingInterval := SamplingInterval.SamplingInterval.

(** The local [struct DataPoint] of [getLogSampledData] (lines 60-64). *)
Module DataPoint.
Record DataPoint := mk { t : double; p : double; d : double }.
(** [operator<] and [operator==]. *)
Definition lt (a b : DataPoint) : bool := (t a <? t b)%float.
Definition eq (a b : DataPoint) : bool := (abs (t a - t b) <? 1e-9)%float.
End DataPoint.
Abbreviation DataPoint := DataPoint.DataPoint.

(** Points in ascending time, and points of finite time. *)
Definition le_t (a b : DataPoint) : Prop := (DataPoint.t a <=? DataPoint.t b)%float = true.
Definition finite_t (a : DataPoint) : Prop := is_finite (DataPoint.t a) = true.

(** [QMap<QString, double>]. *)
Abbreviation ParamMap := (gmap string double).

(** [map.contains(k)]. *)
Definition contains (m : ParamMap) (k : string) : bool :=
  match m !! k with Some _ => true | None => false end.

(** [map.value(k)], and [map[k]] read at a key the map holds (every
    [operator[]] read in the driver is at such a key, so none inserts). *)
Definition get (m : ParamMap) (k : string) : double := default 0%float (m !! k).

(** [ModelCurveData]: [std::tuple] of three [QVector<double>]. *)
Definition ModelCurveData : Type := list double * list double * list double.
Definition get0 (c : ModelCurveData) : list double := fst (fst c).
Definition get1 (c : ModelCurveData) : list double := snd (fst c).
Definition get2 (c : ModelCurveData) : list double := snd c.

(** The members of [FittingCore] the fit reads. *)
Record FittingCore := mkFittingCore {
  m_obsTime : list double;
  m_obsDeltaP : list double;
  m_obsDerivative : list double;
  m_customIntervals : list SamplingInterval;
  m_isCustomSamplingEnabled : bool }.

(** What a session does to the outside: calls on the model manager, calls of
    the linear solver, and the three signals. *)
Inductive Event :=
| EvSetHighPrecision (b : bool)
| EvEvaluate (params : ParamMap) (grid : option (list double))
| EvSolve (A : list (list double)) (b : list double)
| SigIterationUpdated (mse : double) (params : ParamMap) (curve : ModelCurveData)
| SigProgress (percent : Z)
| SigFitFinished.

Definition isIterationUpdated (e : Event) : bool :=
  match e with SigIterationUpdated _ _ _ => true | _ => false end.
Definition isProgress (e : Event) : bool :=
  match e with SigProgress _ => true | _ => false end.
Definition isFitFinished (e : Event) : bool :=
  match e with SigFitFinished => true | _ => false end.
Definition isEvaluate (e : Event) : bool :=
  match e with EvEvaluate _ _ => true | _ => false end.
Definition isSolve (e : Event) : bool :=
  match e with EvSolve _ _ => true | _ => false end.

(** A computation of the worker thread: it reads and writes the model
    manager's precision flag and appends to the events of the session. *)
Definition M (A : Type) : Type := bool -> A * bool * list Event.

Definition ret {A : Type} (a : A) : M A := fun hp => (a, hp, []).
Definition bind {A B : Type} (m : M A) (k : A -> M B) : M B :=
  fun hp =>
    let '(a, hp1, e1) := m hp in
    let '(b, hp2, e2) := k a hp1 in
    (b, hp2, e1 ++ e2).
#[global] Instance M_ret : MRet M := @ret.
#[global] Instance M_bind : MBind M := fun A B k m => bind m k.

Definition emit (e : Event) : M unit := fun hp => (tt, hp, [e]).
Definition setHighPrecision (b : bool) : M unit :=
  fun _ => (tt, b, [EvSetHighPrecision b]).

Definition result {A : Type} (r : A * bool * list Event) : A := fst (fst r).
Definition events {A : Type} (r : A * bool * list Event) : list Event := snd r.

(** [for (...; i < n; ...)] over monadic bodies, in index order. *)
Fixpoint mapM {A B : Type} (f : A -> M B) (l : list A) : M (list B) :=
  match l with
  | [] => mret []
  | x :: l' => y ← f x; ys ← mapM f l'; mret (y :: ys)
  end.

(** ** Resampler ([getLogSampledData], lines 53-155) *)

(** The cursor scan of lines 84-92 and 128-136: from [currentIndex], advance
    while the distance to [targetT] strictly decreases; the result is
    [bestIdx].  [fuel] bounds the passes of the [while]. *)
Fixpoint scanLoop (fuel : nat) (srcT : list double) (limit : nat) (targetT : double)
    (currentIndex : nat) (minDiff : double) (bestIdx : nat) : nat :=
  match fuel with
  | O => bestIdx
  | S fuel' =>
      if (currentIndex <? limit)%nat then
        let diff := abs (at_ srcT currentIndex - targetT) in
        if (diff <? minDiff)%float
        then scanLoop fuel' srcT limit targetT (S currentIndex) diff currentIndex
        else bestIdx
      else bestIdx
  end.

Definition nearestIndex (srcT : list double) (limit : nat) (targetT : double)
    (currentIndex : nat) : nat :=
  scanLoop (S (limit - currentIndex)) srcT limit targetT currentIndex 1e30 currentIndex.

(** [{srcT[bestIdx], (bestIdx<srcP.size()?srcP[bestIdx]:0.0), ...}]. *)
Definition pickPoint (srcT srcP srcD : list double) (bestIdx : nat) : DataPoint :=
  DataPoint.mk (at_ srcT bestIdx)
    (if (bestIdx <? length srcP)%nat then at_ srcP bestIdx else 0%float)
    (if (bestIdx <? length srcD)%nat then at_ srcD bestIdx else 0%float).

(** [std::lower_bound] and [std::upper_bound] on [srcT]: the binary searches
    of the standard library. *)
Fixpoint lower_bound_loop (fuel : nat) (v : list double) (val : double)
    (first len : nat) : nat :=
  match fuel with
  | O => first
  | S fuel' =>
      if (0 <? len)%nat then
        let half := (len / 2)%nat in
        let middle := (first + half)%nat in
        if (at_ v middle <? val)%float
        then lower_bound_loop fuel' v val (middle + 1)%nat (len - half - 1)%nat
        else lower_bound_loop fuel' v val first half
      else first
  end.

Fixpoint upper_bound_loop (fuel : nat) (v : list double) (val : double)
    (first len : nat) : nat :=
  match fuel with
  | O => first
  | S fuel' =>
      if (0 <? len)%nat then
        let half := (len / 2)%nat in
        let middle := (first + half)%nat in
        if (val <? at_ v middle)%float
        then upper_bound_loop fuel' v val first half
        else upper_bound_loop fuel' v val (middle + 1)%nat (len - half - 1)%nat
      else first
  end.

Definition lower_bound (v : list double) (val : double) : nat :=
  lower_bound_loop (length v) v val 0 (length v).
Definition upper_bound (v : list double) (val : double) : nat :=
  upper_bound_loop (length v) v val 0 (length v).

(** [std::sort(points.begin(), points.end())] with [operator<]: the result is
    the points in ascending time.  [std::sort] leaves the order of points of
    equal time open; the model is the insertion sort, which keeps it. *)
Fixpoint insertPoint (x : DataPoint) (l : list DataPoint) : list DataPoint :=
  match l with
  | [] => [x]
  | y :: l' => if DataPoint.lt x y then x :: y :: l' else y :: insertPoint x l'
  end.

Definition std_sort (l : list DataPoint) : list DataPoint :=
  fold_left (fun acc x => insertPoint x acc) l [].

(** [std::unique] followed by [erase]: a point is kept unless it is [==] to
    the last point kept. *)
Fixpoint uniqueFrom (kept : DataPoint) (l : list DataPoint) : list DataPoint :=
  match l with
  | [] => [kept]
  | x :: l' => if DataPoint.eq kept x then uniqueFrom kept l' else kept :: uniqueFrom x l'
  end.

Definition std_unique (l : list DataPoint) : list DataPoint :=
  match l with
  | [] => []
  | x :: l' => uniqueFrom x l'
  end.

(** Lines 146-154. *)
Definition finishPoints (points : list DataPoint)
  : list double * list double * list double :=
  let points' := std_unique (std_sort points) in
  (map DataPoint.t points', map DataPoint.p points', map DataPoint.d points').

(** Is [l] strictly ascending with no two neighbours within [1e-9]? *)
Fixpoint strictlyAscending (l : list double) : bool :=
  match l with
  | a :: (b :: _) as l' =>
      (a <? b)%float && negb (abs (a - b) <? 1e-9)%float && strictlyAscending l'
  | _ => true
  end.

(** Is every sample of [l] closer to [targetT] than the sample before it (so
    that the cursor scan for [targetT] runs to the last sample)? *)
Fixpoint steadilyCloser (targetT : double) (l : list double) : bool :=
  match l with
  | a :: (b :: _) as l' =>
      (abs (b - targetT) <? abs (a - targetT))%float && steadilyCloser targetT l'
  | _ => true
  end.

(** The [n] linearly spaced times [k, k + 1, ...]. *)
Fixpoint linearFrom (n : nat) (k : Z) : list double :=
  match n with
  | O => []
  | S n' => double_of_int k :: linearFrom n' (k + 1)
  end.

(** The linearly spaced times [1, 2, ..., n]. *)
Definition linearTimes (n : nat) : list double := linearFrom n 1.


(** ** Invariant projections (lines 187-194 and 250-257) *)

(** I4: [if (map.contains("L") && map.contains("Lf") && map["L"] > 1e-9)
    map["LfD"] = map["Lf"] / map["L"];] *)
Definition updateDeps (m : ParamMap) : ParamMap :=
  if contains m "L" && contains m "Lf" && (1e-9 <? get m "L")%float
  then <["LfD" := (get m "Lf" / get m "L")%float]> m
  else m.

(** I2: [kf := km * 1.01] when [kf <= km]. *)
Definition projectKf (m : ParamMap) : ParamMap :=
  if contains m "kf" && contains m "km" then
    if (get m "kf" <=? get m "km")%float
    then <["kf" := (get m "km" * 1.01)%float]> m
    else m
  else m.

(** I3: [omega1 := omega2 * 1.01] when [omega1 <= omega2]. *)
Definition projectOmega (m : ParamMap) : ParamMap :=
  if contains m "omega1" && contains m "omega2" then
    if (get m "omega1" <=? get m "omega2")%float
    then <["omega1" := (get m "omega2" * 1.01)%float]> m
    else m
  else m.

(** [isLog = (val > 1e-12 && pName != "S" && pName != "nf")]. *)
Definition isLogParam (val : double) (pName : string) : bool :=
  (1e-12 <? val)%float && negb (String.eqb pName "S") && negb (String.eqb pName "nf").

(** [calculateSumSquaredError] (lines 388-392). *)
Definition calculateSumSquaredError (residuals : list double) : double :=
  fold_left (fun sse v => (sse + v * v)%float) residuals 0%float.

(** The indices [i] with [params[i].isFit && params[i].name != "LfD"]
    (lines 164-167). *)
Definition isFree (p : FitParameter) : bool :=
  FitParameter.isFit p && negb (String.eqb (FitParameter.name p) "LfD").

Definition freeIndices (params : list FitParameter) : list nat :=
  List.filter (fun i => isFree (nth i params defaultFitParameter))
              (seq 0 (length params)).

(** [for (const auto& p : params) currentParamMap.insert(p.name, p.value);] *)
Definition initialParamMap (params : list FitParameter) : ParamMap :=
  fold_left (fun m p => <[FitParameter.name p := FitParameter.value p]> m) params ∅.

(** Lines 212-225: [g = J^T r] and [H = J^T J], the lower triangle summed
    over the residuals in index order and mirrored. *)
Definition at2 (A : list (list double)) (i j : nat) : double := at_ (nth i A []) j.

Definition gradient (J : list (list double)) (residuals : list double)
    (nRes nParams : nat) : list double :=
  map (fun i =>
         fold_left (fun acc k => (acc + at2 J k i * at_ residuals k)%float)
                   (seq 0 nRes) 0%float)
      (seq 0 nParams).

Definition lowerEntry (J : list (list double)) (nRes i j : nat) : double :=
  fold_left (fun acc k => (acc + at2 J k i * at2 J k j)%float) (seq 0 nRes) 0%float.

Definition hessian (J : list (list double)) (nRes nParams : nat) : list (list double) :=
  map (fun i =>
         map (fun j => if (j <=? i)%nat then lowerEntry J nRes i j
                       else lowerEntry J nRes j i)
             (seq 0 nParams))
      (seq 0 nParams).

(** Line 230: [H_lm[i][i] += lambda * (1.0 + std::abs(H[i][i]))], one index. *)
Definition addToDiagonal (lambda : double) (H : list (list double))
    (H_lm : list (list double)) (i : nat) : list (list double) :=
  <[i := <[i := (at2 H_lm i i + lambda * (1.0 + abs (at2 H i i)))%float]> (nth i H_lm [])]> H_lm.

(** Lines 229-230: [H_lm = H] and the loop over the diagonal. *)
Definition dampedHessian (lambda : double) (H : list (list double)) (nParams : nat)
  : list (list double) :=
  fold_left (addToDiagonal lambda H) (seq 0 nParams) H.

(** [A] has [n] rows of [n] entries. *)
Definition square (n : nat) (A : list (list double)) : Prop :=
  length A = n /\ Forall (fun row => length row = n) A.

(** The state the LM loop carries from try to try. *)
Record LMState := mkLMState {
  lambda : double;
  currentSSE : double;
  currentParamMap : ParamMap;
  residuals : list double }.


(** What stays fixed during a session: the arguments of the driver and the
    resampled observations. *)
Record Session (ModelType : Type) := mkSession {
  modelType : ModelType;
  params : list FitParameter;
  weight : double;
  fitT : list double;
  fitP : list double;
  fitD : list double }.
Arguments mkSession {ModelType}.
Arguments modelType {ModelType}.
Arguments params {ModelType}.
Arguments weight {ModelType}.
Arguments fitT {ModelType}.
Arguments fitP {ModelType}.
Arguments fitD {ModelType}.

(** ** Stand-ins for the collaborators

    To run the model on concrete inputs: a math library (series for [log] and
    [exp], accurate to a few units in the last place), three evaluators, a
    solver that is exact for one free parameter, and a cancellation flag that
    is never set. *)

Open Scope float_scope.
Definition ln2 : double := 0.6931471805599453.
Definition ln10 : double := 2.302585092994046.

(** The partial sums of [z + z^3/3 + z^5/5 + ...]. *)
Fixpoint atanhSeries (n : nat) (z2 term : double) (k : Z) (acc : double) : double :=
  match n with
  | O => acc
  | S n' => atanhSeries n' z2 (term * z2) (k + 2)%Z (acc + term / double_of_int k)
  end.

Definition refLog (x : double) : double :=
  if is_nan x then nan
  else if x <? 0 then nan
  else if x =? 0 then neg_infinity
  else if x =? infinity then infinity
  else
    let (m0, e0) := Z.frexp x in
    let (m, e) := if m0 <? 0.7071067811865476 then (m0 * 2, (e0 - 1)%Z) else (m0, e0) in
    let z := (m - 1) / (m + 1) in
    2 * atanhSeries 30 (z * z) z 1 0 + double_of_int e * ln2.

Definition refLog10 (x : double) : double := refLog x / ln10.

Fixpoint expSeries (n : nat) (r term : double) (k : Z) (acc : double) : double :=
  match n with
  | O => acc
  | S n' => expSeries n' r (term * r / double_of_int k) (k + 1)%Z (acc + term)
  end.

Definition refExp (y : double) : double :=
  if is_nan y then nan
  else if 710 <? y then infinity
  else if y <? -746 then 0
  else
    let k := int_of_double (y / ln2 + (if y <? 0 then -0.5 else 0.5)) in
    let r := y - double_of_int k * ln2 in
    Z.ldexp (expSeries 30 r 1 1 0) k.

Definition refPow (b e : double) : double :=
  if e =? 0 then 1 else refExp (e * refLog b).


Close Scope float_scope.

(** The evaluator of the "trivial fit" scenario: [p = params["a"]] and
    [d = 0] on the grid. *)
Definition flatEvaluator (hp : bool) (mt : unit) (prm : ParamMap)
    (grid : option (list double)) : ModelCurveData :=
  let t := default [] grid in
  (t, map (fun _ => get prm "a") t, map (fun _ => 0%float) t).

(** An evaluator that returns no samples. *)
Definition emptyEvaluator (hp : bool) (mt : unit) (prm : ParamMap)
    (grid : option (list double)) : ModelCurveData := ([], [], []).

(** An evaluator whose curves lose a sample once [S] exceeds 1. *)
Definition shrinkingEvaluator (hp : bool) (mt : unit) (prm : ParamMap)
    (grid : option (list double)) : ModelCurveData :=
  if (1 <? get prm "S")%float then ([1], [1], [1])%float
  else ([1; 2], [1; 1], [1; 1])%float.

(** An evaluator that returns one sample, of pressure [S], whatever the grid. *)
Definition singleEvaluator (hp : bool) (mt : unit) (prm : ParamMap)
    (grid : option (list double)) : ModelCurveData :=
  ([1], [get prm "S"], [1])%float.

(** [x[i] = b[i] / A[i][i]]: the LDLT solution of a 1 x 1 system. *)
Definition diagonalSolve (A : list (list double)) (b : list double) : list double :=
  map (fun i => (at_ b i / at2 A i i)%float) (seq 0 (length b)).

Definition neverStop (iter : Z) : bool := false.

(** The observations of the "trivial fit" scenario, in default sampling mode. *)
Definition trivialCore : FittingCore :=
  mkFittingCore [0.01; 0.1; 1; 10]%float [1; 2; 3; 4]%float
                [0.5; 0.5; 0.5; 0.5]%float [] false.

(** One free parameter [a], starting at 0.5. *)
Definition paramA (lo hi : double) : FitParameter :=
  FitParameter.mk "a" 0.5%float true lo hi.

(** [kf] free and within [0, 2], [km] fixed at 5: I2 moves [kf] to 5.05. *)
Definition paramsKf : list FitParameter :=
  [FitParameter.mk "kf" 1%float true 0%float 2%float;
   FitParameter.mk "km" 5%float false 0%float 100%float].



(** The "bounds clamp" scenario ([a] in [0, 1]) at the upper bound, two
    failed iterations into the search ([lambda = 1e7]). *)
Definition clampSession : Session unit :=
  mkSession tt [paramA 0%float 1%float] 1%float
            [0.01; 0.1; 1; 10]%float [1; 2; 3; 4]%float [0.5; 0.5; 0.5; 0.5]%float.

Definition clampMap : ParamMap := <["a" := 1%float]> ∅.

Definition clampResiduals : list double :=
  [0; 0.69314718055994529; 1.0986122886681096; 1.3862943611198906; 0; 0; 0; 0]%float.

Definition clampState : LMState :=
  mkLMState 1e7%float (calculateSumSquaredError clampResiduals) clampMap clampResiduals.

(** One linear-scale parameter [S] at 1. *)
Definition paramsS : list FitParameter :=
  [FitParameter.mk "S" 1%float true 0%float 10%float].









(** Events that are no signal: calls of the evaluator and of the solver. *)
Definition quiet (e : Event) : bool := isEvaluate e || isSolve e.

(** ** Predicates of the further properties *)

(** [pt] is the sample of the three source vectors at one common index, a
    missing pressure or derivative read as 0. *)
Definition isSample (srcT srcP srcD : list double) (pt : DataPoint) : Prop :=
  exists k, (k < length srcT)%nat /\ pt = pickPoint srcT srcP srcD k.

(** The times of [srcT] in ascending order. *)
Definition ascendingTimes (srcT : list double) : Prop :=
  StronglySorted (fun a b => (a <=? b)%float = true) srcT.

(** [t] lies in the window of [interval]: it is neither below [tStart] nor
    above [tEnd]. *)
Definition inWindow (interval : SamplingInterval) (t : double) : Prop :=
  (t <? SamplingInterval.tStart interval)%float = false
  /\ (SamplingInterval.tEnd interval <? t)%float = false.

(** Is [f] NaN, a zero, or of positive sign? *)
Definition sf_not_negative (f : spec_float) : bool :=
  match f with
  | S754_infinity true | S754_finite true _ _ => false
  | _ => true
  end.

(** The percentages of the progress signals among [evs], in order. *)
Definition progressValues (evs : list Event) : list Z :=
  flat_map (fun e => match e with SigProgress percent => [percent] | _ => [] end) evs.

Definition isSetHighPrecision (e : Event) : bool :=
  match e with EvSetHighPrecision _ => true | _ => false end.

(** [lambda] after [n] rejected trials. *)
Definition rejectedLambda (n : nat) (lam : double) : double :=
  Nat.iter n (fun l => (l * 10.0)%float) lam.

(** The state after [n] rejected trials: only [lambda] has changed. *)
Definition rejectedState (n : nat) (st : LMState) : LMState :=
  mkLMState (rejectedLambda n (lambda st)) (currentSSE st) (currentParamMap st)
            (residuals st).

(** The damped matrix in the words of the specification: [H] with
    [lam * (1 + |H[i][i]|)] added to every diagonal entry. *)
Definition marquardtMatrix (lam : double) (H : list (list double)) (n : nat)
  : list (list double) :=
  map (fun i =>
         map (fun j => if (i =? j)%nat
                       then (at2 H i i + lam * (1.0 + abs (at2 H i i)))%float
                       else at2 H i j)
             (seq 0 n))
      (seq 0 n).

(** No residual vector has a sum of squares strictly below [c]. *)
Definition unbeatable (c : double) : Prop :=
  forall r, (calculateSumSquaredError r <? c)%float = false.

(** The shape the three projections share: under a guard, one key is
    overwritten with a value computed from the map. *)
Definition guardedWrite (k : string) (guard : ParamMap -> bool) (v : ParamMap -> double)
    (m : ParamMap) : ParamMap :=
  if guard m then <[k := v m]> m else m.

(** The postconditions of the projections I4, I2 and I3 on a map. *)
Definition depsHold (m : ParamMap) : Prop :=
  contains m "L" = true -> contains m "Lf" = true -> (1e-9 <? get m "L")%float = true ->
  m !! "LfD" = Some (get m "Lf" / get m "L")%float.

Definition kfHolds (m : ParamMap) : Prop :=
  contains m "kf" = true -> contains m "km" = true ->
  (get m "kf" <=? get m "km")%float = true -> get m "kf" = (get m "km" * 1.01)%float.

Definition omegaHolds (m : ParamMap) : Prop :=
  contains m "omega1" = true -> contains m "omega2" = true ->
  (get m "omega1" <=? get m "omega2")%float = true ->
  get m "omega1" = (get m "omega2" * 1.01)%float.

(** ** The chart manager ([fittingchart.cpp]) *)

(** [FittingDataSettings] ([fittingdatadialog.h]) as the chart reads it:
    [testType == Test_Buildup], and [producingTime]. *)
Module FittingDataSettings.
Record FittingDataSettings := mk { isBuildup : bool; producingTime : double }.
End FittingDataSettings.
Abbreviation FittingDataSettings := FittingDataSettings.FittingDataSettings.

(** The members of [FittingChart]; of each plot pointer, whether it is set. *)
Module FittingChart.
Record FittingChart := mk {
  m_plotLogLog : bool;
  m_plotSemiLog : bool;
  m_plotCartesian : bool;
  m_obsT : list double;
  m_obsDeltaP : list double;
  m_obsDeriv : list double;
  m_obsRawP : list double;
  m_settings : FittingDataSettings;
  m_calculatedPi : double }.
End FittingChart.
Abbreviation FittingChart := FittingChart.FittingChart.

(** A graph: the keys and the values handed to [setData]. *)
Definition Graph : Type := (list double * list double)%type.

(** What a plot holds once drawn: its graphs in [addGraph] order, and the
    value on the text label if [showResultOnLogPlot] ran. *)
Record Plot := mkPlot { graphs : list Graph; label : option double }.

(** The constructor (lines 14-17); [settings] is the default-constructed
    [FittingDataSettings]. *)
Definition newFittingChart (settings : FittingDataSettings) : FittingChart :=
  FittingChart.mk false false false [] [] [] [] settings 0%float.

Definition initializeCharts (logLog semiLog cartesian : bool) (chart : FittingChart)
  : FittingChart :=
  FittingChart.mk logLog semiLog cartesian
    (FittingChart.m_obsT chart) (FittingChart.m_obsDeltaP chart)
    (FittingChart.m_obsDeriv chart) (FittingChart.m_obsRawP chart)
    (FittingChart.m_settings chart) (FittingChart.m_calculatedPi chart).

Definition chartSetObservedData (t deltaP deriv rawP : list double) (chart : FittingChart)
  : FittingChart :=
  FittingChart.mk (FittingChart.m_plotLogLog chart) (FittingChart.m_plotSemiLog chart)
    (FittingChart.m_plotCartesian chart) t deltaP deriv rawP
    (FittingChart.m_settings chart) (FittingChart.m_calculatedPi chart).

Definition setSettings (settings : FittingDataSettings) (chart : FittingChart)
  : FittingChart :=
  FittingChart.mk (FittingChart.m_plotLogLog chart) (FittingChart.m_plotSemiLog chart)
    (FittingChart.m_plotCartesian chart)
    (FittingChart.m_obsT chart) (FittingChart.m_obsDeltaP chart)
    (FittingChart.m_obsDeriv chart) (FittingChart.m_obsRawP chart)
    settings (FittingChart.m_calculatedPi chart).

(** [v > 1e-10 ? v : 1e-10]. *)
Definition clampLog (v : double) : double := if (1e-10 <? v)%float then v else 1e-10%float.

(** Lines 60-68: the observed points of the log-log plot. *)
Definition logLogObserved (obsT obsDeltaP obsDeriv : list double)
  : list double * list double * list double :=
  fold_left
    (fun acc i =>
       if (1e-10 <? at_ obsT i)%float && (1e-10 <? at_ obsDeltaP i)%float then
         (fst (fst acc) ++ [at_ obsT i], snd (fst acc) ++ [at_ obsDeltaP i],
          snd acc ++ [if (i <? length obsDeriv)%nat && (1e-10 <? at_ obsDeriv i)%float
                      then at_ obsDeriv i else 1e-10%float])
       else acc)
    (seq 0 (length obsT)) ([], [], []).

(** Lines 84-91: the model points of the log-log plot. *)
Definition logLogModel (tm pm dm : list double) : list double * list double * list double :=
  fold_left
    (fun acc i =>
       if (1e-10 <? at_ tm i)%float then
         (fst (fst acc) ++ [at_ tm i], snd (fst acc) ++ [clampLog (at_ pm i)],
          snd acc ++ [clampLog (at_ dm i)])
       else acc)
    (seq 0 (length tm)) ([], [], []).

(** [plotLogLog] (lines 53-131): the graphs, and the label of line 128. *)
Definition plotLogLog (chart : FittingChart) (tm pm dm : list double) (hasModel : bool)
  : Plot :=
  let obs := logLogObserved (FittingChart.m_obsT chart) (FittingChart.m_obsDeltaP chart)
                            (FittingChart.m_obsDeriv chart) in
  let mdl := logLogModel tm pm dm in
  mkPlot
    ([(fst (fst obs), snd (fst obs)); (fst (fst obs), snd obs)]
     ++ (if hasModel then [(fst (fst mdl), snd (fst mdl)); (fst (fst mdl), snd mdl)] else []))
    (if FittingDataSettings.isBuildup (FittingChart.m_settings chart)
        && (1e-6 <? FittingChart.m_calculatedPi chart)%float
     then Some (FittingChart.m_calculatedPi chart) else None).

(** Lines 200-206 and 215-221: the observed and the model points of the
    semi-log plot of a drawdown. *)
Definition semiLogObserved (obsT obsDeltaP : list double) : list double * list double :=
  fold_left
    (fun acc i =>
       if (1e-10 <? at_ obsT i)%float
       then (fst acc ++ [at_ obsT i], snd acc ++ [at_ obsDeltaP i])
       else acc)
    (seq 0 (length obsT)) ([], []).

Definition semiLogModel (tm pm : list double) : list double * list double :=
  fold_left
    (fun acc i =>
       if (1e-10 <? at_ tm i)%float
       then (fst acc ++ [at_ tm i], snd acc ++ [clampLog (at_ pm i)])
       else acc)
    (seq 0 (length tm)) ([], []).

(** [plotCartesian] (lines 249-293). *)
Definition plotCartesian (chart : FittingChart) (tm pm : list double) (hasModel : bool)
  : Plot :=
  let n := length (FittingChart.m_obsT chart) in
  mkPlot
    ((map (at_ (FittingChart.m_obsT chart)) (seq 0 n),
      map (at_ (FittingChart.m_obsDeltaP chart)) (seq 0 n))
     :: (if hasModel
         then [(map (at_ tm) (seq 0 (length tm)), map (at_ pm) (seq 0 (length tm)))]
         else []))
    None.

(** A graph fit for logarithmic axes: as many keys as values, every key above
    [1e-10] and every value at least [1e-10]. *)
Definition logGraph (g : Graph) : Prop :=
  length (fst g) = length (snd g)
  /\ Forall (fun t => (1e-10 <? t)%float = true) (fst g)
  /\ Forall (fun v => (1e-10 <=? v)%float = true) (snd g).

(** Further stand-ins: a cancellation flag that is set from the start; a
    core whose only custom interval asks for no point, and one whose interval
    asks for two; four samples; a chart of a buildup. *)
Definition alwaysStop (iter : Z) : bool := true.

Definition countlessCore : FittingCore :=
  mkFittingCore [1; 2; 3]%float [1; 2; 3]%float [1; 1; 1]%float
                [SamplingInterval.mk 1%float 3%float 0] true.

Definition windowCore : FittingCore :=
  mkFittingCore [] [] [] [SamplingInterval.mk 2%float 3%float 2] true.

Definition fourTimes : list double := [1; 2; 3; 4]%float.
Definition fourPressures : list double := [10; 20; 30; 40]%float.

Definition buildupChart : FittingChart :=
  FittingChart.mk true true true [0; 1; 2]%float [0; 3; 4]%float [5]%float
                  [20; 21; 22]%float (FittingDataSettings.mk true 10%float) 0%float.

Section Core.

(** The C math library. *)
Variable log : double -> double.
Variable log10 : double -> double.
Variable pow : double -> double -> double.

(** [ModelManager::calculateTheoreticalCurve(type, params[, t])], a function
    of the precision flag and its arguments. *)
Variable ModelType : Type.
Variable calculateTheoreticalCurve :
  bool -> ModelType -> ParamMap -> option (list double) -> ModelCurveData.

(** Eigen's [matA.ldlt().solve(vecB)]. *)
Variable ldlt_solve : list (list double) -> list double -> list double.

(** The value of [m_stopRequested] when iteration [iter] polls it. *)
Variable stopRequested : Z -> bool.

(** *** Resampler *)

(** Lines 82-96, one pass for target [i]; the state is the cursor and the
    points so far. *)
Definition defaultStep (logMin step : double) (srcT srcP srcD : list double)
    (st : nat * list DataPoint) (i : nat) : nat * list DataPoint :=
  let targetT := pow 10 (logMin + double_of_int (Z.of_nat i) * step)%float in
  let bestIdx := nearestIndex srcT (length srcT) targetT (fst st) in
  (bestIdx, snd st ++ [pickPoint srcT srcP srcD bestIdx]).

(** Lines 75-79: [logMin] and [step] of the default plan. *)
Definition defaultLogMin (srcT : list double) : double :=
  log10 (if (at_ srcT 0 <=? 1e-10)%float then 1e-4%float else at_ srcT 0).

Definition defaultLogStep (targetCount : nat) (srcT : list double) : double :=
  ((log10 (at_ srcT (length srcT - 1)) - defaultLogMin srcT)
   / double_of_int (Z.of_nat targetCount - 1))%float.

(** Line 83: the [i]-th target time of the default plan. *)
Definition defaultTarget (targetCount : nat) (srcT : list double) (i : nat) : double :=
  pow 10 (defaultLogMin srcT
          + double_of_int (Z.of_nat i) * defaultLogStep targetCount srcT)%float.

(** Lines 75-96. *)
Definition defaultPoints (targetCount : nat) (srcT srcP srcD : list double)
  : list DataPoint :=
  snd (fold_left (defaultStep (defaultLogMin srcT) (defaultLogStep targetCount srcT)
                    srcT srcP srcD)
                 (seq 0 targetCount) (0%nat, [])).

(** Lines 126-142, one pass for target [i] of an interval. *)
Definition customStep (count : Z) (subMin logMin step : double) (idxEnd : nat)
    (srcT srcP srcD : list double) (st : nat * list DataPoint) (i : nat)
  : nat * list DataPoint :=
  let targetT :=
    if count =? 1 then subMin
    else pow 10 (logMin + double_of_int (Z.of_nat i) * step)%float in
  let bestIdx := nearestIndex srcT idxEnd targetT (fst st) in
  (bestIdx,
   if (bestIdx <? length srcT)%nat
   then snd st ++ [pickPoint srcT srcP srcD bestIdx]
   else snd st).

(** Lines 104-143, the body of the loop over the intervals. *)
Definition customInterval (srcT srcP srcD : list double) (points : list DataPoint)
    (interval : SamplingInterval) : list DataPoint :=
  let tStart := SamplingInterval.tStart interval in
  let tEnd := SamplingInterval.tEnd interval in
  let count := SamplingInterval.count interval in
  if count <=? 0 then points
  else
    let idxStart := lower_bound srcT tStart in
    let idxEnd := upper_bound srcT tEnd in
    if (length srcT <=? idxStart)%nat || (idxEnd <=? idxStart)%nat then points
    else
      let subMin0 := at_ srcT idxStart in
      let subMax := at_ srcT (idxEnd - 1) in
      let subMin := if (subMin0 <=? 1e-10)%float then 1e-4%float else subMin0 in
      let logMin := log10 subMin in
      let logMax := log10 subMax in
      let step :=
        if 1 <? count then ((logMax - logMin) / double_of_int (count - 1))%float
        else 0%float in
      snd (fold_left (customStep count subMin logMin step idxEnd srcT srcP srcD)
                     (seq 0 (Z.to_nat count)) (idxStart, points)).

Definition customPoints (intervals : list SamplingInterval)
    (srcT srcP srcD : list double) : list DataPoint :=
  fold_left (customInterval srcT srcP srcD) intervals [].

(** [getLogSampledData]: the triple is [(outT, outP, outD)]. *)
Definition getLogSampledData (self : FittingCore) (srcT srcP srcD : list double)
  : list double * list double * list double :=
  match srcT with
  | [] => ([], [], [])
  | _ :: _ =>
      if negb (m_isCustomSamplingEnabled self) then
        if (length srcT <=? 200)%nat then (srcT, srcP, srcD)
        else finishPoints (defaultPoints 200 srcT srcP srcD)
      else
        match m_customIntervals self with
        | [] => (srcT, srcP, srcD)
        | _ :: _ => finishPoints (customPoints (m_customIntervals self) srcT srcP srcD)
        end
  end.

(** Is the call a passthrough (lines 70-73 and 100-103)? *)
Definition isPassthrough (self : FittingCore) (srcT : list double) : bool :=
  if negb (m_isCustomSamplingEnabled self) then (length srcT <=? 200)%nat
  else match m_customIntervals self with [] => true | _ :: _ => false end.

(** *** Residual builder ([calculateResiduals], lines 284-312) *)

Definition evaluate (modelType : ModelType) (params : ParamMap)
    (grid : option (list double)) : M ModelCurveData :=
  fun hp => (calculateTheoreticalCurve hp modelType params grid, hp,
             [EvEvaluate params grid]).

(** One entry of a residual block (lines 298-301 and 306-309). *)
Definition logResidual (obs cal : list double) (w : double) (i : nat) : double :=
  if (1e-10 <? at_ obs i)%float && (1e-10 <? at_ cal i)%float
  then ((log (at_ obs i) - log (at_ cal i)) * w)%float
  else 0%float.

(** The model manager is set ([m_modelManager] is not null). *)
Definition calculateResiduals (params : ParamMap) (modelType : ModelType)
    (weight : double) (t obsP obsD : list double) : M (list double) :=
  match t with
  | [] => mret []
  | _ :: _ =>
      res ← evaluate modelType params (Some t);
      let pCal := get1 res in
      let dpCal := get2 res in
      let wp := weight in
      let wd := (1.0 - weight)%float in
      let count := Nat.min (length obsP) (length pCal) in
      let dCount := Nat.min (Nat.min (length obsD) (length dpCal)) count in
      mret (map (logResidual obsP pCal wp) (seq 0 count)
            ++ map (logResidual obsD dpCal wd) (seq 0 dCount))
  end.

(** *** Jacobian engine ([computeJacobian], lines 314-371) *)

(** The perturbed maps of column [pName] (lines 329-351). *)
Definition stepSize (params : ParamMap) (pName : string) : double :=
  if isLogParam (get params pName) pName then 0.01%float else 1e-4%float.

Definition perturbed (params : ParamMap) (pName : string) (up : bool) : ParamMap :=
  let val := get params pName in
  let h := stepSize params pName in
  let moved :=
    if isLogParam val pName then
      let valLog := log10 val in
      <[pName := pow 10.0 (if up then valLog + h else valLog - h)%float]> params
    else
      <[pName := (if up then val + h else val - h)%float]> params in
  if String.eqb pName "L" || String.eqb pName "Lf" then updateDeps moved else moved.

(** The lambda [computeColumn] (lines 326-361). *)
Definition computeColumn (params : ParamMap) (baseResiduals : list double)
    (fitIndices : list nat) (modelType : ModelType)
    (currentFitParams : list FitParameter) (weight : double)
    (t obsP obsD : list double) (j : nat) : M (list double) :=
  let nRes := length baseResiduals in
  let idx := nth j fitIndices 0%nat in
  let pName := FitParameter.name (nth idx currentFitParams defaultFitParameter) in
  let h := stepSize params pName in
  let pPlus := perturbed params pName true in
  let pMinus := perturbed params pName false in
  rPlus ← calculateResiduals pPlus modelType weight t obsP obsD;
  rMinus ← calculateResiduals pMinus modelType weight t obsP obsD;
  mret (if (length rPlus =? nRes)%nat && (length rMinus =? nRes)%nat
        then map (fun i => ((at_ rPlus i - at_ rMinus i) / (2.0 * h))%float) (seq 0 nRes)
        else repeat 0%float nRes).

(** [blockingMapped] over the columns, then the copy into [J] (lines
    363-370).  The source runs the columns concurrently and orders their
    results, not their calls: the model runs them in column order, and no
    statement below depends on the order of the evaluator calls of different
    columns (they are counted, filtered, or compared up to permutation). *)
Definition computeJacobian (params : ParamMap) (baseResiduals : list double)
    (fitIndices : list nat) (modelType : ModelType)
    (currentFitParams : list FitParameter) (weight : double)
    (t obsP obsD : list double) : M (list (list double)) :=
  let nRes := length baseResiduals in
  let nParams := length fitIndices in
  results ← mapM (computeColumn params baseResiduals fitIndices modelType
                     currentFitParams weight t obsP obsD) (seq 0 nParams);
  mret (map (fun i =>
               map (fun j =>
                      let col := nth j results [] in
                      if (i <? length col)%nat then at_ col i else 0%float)
                   (seq 0 nParams))
            (seq 0 nRes)).

(** [solveLinearSystem] (lines 373-386): the [n x n] copy of [A] and the
    copy of [b] go to Eigen, and the [n] entries of the solution come back. *)
Definition solveLinearSystem (A : list (list double)) (b : list double)
  : M (list double) :=
  let n := length b in
  match n with
  | O => mret []
  | S _ =>
      let matA := map (fun i => map (fun j => at2 A i j) (seq 0 n)) (seq 0 n) in
      let vecB := map (fun i => at_ b i) (seq 0 n) in
      emit (EvSolve matA vecB);;
      let x := ldlt_solve matA vecB in
      mret (map (fun i => at_ x i) (seq 0 n))
  end.

(** *** LM driver ([runLevenbergMarquardtOptimization], lines 161-282) *)

(** Lines 238-248: the trial value of free parameter [i], clamped. *)
Definition trialValue (params : list FitParameter) (fitIndices : list nat)
    (current : ParamMap) (delta : list double) (i : nat) : string * double :=
  let pIdx := nth i fitIndices 0%nat in
  let prm := nth pIdx params defaultFitParameter in
  let pName := FitParameter.name prm in
  let oldVal := get current pName in
  let newVal :=
    if isLogParam oldVal pName then pow 10.0 (log10 oldVal + at_ delta i)%float
    else (oldVal + at_ delta i)%float in
  (pName, qMax (FitParameter.min prm) (qMin newVal (FitParameter.max prm))).

Definition trialParamMap (params : list FitParameter) (fitIndices : list nat)
    (current : ParamMap) (delta : list double) : ParamMap :=
  fold_left
    (fun trialMap i =>
       let nv := trialValue params fitIndices current delta i in
       <[fst nv := snd nv]> trialMap)
    (seq 0 (length fitIndices)) current.

(** Lines 250-257: the projections on the trial map, in the order I4, I2, I3. *)
Definition projectTrial (trialMap : ParamMap) : ParamMap :=
  projectOmega (projectKf (updateDeps trialMap)).

(** Lines 187-194: the projections on the initial map, in the order I2, I3, I4. *)
Definition projectInitial (m : ParamMap) : ParamMap :=
  updateDeps (projectOmega (projectKf m)).

(** Lines 229-260: one trial, up to its sum of squares. *)
Definition buildTrial (s : Session ModelType) (H : list (list double)) (g : list double)
    (st : LMState) : M (ParamMap * list double * double) :=
  let fitIndices := freeIndices (params s) in
  let nParams := length fitIndices in
  let H_lm := dampedHessian (lambda st) H nParams in
  let negG := map (fun i => (- at_ g i)%float) (seq 0 nParams) in
  delta ← solveLinearSystem H_lm negG;
  let trialMap :=
    projectTrial (trialParamMap (params s) fitIndices (currentParamMap st) delta) in
  newRes ← calculateResiduals trialMap (modelType s) (weight s) (fitT s) (fitP s) (fitD s);
  mret (trialMap, newRes, calculateSumSquaredError newRes).

(** Lines 229-273: one pass of the inner loop; the flag is [stepAccepted]. *)
Definition tryStep (s : Session ModelType) (H : list (list double)) (g : list double)
    (nRes : nat) (st : LMState) : M (bool * LMState) :=
  '(trialMap, newRes, newSSE) ← buildTrial s H g st;
  if (newSSE <? currentSSE st)%float then
    let st' := mkLMState (lambda st / 10.0) newSSE trialMap newRes in
    iterCurve ← evaluate (modelType s) trialMap None;
    emit (SigIterationUpdated (newSSE / double_of_int (Z.of_nat nRes)) trialMap iterCurve);;
    mret (true, st')
  else
    mret (false, mkLMState (lambda st * 10.0) (currentSSE st)
                           (currentParamMap st) (residuals st)).

(** Lines 227-274: [for (int tryIter = 0; tryIter < 5; ++tryIter)], with
    [tries] passes left. *)
Fixpoint innerSearch (tries : nat) (s : Session ModelType) (H : list (list double))
    (g : list double) (nRes : nat) (st : LMState) : M (bool * LMState) :=
  match tries with
  | O => mret (false, st)
  | S tries' =>
      '(stepAccepted, st') ← tryStep s H g nRes st;
      if stepAccepted : bool then mret (true, st')
      else innerSearch tries' s H g nRes st'
  end.

(** Lines 207-274: one outer iteration after its two exit tests. *)
Definition lmIteration (s : Session ModelType) (iter : Z) (st : LMState) : M (bool * LMState) :=
  let fitIndices := freeIndices (params s) in
  let nParams := length fitIndices in
  emit (SigProgress (iter * 100 / 50));;
  J ← computeJacobian (currentParamMap st) (residuals st) fitIndices (modelType s)
        (params s) (weight s) (fitT s) (fitP s) (fitD s);
  let nRes := length (residuals st) in
  let H := hessian J nRes nParams in
  let g := gradient J (residuals st) nRes nParams in
  innerSearch 5 s H g nRes st.

(** The exit tests of lines 204-205. *)
Definition converged (st : LMState) : bool :=
  negb (length (residuals st) =? 0)%nat
  && (currentSSE st / double_of_int (Z.of_nat (length (residuals st))) <? 3e-3)%float.

(** Lines 203-276: [for (int iter = 0; iter < maxIter; ++iter)], with
    [left] iterations left. *)
Fixpoint lmLoop (left : nat) (s : Session ModelType) (iter : Z) (st : LMState) : M LMState :=
  match left with
  | O => mret st
  | S left' =>
      if stopRequested iter then mret st
      else if converged st then mret st
      else
        '(stepAccepted, st') ← lmIteration s iter st;
        if negb stepAccepted && (1e10 <? lambda st')%float then mret st'
        else lmLoop left' s (iter + 1) st'
  end.

Definition runLevenbergMarquardtOptimization (self : FittingCore)
    (modelType : ModelType) (params : list FitParameter) (weight : double) : M unit :=
  setHighPrecision false;;
  let fitIndices := freeIndices params in
  match length fitIndices with
  | O => emit SigFitFinished
  | S _ =>
      let '(fitT, fitP, fitD) :=
        getLogSampledData self (m_obsTime self) (m_obsDeltaP self) (m_obsDerivative self) in
      let initialMap := projectInitial (initialParamMap params) in
      residuals0 ← calculateResiduals initialMap modelType weight fitT fitP fitD;
      let st0 := mkLMState 0.01 (calculateSumSquaredError residuals0) initialMap residuals0 in
      curve ← evaluate modelType (currentParamMap st0) None;
      emit (SigIterationUpdated
              (currentSSE st0 / double_of_int (Z.of_nat (length (residuals st0))))
              (currentParamMap st0) curve);;
      st ← lmLoop 50 (mkSession modelType params weight fitT fitP fitD) 0 st0;
      setHighPrecision true;;
      finalCurve ← evaluate modelType (currentParamMap st) None;
      emit (SigIterationUpdated
              (currentSSE st / double_of_int (Z.of_nat (length (residuals st))))
              (currentParamMap st) finalCurve)
  end.

Definition runOptimizationTask := runLevenbergMarquardtOptimization.

(** [startFit] (lines 39-47) up to the end of the session it starts: the fit
    runs on the worker, and when it returns the watcher's [finished] is
    forwarded to [sigFitFinished] (the [connect] of line 21). *)
Definition startFit (watcherRunning : bool) (self : FittingCore)
    (modelType : ModelType) (params : list FitParameter) (weight : double) : M unit :=
  if watcherRunning then mret tt
  else
    runOptimizationTask self modelType params weight;;
    emit SigFitFinished.


(** *** The parts of a session

    Names for what [runLevenbergMarquardtOptimization] computes before its
    loop and emits around it. *)

(** Lines 176-177: the session with its resampled observations. *)
Definition sessionOf (self : FittingCore) (modelType : ModelType)
    (params : list FitParameter) (weight : double) : Session ModelType :=
  let out := getLogSampledData self (m_obsTime self) (m_obsDeltaP self)
                               (m_obsDerivative self) in
  mkSession modelType params weight (fst (fst out)) (snd (fst out)) (snd out).

(** Lines 179-197: the state before the first iteration (the worker has set
    the precision flag to [false]). *)
Definition baselineState (s : Session ModelType) : LMState :=
  let initialMap := projectInitial (initialParamMap (params s)) in
  let residuals0 :=
    result (calculateResiduals initialMap (modelType s) (weight s)
              (fitT s) (fitP s) (fitD s) false) in
  mkLMState 0.01 (calculateSumSquaredError residuals0) initialMap residuals0.

(** Lines 200-201, 268-269 and 280-281: the full curve of the current map
    and the snapshot that carries it. *)
Definition snapshotOf (s : Session ModelType) (st : LMState) (hp : bool) : list Event :=
  [EvEvaluate (currentParamMap st) None;
   SigIterationUpdated
     (currentSSE st / double_of_int (Z.of_nat (length (residuals st))))
     (currentParamMap st)
     (calculateTheoreticalCurve hp (modelType s) (currentParamMap st) None)].

(** The residual vector of the current map on the fit grid, at precision [hp]. *)
Definition residualsOf (s : Session ModelType) (m : ParamMap) (hp : bool) : list double :=
  result (calculateResiduals m (modelType s) (weight s) (fitT s) (fitP s) (fitD s) hp).

(** Line 260: the sum of squares of the trial that state [st] leads to. *)
Definition trialSSE (s : Session ModelType) (H : list (list double)) (g : list double)
    (st : LMState) (hp : bool) : double :=
  snd (result (buildTrial s H g st hp)).

(** *** The semi-log plot and [plotAll] ([fittingchart.cpp]) *)

(** Lines 145-154: the points of the Horner plot. *)
Definition semiLogHornerXY (tp : double) (obsT obsRawP : list double)
  : list double * list double :=
  fold_left
    (fun XY i =>
       let dt := at_ obsT i in
       if (1e-6 <? dt)%float && (i <? length obsRawP)%nat then
         let val := ((tp + dt) / dt)%float in
         if (0 <? val)%float
         then (fst XY ++ [log10 val], snd XY ++ [at_ obsRawP i])
         else XY
       else XY)
    (seq 0 (length obsT)) ([], []).

(** [plotSemiLog] (lines 133-247): the Horner plot of a buildup with a
    positive producing time, which stores the Horner pressure in
    [m_calculatedPi], or the drawdown plot. *)
Definition plotSemiLog (chart : FittingChart) (tm pm : list double) (hasModel : bool)
  : FittingChart * Plot :=
  let settings := FittingChart.m_settings chart in
  if FittingDataSettings.isBuildup settings
     && (0 <? FittingDataSettings.producingTime settings)%float
  then
    let tp := FittingDataSettings.producingTime settings in
    let XY := semiLogHornerXY tp (FittingChart.m_obsT chart) (FittingChart.m_obsRawP chart) in
    let hornerX := fst XY in
    let hornerY := snd XY in
    let calculatedPi :=
      calculateHornerPressure log10 tp (FittingChart.m_obsT chart)
                              (FittingChart.m_obsRawP chart) in
    let line :=
      if (0 <? calculatedPi)%float && negb (length hornerX =? 0)%nat then
        let yAnchor := if (0 <? length hornerX)%nat then at_ hornerY 0 else calculatedPi in
        [([at_ hornerX 0; 0%float], [yAnchor; calculatedPi])]
      else [] in
    (FittingChart.mk (FittingChart.m_plotLogLog chart) (FittingChart.m_plotSemiLog chart)
       (FittingChart.m_plotCartesian chart)
       (FittingChart.m_obsT chart) (FittingChart.m_obsDeltaP chart)
       (FittingChart.m_obsDeriv chart) (FittingChart.m_obsRawP chart)
       settings calculatedPi,
     mkPlot ((hornerX, hornerY) :: line) None)
  else
    (chart,
     mkPlot (semiLogObserved (FittingChart.m_obsT chart) (FittingChart.m_obsDeltaP chart)
             :: (if hasModel then [semiLogModel tm pm] else []))
            None).

(** [plotAll] (lines 40-51): nothing without the three plots; else the
    log-log, the semi-log and the Cartesian plot, in this order. *)
Definition plotAll (chart : FittingChart) (t_model p_model d_model : list double)
    (isModelValid : bool) : FittingChart * option (Plot * Plot * Plot) :=
  if negb (FittingChart.m_plotLogLog chart) || negb (FittingChart.m_plotSemiLog chart)
     || negb (FittingChart.m_plotCartesian chart)
  then (chart, None)
  else
    let logLog := plotLogLog chart t_model p_model d_model isModelValid in
    let semi := plotSemiLog chart t_model p_model isModelValid in
    let cartesian := plotCartesian (fst semi) t_model p_model isModelValid in
    (fst semi, Some (logLog, snd semi, cartesian)).

(* ================================================================== *)
(** * Theorems *)

Lemma hornerSums_suffix_gen (X Y : list double) (first len : nat) (s : Sums) :
  length X = length Y ->
  (first + len = length X)%nat ->
  fold_left (sumStep X Y) (seq first len) s =
  fold_left
    (fun s xy =>
       mkSums (sumX s + fst xy) (sumY s + snd xy)
              (sumXY s + fst xy * snd xy) (sumXX s + fst xy * fst xy)
              (count s + 1))
    (skipn first (combine X Y)) s.
Proof.
  intros HXY. revert first s.
  induction len as [|len IH]; intros first s Hlen.
  - rewrite skipn_all2; [reflexivity|].
    rewrite length_combine. lia.
  - simpl seq. simpl fold_left.
    assert (Hf : (first < length (combine X Y))%nat) by (rewrite length_combine; lia).
    destruct (nth_error (combine X Y) first) as [[x y]|] eqn:Hnth.
    2:{ apply nth_error_None in Hnth. lia. }
    assert (Hsk : skipn first (combine X Y) = (x, y) :: skipn (S first) (combine X Y)).
    { clear -Hnth. revert first Hnth.
      induction (combine X Y) as [|a l IHl]; intros [|n] H; simpl in *; try discriminate.
      - injection H as ->. reflexivity.
      - apply IHl. exact H. }
    rewrite Hsk. simpl fold_left.
    rewrite IH by lia.
    f_equal. unfold sumStep, at_.
    assert (Hx : nth first X 0%float = x /\ nth first Y 0%float = y).
    { clear -Hnth. revert Y first Hnth.
      induction X as [|a X IHX]; intros [|b Y] [|n] H; simpl in *; try discriminate.
      - inversion H. auto.
      - apply IHX in H. exact H. }
    destruct Hx as [-> ->]. reflexivity.
Qed.

Lemma hornerSums_lastPoints (X Y : list double) (k : nat) :
  length X = length Y ->
  hornerSums X Y (length X - k) (length X) = olsSums (lastPoints k X Y).
Proof.
  intros H. unfold hornerSums, olsSums, lastPoints.
  apply hornerSums_suffix_gen; [exact H | lia].
Qed.

Lemma trunc_agrees_sound (fuel : nat) (n0 : Z) :
  trunc_agrees fuel n0 = true ->
  forall n, n0 <= n < n0 + Z.of_nat fuel ->
  int_of_double (double_of_int n * 0.3) = 3 * n / 10.
Proof.
  revert n0. induction fuel as [|fuel IH]; intros n0 H n Hn; [lia|].
  simpl in H. apply andb_true_iff in H as [H1 H2].
  destruct (Z.eq_dec n n0) as [->|Hne].
  - apply Z.eqb_eq. exact H1.
  - apply (IH (n0 + 1) H2). lia.
Qed.

Lemma trunc_agrees_100000 : trunc_agrees (Z.to_nat 100001) 0 = true.
Proof. vm_compute. reflexivity. Qed.

Lemma fitCountOf_small (n : Z) : 5 <= n <= 9 -> fitCountOf n = n.
Proof.
  intros H.
  assert (Hn : n = 5 \/ n = 6 \/ n = 7 \/ n = 8 \/ n = 9) by lia.
  destruct Hn as [->|[->|[->|[->| ->]]]]; vm_compute; reflexivity.
Qed.

Lemma fitCountOf_large (n : Z) : 10 <= n <= 100000 -> fitCountOf n = 3 * n / 10.
Proof.
  intros H. unfold fitCountOf.
  rewrite (trunc_agrees_sound _ _ trunc_agrees_100000) by (rewrite Z2Nat.id; lia).
  assert (3 <= 3 * n / 10) by (apply Z.div_le_lower_bound; lia).
  destruct (Z.ltb_spec (3 * n / 10) 3); [lia | reflexivity].
Qed.

(** The filter loop returns as many [X] as [Y], so the regression of
    [calculateHornerPressure] is covered by the theorem below. *)
Lemma hornerXY_same_length (producingTime : double) (m_obsT m_obsRawP : list double) :
  length (fst (hornerXY log10 producingTime m_obsT m_obsRawP))
  = length (snd (hornerXY log10 producingTime m_obsT m_obsRawP)).
Proof.
  unfold hornerXY.
  generalize (seq 0 (length m_obsT)).
  assert (G : forall (l : list nat) (XY : list double * list double),
            length (fst XY) = length (snd XY) ->
            length (fst (fold_left
              (fun XY i =>
                 let dt := at_ m_obsT i in
                 if (1e-5 <? dt)%float && (i <? length m_obsRawP)%nat then
                   let val := ((producingTime + dt) / dt)%float in
                   if (0 <? val)%float
                   then (fst XY ++ [log10 val], snd XY ++ [at_ m_obsRawP i])
                   else XY
                 else XY) l XY))
            = length (snd (fold_left
              (fun XY i =>
                 let dt := at_ m_obsT i in
                 if (1e-5 <? dt)%float && (i <? length m_obsRawP)%nat then
                   let val := ((producingTime + dt) / dt)%float in
                   if (0 <? val)%float
                   then (fst XY ++ [log10 val], snd XY ++ [at_ m_obsRawP i])
                   else XY
                 else XY) l XY))).
  { induction l as [|i l IH]; intros XY HXY; [exact HXY|].
    simpl fold_left. apply IH. cbv zeta.
    destruct (_ && _); [|exact HXY].
    destruct (0 <? _)%float; [|exact HXY].
    simpl. rewrite !length_app, HXY. reflexivity. }
  intros l. apply G. reflexivity.
Qed.

Lemma calculateHornerPressure_fit (producingTime : double) (m_obsT m_obsRawP : list double) :
  m_obsT <> [] -> m_obsRawP <> [] -> (producingTime <=? 0)%float = false ->
  calculateHornerPressure log10 producingTime m_obsT m_obsRawP
  = hornerFit (fst (hornerXY log10 producingTime m_obsT m_obsRawP))
              (snd (hornerXY log10 producingTime m_obsT m_obsRawP)).
Proof.
  intros HT HP Htp. unfold calculateHornerPressure. rewrite Htp.
  destruct m_obsT; [congruence|]. destruct m_obsRawP; [congruence|]. reflexivity.
Qed.


(** C2, as stated, fails: with five filtered points the specification's fit
    count is [max (floor 1.5) 3 = 3], but the loop sums all five points and
    the returned value (17) is not the intercept of the last three (21.33). *)
Lemma C2_horner_counterexample :
  hornerFitSums horner_X5 horner_Y5
    <> olsSums (lastPoints (specFitCount 5) horner_X5 horner_Y5)
  /\ hornerFit horner_X5 horner_Y5
    <> olsIntercept (lastPoints (specFitCount 5) horner_X5 horner_Y5).
Proof.
  split; intros H.
  - apply (f_equal count) in H. vm_compute in H. discriminate H.
  - apply (f_equal (fun x => (x =? 17)%float)) in H. vm_compute in H. discriminate H.
Qed.

(** C2, amended: with [N >= 5] filtered points the sums range over exactly the
    last [fitCount] points, where [fitCount] is the truncated double product
    [N * 0.3] when that is at least 3 and [N] (every point) otherwise; so
    [fitCount = N] for [5 <= N <= 9] and [fitCount = floor (3 N / 10)] for
    [10 <= N <= 100000].  The returned value is the intercept computed from
    those sums, or 0 when [|count * sumXX - sumX^2| < 1e-9]. *)
Theorem C2_horner_tail_regression (X Y : list double) :
  length X = length Y ->
  (5 <= length X)%nat ->
  let n := length X in
  let k := Z.to_nat (fitCountOf (Z.of_nat n)) in
  hornerFitSums X Y = olsSums (lastPoints k X Y)
  /\ hornerFit X Y = hornerIntercept (olsSums (lastPoints k X Y))
  /\ ((abs (double_of_int (count (olsSums (lastPoints k X Y)))
             * sumXX (olsSums (lastPoints k X Y))
             - sumX (olsSums (lastPoints k X Y)) * sumX (olsSums (lastPoints k X Y)))
        <? 1e-9)%float = false ->
      hornerFit X Y = olsIntercept (lastPoints k X Y))
  /\ ((n <= 9)%nat -> k = n)
  /\ (10 <= Z.of_nat n <= 100000 -> Z.of_nat k = 3 * Z.of_nat n / 10).
Proof.
  intros HXY Hn n k.
  assert (Hs : hornerFitSums X Y = olsSums (lastPoints k X Y)).
  { unfold hornerFitSums. apply hornerSums_lastPoints. exact HXY. }
  assert (Hf : hornerFit X Y = hornerIntercept (olsSums (lastPoints k X Y))).
  { unfold hornerFit. destruct (Nat.ltb_spec (length X) 5); [lia|].
    rewrite Hs. reflexivity. }
  repeat split.
  - exact Hs.
  - exact Hf.
  - intros Hd. rewrite Hf. unfold hornerIntercept, olsIntercept.
    rewrite Hd. reflexivity.
  - intros H9. unfold k. rewrite fitCountOf_small by lia. lia.
  - intros H10. unfold k. rewrite fitCountOf_large by lia.
    apply Z2Nat.id. apply Z.div_pos; lia.
Qed.

Lemma C2_horner_tail_regression_witness :
  hornerFit horner_X5 horner_Y5
  = hornerIntercept (olsSums (lastPoints 5 horner_X5 horner_Y5)).
Proof.
  exact (proj1 (proj2 (C2_horner_tail_regression horner_X5 horner_Y5
                         eq_refl (le_n 5)))).
Defined.


(** ** The worker monad *)

Ltac unfold_M :=
  unfold mbind, M_bind, bind, mret, M_ret, ret, emit, setHighPrecision,
         result, events in *.

Lemma calculateResiduals_run (prm : ParamMap) (mt : ModelType) (w : double)
    (t obsP obsD : list double) (hp : bool) :
  calculateResiduals prm mt w t obsP obsD hp =
  (match t with
   | [] => []
   | _ :: _ =>
       let res := calculateTheoreticalCurve hp mt prm (Some t) in
       let count := Nat.min (length obsP) (length (get1 res)) in
       let dCount := Nat.min (Nat.min (length obsD) (length (get2 res))) count in
       map (logResidual obsP (get1 res) w) (seq 0 count)
       ++ map (logResidual obsD (get2 res) (1.0 - w)%float) (seq 0 dCount)
   end,
   hp,
   match t with [] => [] | _ :: _ => [EvEvaluate prm (Some t)] end).
Proof.
  unfold calculateResiduals, evaluate. destruct t; unfold_M; reflexivity.
Qed.

(** ** C6: length of the residual vector *)

(** C6, amended: with no derivative observations (and any weight, [w = 1]
    included) the residual vector has as many entries as the shorter of the
    pressure-difference samples and the evaluator's pressure curve when the
    time grid is not empty, and none when it is empty; so its length is the
    number of pressure-difference samples whenever the evaluator returns at
    least that many values on a non-empty grid. *)
Theorem C6_residual_length (prm : ParamMap) (mt : ModelType) (w : double)
    (t obsP : list double) (hp : bool) :
  let r := result (calculateResiduals prm mt w t obsP [] hp) in
  let pCal := get1 (calculateTheoreticalCurve hp mt prm (Some t)) in
  (t = [] -> length r = 0%nat)
  /\ (t <> [] -> length r = Nat.min (length obsP) (length pCal))
  /\ (t <> [] -> (length obsP <= length pCal)%nat -> length r = length obsP).
Proof.
  intros r pCal. subst r pCal. rewrite calculateResiduals_run. unfold result. simpl fst.
  destruct t as [|t0 t']; repeat split; intros; try congruence; try reflexivity.
  - cbv zeta. rewrite length_app, !length_map, !length_seq. simpl. lia.
  - cbv zeta. rewrite length_app, !length_map, !length_seq. simpl. lia.
Qed.



Lemma mapM_run {A B : Type} (f : A -> M B) (l : list A) (hp : bool) :
  (forall x hp', snd (fst (f x hp')) = hp') ->
  mapM f l hp =
  (map (fun x => result (f x hp)) l, hp, concat (map (fun x => events (f x hp)) l)).
Proof.
  intros Hf. induction l as [|x l IH]; [reflexivity|].
  cbn [mapM map concat]. unfold mbind, M_bind, bind.
  specialize (Hf x hp). unfold result, events.
  destruct (f x hp) as [[y hp1] e1]. simpl in Hf. subst hp1.
  rewrite IH. unfold_M. simpl. rewrite app_nil_r. reflexivity.
Qed.

Lemma nth_map_seq {B : Type} (f : nat -> B) (n i : nat) (dflt : B) :
  (i < n)%nat -> nth i (map f (seq 0 n)) dflt = f i.
Proof.
  intros Hi. rewrite (nth_indep _ dflt (f 0%nat)) by (rewrite length_map, length_seq; lia).
  rewrite (map_nth f (seq 0 n) 0%nat i). rewrite seq_nth by lia. reflexivity.
Qed.

(** ** C5 and C10: one Jacobian column *)

Section Column.
Variables (prm : ParamMap) (baseResiduals : list double) (fitIndices : list nat).
Variables (mt : ModelType) (currentFitParams : list FitParameter) (w : double).
Variables (t obsP obsD : list double) (j : nat) (hp : bool).

Let nRes := length baseResiduals.
Let pName := FitParameter.name (nth (nth j fitIndices 0%nat) currentFitParams defaultFitParameter).
Let v := get prm pName.
Let pPlus := perturbed prm pName true.
Let pMinus := perturbed prm pName false.
Let rPlus := result (calculateResiduals pPlus mt w t obsP obsD hp).
Let rMinus := result (calculateResiduals pMinus mt w t obsP obsD hp).

Lemma computeColumn_run :
  computeColumn prm baseResiduals fitIndices mt currentFitParams w t obsP obsD j hp =
  (if (length rPlus =? nRes)%nat && (length rMinus =? nRes)%nat
   then map (fun i => ((at_ rPlus i - at_ rMinus i) / (2.0 * stepSize prm pName))%float)
            (seq 0 nRes)
   else repeat 0%float nRes,
   hp,
   events (calculateResiduals pPlus mt w t obsP obsD hp)
   ++ events (calculateResiduals pMinus mt w t obsP obsD hp) ++ []).
Proof.
  unfold computeColumn. subst rPlus rMinus pPlus pMinus pName nRes.
  unfold mbind, M_bind, bind.
  rewrite calculateResiduals_run. cbv beta iota zeta.
  rewrite !calculateResiduals_run. unfold_M. reflexivity.
Qed.

Lemma computeJacobian_entry (i : nat) :
  (i < nRes)%nat -> (j < length fitIndices)%nat ->
  let col := result (computeColumn prm baseResiduals fitIndices mt currentFitParams w
                       t obsP obsD j hp) in
  at2 (result (computeJacobian prm baseResiduals fitIndices mt currentFitParams w
                 t obsP obsD hp)) i j
  = if (i <? length col)%nat then at_ col i else 0%float.
Proof.
  intros Hi Hj col. unfold computeJacobian, mbind, M_bind, bind.
  rewrite mapM_run.
  2:{ intros x hp'. unfold computeColumn, mbind, M_bind, bind.
      rewrite calculateResiduals_run. cbv beta iota zeta.
      rewrite calculateResiduals_run. reflexivity. }
  unfold_M. simpl fst. unfold at2, at_ at 1.
  fold nRes. rewrite (nth_map_seq _ nRes i) by exact Hi.
  rewrite (nth_map_seq _ (length fitIndices) j) by exact Hj.
  rewrite (nth_map_seq _ (length fitIndices) j) by exact Hj.
  reflexivity.
Qed.

(** C10: when either perturbed residual vector has a length other than the
    base residual count, every entry of the column is zero, in the column the
    worker returns and in the Jacobian (nothing is cut to a common prefix). *)
Theorem C10_mismatched_column_is_zero :
  length rPlus <> nRes \/ length rMinus <> nRes ->
  result (computeColumn prm baseResiduals fitIndices mt currentFitParams w
            t obsP obsD j hp) = repeat 0%float nRes
  /\ (forall i, (i < nRes)%nat -> (j < length fitIndices)%nat ->
        at2 (result (computeJacobian prm baseResiduals fitIndices mt currentFitParams w
                       t obsP obsD hp)) i j = 0%float).
Proof.
  intros Hne.
  assert (Hcol : result (computeColumn prm baseResiduals fitIndices mt currentFitParams w
                           t obsP obsD j hp) = repeat 0%float nRes).
  { rewrite computeColumn_run. unfold result. simpl fst.
    destruct (Nat.eqb_spec (length rPlus) nRes) as [E1|N1];
      destruct (Nat.eqb_spec (length rMinus) nRes) as [E2|N2];
      simpl; try reflexivity.
    destruct Hne; contradiction. }
  split; [exact Hcol|].
  intros i Hi Hj. rewrite (computeJacobian_entry i Hi Hj). cbv zeta. rewrite Hcol.
  rewrite repeat_length. destruct (Nat.ltb_spec i nRes); [|reflexivity].
  unfold at_. apply nth_repeat.
Qed.

(** C5, amended: the column of parameter [p] with current value [v].  With
    [is_log = (v > 1e-12 and p not in {S, nf})] the perturbed values are
    [10^(log10 v +- 0.01)] in log mode and [v +- 1e-4] in linear mode; [LfD]
    is recomputed on a perturbed map exactly when [p] is [L] or [Lf] and that
    map holds [L] and [Lf] with [L > 1e-9]; every other entry of the
    perturbed maps is the one of the current map, so no [kf > km] or
    [omega1 > omega2] projection is applied.  The column the worker returns,
    and with it column [j] of the Jacobian, is [(r(v+) - r(v-)) / (2 h)] with
    [h = 0.01] respectively [1e-4] when both perturbed residual vectors have
    the length of the base residual vector, and zero throughout otherwise. *)
Theorem C5_jacobian_column :
  let is_log := (1e-12 <? v)%float && negb (String.eqb pName "S")
                && negb (String.eqb pName "nf") in
  let h := if is_log then 0.01%float else 1e-4%float in
  let vPlus := if is_log then pow 10.0 (log10 v + 0.01)%float else (v + 1e-4)%float in
  let vMinus := if is_log then pow 10.0 (log10 v - 0.01)%float else (v - 1e-4)%float in
  let recomputes (m : ParamMap) :=
    (String.eqb pName "L" || String.eqb pName "Lf")
    && (contains m "L" && contains m "Lf" && (1e-9 <? get m "L")%float) in
  let withLfD (m : ParamMap) :=
    if recomputes m then <["LfD" := (get m "Lf" / get m "L")%float]> m else m in
  pPlus = withLfD (<[pName := vPlus]> prm)
  /\ pMinus = withLfD (<[pName := vMinus]> prm)
  /\ pPlus !! pName = Some vPlus
  /\ pMinus !! pName = Some vMinus
  /\ (forall k, k <> pName -> k <> "LfD" ->
        pPlus !! k = prm !! k /\ pMinus !! k = prm !! k)
  /\ result (computeColumn prm baseResiduals fitIndices mt currentFitParams w
               t obsP obsD j hp)
     = (if (length rPlus =? nRes)%nat && (length rMinus =? nRes)%nat
        then map (fun i => ((at_ rPlus i - at_ rMinus i) / (2.0 * h))%float) (seq 0 nRes)
        else repeat 0%float nRes)
  /\ (forall i, (i < nRes)%nat -> (j < length fitIndices)%nat ->
        at2 (result (computeJacobian prm baseResiduals fitIndices mt currentFitParams w
                       t obsP obsD hp)) i j
        = if (length rPlus =? nRes)%nat && (length rMinus =? nRes)%nat
          then ((at_ rPlus i - at_ rMinus i) / (2.0 * h))%float
          else 0%float).
Proof.
  intros is_log h vPlus vMinus recomputes withLfD.
  assert (Hcol : result (computeColumn prm baseResiduals fitIndices mt currentFitParams w
                           t obsP obsD j hp)
                 = (if (length rPlus =? nRes)%nat && (length rMinus =? nRes)%nat
                    then map (fun i => ((at_ rPlus i - at_ rMinus i) / (2.0 * h))%float)
                             (seq 0 nRes)
                    else repeat 0%float nRes)).
  { rewrite computeColumn_run. unfold result. simpl fst.
    subst h is_log. unfold stepSize, isLogParam. fold v. reflexivity. }
  assert (HP : pPlus = withLfD (<[pName := vPlus]> prm)).
  { subst pPlus withLfD recomputes vPlus is_log. unfold perturbed, stepSize, isLogParam, updateDeps.
    fold v. destruct (_ && _ && negb (String.eqb pName "nf"));
      destruct (String.eqb pName "L" || String.eqb pName "Lf"); simpl; reflexivity. }
  assert (HM : pMinus = withLfD (<[pName := vMinus]> prm)).
  { subst pMinus withLfD recomputes vMinus is_log. unfold perturbed, stepSize, isLogParam, updateDeps.
    fold v. destruct (_ && _ && negb (String.eqb pName "nf"));
      destruct (String.eqb pName "L" || String.eqb pName "Lf"); simpl; reflexivity. }
  assert (Hname : forall m, recomputes m = true -> pName <> "LfD").
  { intros m Hr ->. subst recomputes. simpl in Hr. discriminate Hr. }
  assert (Hat : forall m x, m !! pName = Some x -> withLfD m !! pName = Some x).
  { intros m x Hx. subst withLfD. cbv beta. destruct (recomputes m) eqn:Hr; [|exact Hx].
    rewrite lookup_insert_ne; [exact Hx|]. intros E. apply (Hname m Hr). symmetry. exact E. }
  assert (Hoth : forall m k, k <> "LfD" -> withLfD m !! k = m !! k).
  { intros m k Hk. subst withLfD. cbv beta. destruct (recomputes m); [|reflexivity].
    apply lookup_insert_ne. congruence. }
  repeat split.
  - exact HP.
  - exact HM.
  - rewrite HP. apply Hat. apply lookup_insert_eq.
  - rewrite HM. apply Hat. apply lookup_insert_eq.
  - rewrite HP, Hoth by assumption. apply lookup_insert_ne. congruence.
  - rewrite HM, Hoth by assumption. apply lookup_insert_ne. congruence.
  - exact Hcol.
  - intros i Hi Hj. rewrite (computeJacobian_entry i Hi Hj). cbv zeta. rewrite Hcol.
    destruct ((length rPlus =? nRes)%nat && (length rMinus =? nRes)%nat).
    + rewrite length_map, length_seq. destruct (Nat.ltb_spec i nRes); [|lia].
      unfold at_ at 1.
      apply (nth_map_seq (fun a => ((at_ rPlus a - at_ rMinus a) / (2.0 * h))%float)
               nRes i 0%float Hi).
    + rewrite repeat_length. destruct (Nat.ltb_spec i nRes); [|lia].
      unfold at_. apply nth_repeat.
Qed.

End Column.


(** ** C9: one try of the damping search *)

Lemma at_lookup (l : list double) (i : nat) : at_ l i = default 0%float (l !! i).
Proof. unfold at_. apply nth_lookup. Qed.

Lemma square_row (n : nat) (A : list (list double)) (i : nat) :
  square n A -> (i < n)%nat -> length (nth i A []) = n.
Proof.
  intros [HA HF] Hi. rewrite Forall_forall in HF. apply HF.
  apply list_elem_of_In. apply nth_In. lia.
Qed.

Lemma addToDiagonal_square (lam : double) (H A : list (list double)) (n i : nat) :
  square n A -> square n (addToDiagonal lam H A i).
Proof.
  intros HA. pose proof HA as [HL HF]. unfold addToDiagonal.
  destruct (Nat.lt_ge_cases i n) as [Hi|Hi].
  - split.
    + rewrite length_insert. exact HL.
    + apply Forall_insert; [exact HF|]. rewrite length_insert.
      apply (square_row n A i HA Hi).
  - rewrite list_insert_ge by lia. exact HA.
Qed.

Lemma at2_addToDiagonal (lam : double) (H A : list (list double)) (n i a b : nat) :
  square n A -> (i < n)%nat ->
  at2 (addToDiagonal lam H A i) a b =
  if (a =? i)%nat && (b =? i)%nat
  then (at2 A i i + lam * (1.0 + abs (at2 H i i)))%float
  else at2 A a b.
Proof.
  intros HA Hi. pose proof (square_row n A i HA Hi) as Hrow. destruct HA as [HL _].
  unfold addToDiagonal, at2 at 1. rewrite at_lookup.
  destruct (Nat.eqb_spec a i) as [->|Hai].
  - rewrite nth_lookup, list_lookup_insert_eq by lia. simpl default.
    destruct (Nat.eqb_spec b i) as [->|Hbi]; simpl.
    + rewrite list_lookup_insert_eq by lia. reflexivity.
    + rewrite list_lookup_insert_ne by congruence.
      unfold at2. rewrite at_lookup. reflexivity.
  - simpl. rewrite nth_lookup, list_lookup_insert_ne by congruence.
    unfold at2. rewrite at_lookup, nth_lookup. reflexivity.
Qed.

Lemma dampedHessian_prefix (lam : double) (H : list (list double)) (n k : nat) :
  square n H -> (k <= n)%nat ->
  square n (fold_left (addToDiagonal lam H) (seq 0 k) H)
  /\ forall a b,
       at2 (fold_left (addToDiagonal lam H) (seq 0 k) H) a b =
       if (a =? b)%nat && (a <? k)%nat
       then (at2 H a a + lam * (1.0 + abs (at2 H a a)))%float
       else at2 H a b.
Proof.
  intros HH. induction k as [|k IH]; intros Hk.
  - split; [exact HH|]. intros a b. simpl. rewrite andb_false_r. reflexivity.
  - destruct IH as [IHs IHe]; [lia|]. rewrite seq_S, fold_left_app. simpl fold_left.
    split; [apply addToDiagonal_square; exact IHs|].
    intros a b. rewrite (at2_addToDiagonal lam H _ n k a b IHs) by lia.
    rewrite !IHe.
    destruct (Nat.eqb_spec a k) as [->|Hak]; destruct (Nat.eqb_spec b k) as [->|Hbk]; simpl.
    + rewrite Nat.eqb_refl, Nat.ltb_irrefl. simpl.
      destruct (Nat.ltb_spec k (S k)); [reflexivity|lia].
    + destruct (Nat.eqb_spec k b); [congruence|reflexivity].
    + destruct (Nat.eqb_spec a k); [congruence|reflexivity].
    + destruct (Nat.eqb_spec a b) as [->|Hab]; simpl; [|reflexivity].
      destruct (Nat.ltb_spec b k); destruct (Nat.ltb_spec b (S k)); try reflexivity; lia.
Qed.

Lemma dampedHessian_entry (lam : double) (H : list (list double)) (n i j : nat) :
  square n H -> (i < n)%nat ->
  at2 (dampedHessian lam H n) i j =
  if (i =? j)%nat then (at2 H i i + lam * (1.0 + abs (at2 H i i)))%float
  else at2 H i j.
Proof.
  intros HH Hi. unfold dampedHessian.
  destruct (dampedHessian_prefix lam H n n HH (le_n n)) as [_ He].
  rewrite He. destruct (Nat.ltb_spec i n); [|lia]. rewrite andb_true_r. reflexivity.
Qed.

Lemma hessian_square (J : list (list double)) (nRes n : nat) : square n (hessian J nRes n).
Proof.
  unfold hessian, square. rewrite length_map, length_seq. split; [reflexivity|].
  apply Forall_forall. intros row Hrow. apply list_elem_of_In, in_map_iff in Hrow.
  destruct Hrow as [i [<- _]]. rewrite length_map, length_seq. reflexivity.
Qed.

Lemma solveLinearSystem_run (A : list (list double)) (b : list double) (hp : bool) :
  solveLinearSystem A b hp =
  let n := length b in
  let matA := map (fun i => map (fun j => at2 A i j) (seq 0 n)) (seq 0 n) in
  let vecB := map (fun i => at_ b i) (seq 0 n) in
  (match n with O => [] | S _ => map (fun i => at_ (ldlt_solve matA vecB) i) (seq 0 n) end,
   hp,
   match n with O => [] | S _ => [EvSolve matA vecB] end).
Proof.
  unfold solveLinearSystem. destruct (length b); unfold_M; reflexivity.
Qed.

Section Trial.
Variables (s : Session ModelType) (H : list (list double)) (g : list double).
Variables (nRes : nat) (st : LMState) (hp : bool).

Let nParams := length (freeIndices (params s)).
Let H_lm := dampedHessian (lambda st) H nParams.
Let negG := map (fun i => (- at_ g i)%float) (seq 0 nParams).
Let delta := result (solveLinearSystem H_lm negG hp).
Let trialMap :=
  projectTrial (trialParamMap (params s) (freeIndices (params s)) (currentParamMap st) delta).
Let newRes :=
  result (calculateResiduals trialMap (modelType s) (weight s) (fitT s) (fitP s) (fitD s) hp).
Let newSSE := calculateSumSquaredError newRes.

Lemma buildTrial_run :
  buildTrial s H g st hp =
  (trialMap, newRes, newSSE, hp,
   events (solveLinearSystem H_lm negG hp)
   ++ events (calculateResiduals trialMap (modelType s) (weight s)
                (fitT s) (fitP s) (fitD s) hp) ++ []).
Proof.
  unfold buildTrial, mbind, M_bind, bind.
  subst newSSE newRes trialMap delta. fold nParams. fold H_lm. fold negG.
  rewrite solveLinearSystem_run. cbv beta iota zeta.
  rewrite calculateResiduals_run. cbv beta iota zeta.
  unfold_M. rewrite ?solveLinearSystem_run, ?calculateResiduals_run. reflexivity.
Qed.

Lemma tryStep_run :
  tryStep s H g nRes st hp =
  if (newSSE <? currentSSE st)%float then
    (true, mkLMState (lambda st / 10.0) newSSE trialMap newRes, hp,
     events (buildTrial s H g st hp)
     ++ [EvEvaluate trialMap None;
         SigIterationUpdated (newSSE / double_of_int (Z.of_nat nRes)) trialMap
           (calculateTheoreticalCurve hp (modelType s) trialMap None)])
  else
    (false, mkLMState (lambda st * 10.0) (currentSSE st) (currentParamMap st) (residuals st),
     hp, events (buildTrial s H g st hp) ++ []).
Proof.
  unfold tryStep, mbind, M_bind, bind. rewrite buildTrial_run. cbv beta iota zeta.
  destruct (newSSE <? currentSSE st)%float; unfold evaluate; unfold_M; reflexivity.
Qed.

Lemma buildTrial_events_signals :
  List.filter isIterationUpdated (events (buildTrial s H g st hp)) = []
  /\ (length (List.filter isSolve (events (buildTrial s H g st hp))) <= 1)%nat.
Proof.
  rewrite buildTrial_run. unfold events at 1 4. simpl snd.
  rewrite solveLinearSystem_run, calculateResiduals_run. unfold events. simpl snd.
  destruct (length negG); destruct (fitT s); simpl; auto.
Qed.

Lemma tryStep_filter_solve :
  List.filter isSolve (events (tryStep s H g nRes st hp))
  = events (solveLinearSystem H_lm negG hp).
Proof.
  rewrite tryStep_run, buildTrial_run.
  assert (Hs : List.filter isSolve (events (solveLinearSystem H_lm negG hp))
               = events (solveLinearSystem H_lm negG hp)).
  { rewrite solveLinearSystem_run. cbv zeta. unfold events. simpl snd.
    destruct (length negG); reflexivity. }
  assert (Hr : List.filter isSolve
                 (events (calculateResiduals trialMap (modelType s) (weight s)
                            (fitT s) (fitP s) (fitD s) hp)) = []).
  { rewrite calculateResiduals_run. unfold events. simpl snd.
    destruct (fitT s); reflexivity. }
  unfold events in *.
  destruct (_ <? _)%float; simpl snd;
    rewrite !List.filter_app, Hs, Hr; simpl; rewrite ?app_nil_r; reflexivity.
Qed.

(** C9: a rejected trial (its sum of squares is not strictly below the
    current one) multiplies [lambda] by 10 and changes nothing else: the
    parameter map, the residual vector and the current sum of squares stay,
    and the trial emits no signal. *)
Theorem C9_rejected_trial_changes_only_lambda :
  (snd (result (buildTrial s H g st hp)) <? currentSSE st)%float = false ->
  let r := tryStep s H g nRes st hp in
  fst (result r) = false
  /\ lambda (snd (result r)) = (lambda st * 10.0)%float
  /\ currentParamMap (snd (result r)) = currentParamMap st
  /\ residuals (snd (result r)) = residuals st
  /\ currentSSE (snd (result r)) = currentSSE st
  /\ List.filter isIterationUpdated (events r) = []
  /\ List.filter isProgress (events r) = []
  /\ List.filter isFitFinished (events r) = [].
Proof.
  intros Hrej r. subst r. rewrite tryStep_run.
  rewrite buildTrial_run in Hrej. unfold result in Hrej. simpl in Hrej.
  rewrite Hrej. unfold result, events. simpl.
  repeat split; try reflexivity;
    rewrite buildTrial_run; simpl snd;
    rewrite solveLinearSystem_run, calculateResiduals_run; simpl snd;
    destruct (length negG); destruct (fitT s); reflexivity.
Qed.

End Trial.


Lemma tryStep_solves (s : Session ModelType) (H : list (list double)) (g : list double)
    (nRes : nat) (st : LMState) (hp : bool) :
  (length (List.filter isSolve (events (tryStep s H g nRes st hp))) <= 1)%nat
  /\ snd (fst (tryStep s H g nRes st hp)) = hp.
Proof.
  rewrite tryStep_run.
  destruct (buildTrial_events_signals s H g st hp) as [_ Hs].
  destruct (_ <? _)%float; unfold events in *; simpl; rewrite List.filter_app, length_app;
    simpl; split; try reflexivity; lia.
Qed.

Lemma innerSearch_solves (tries : nat) (s : Session ModelType) (H : list (list double))
    (g : list double) (nRes : nat) (st : LMState) (hp : bool) :
  (length (List.filter isSolve (events (innerSearch tries s H g nRes st hp))) <= tries)%nat
  /\ snd (fst (innerSearch tries s H g nRes st hp)) = hp.
Proof.
  revert st. induction tries as [|tries IH]; intros st.
  - simpl. split; [apply Nat.le_refl | reflexivity].
  - cbn [innerSearch]. unfold mbind, M_bind, bind.
    destruct (tryStep_solves s H g nRes st hp) as [H1 H2].
    destruct (tryStep s H g nRes st hp) as [[[acc st'] hp1] e1].
    simpl in H2. subst hp1. unfold events in H1. simpl in H1.
    destruct acc.
    + unfold_M. simpl. rewrite app_nil_r. split; [lia | reflexivity].
    + destruct (IH st') as [H3 H4].
      destruct (innerSearch tries s H g nRes st' hp) as [[r2 hp2] e2].
      unfold events in *. simpl in *. rewrite List.filter_app, length_app.
      split; [lia | exact H4].
Qed.

(** ** C7: the [finished] signal *)

(** C7 fails on the path without free parameters: the worker emits
    [sigFitFinished] itself (line 172) and the watcher forwards its own
    [finished] to the same signal when the worker returns (line 21), so the
    signal fires twice.  No evaluator call and no iteration snapshot occur. *)
Theorem C7_finished_twice_without_free_parameters (self : FittingCore) (mt : ModelType)
    (prms : list FitParameter) (w : double) (hp : bool) :
  freeIndices prms = [] ->
  events (startFit false self mt prms w hp)
  = [EvSetHighPrecision false; SigFitFinished; SigFitFinished].
Proof.
  intros Hfree. unfold startFit, runOptimizationTask, runLevenbergMarquardtOptimization.
  rewrite Hfree. reflexivity.
Qed.


(** ** The order of doubles *)

Lemma SFcompare_rank (f1 f2 : spec_float) :
  f1 <> S754_nan -> f2 <> S754_nan ->
  exists c, SFcompare f1 f2 = Some c
    /\ (c = Lt <-> lex_lt (sf_rank f1) (sf_rank f2))
    /\ (c = Gt <-> lex_lt (sf_rank f2) (sf_rank f1))
    /\ (c = Eq <-> sf_rank f1 = sf_rank f2).
Proof.
  intros H1 H2. unfold lex_lt.
  destruct f1 as [s1|s1| |s1 m1 e1]; destruct f2 as [s2|s2| |s2 m2 e2];
    try contradiction;
    try (destruct s1); try (destruct s2); simpl;
    try (eexists; split; [reflexivity|];
         repeat split; intros; try discriminate; try lia; try reflexivity;
         try (match goal with E : (_, _, _) = (_, _, _) |- _ => inversion E end); fail).
  - eexists; split; [reflexivity|].
    change (PosDef.Pos.compare_cont Eq m1 m2) with (Pos.compare m1 m2).
    destruct (Z.compare_spec e1 e2) as [E|E|E]; destruct (Pos.compare_spec m1 m2) as [F|F|F];
      simpl; subst; repeat split; intros; try discriminate; try lia; try reflexivity;
      try (match goal with E : (_, _, _) = (_, _, _) |- _ => inversion E; lia end).
  - eexists; split; [reflexivity|].
    change (PosDef.Pos.compare_cont Eq m1 m2) with (Pos.compare m1 m2).
    destruct (Z.compare_spec e1 e2) as [E|E|E]; destruct (Pos.compare_spec m1 m2) as [F|F|F];
      simpl; subst; repeat split; intros; try discriminate; try lia; try reflexivity;
      try (match goal with E : (_, _, _) = (_, _, _) |- _ => inversion E; lia end).
Qed.

Lemma is_nan_Prim2SF (x : double) : is_nan x = false <-> Prim2SF x <> S754_nan.
Proof.
  split.
  - intros Hn E. unfold is_nan in Hn. rewrite FloatAxioms.eqb_spec, E in Hn.
    discriminate Hn.
  - intros Hne. destruct (is_nan x) eqn:E; [|reflexivity].
    exfalso. apply Hne. unfold Prim2SF. rewrite E. reflexivity.
Qed.

Lemma is_finite_Prim2SF (x : double) :
  is_finite x = true ->
  (exists sg, Prim2SF x = S754_zero sg) \/ (exists sg m e, Prim2SF x = S754_finite sg m e).
Proof.
  unfold is_finite. intros Hf. apply negb_true_iff, orb_false_iff in Hf as [Hn Hi].
  apply is_nan_Prim2SF in Hn. unfold is_infinity in Hi.
  rewrite FloatAxioms.eqb_spec, abs_spec in Hi.
  destruct (Prim2SF x) as [sg|sg| |sg m e]; eauto.
  - exfalso. vm_compute in Hi. discriminate Hi.
  - contradiction.
Qed.

Lemma is_finite_not_nan (x : double) : is_finite x = true -> is_nan x = false.
Proof.
  unfold is_finite. intros Hf. apply negb_true_iff, orb_false_iff in Hf as [Hn _]. exact Hn.
Qed.

Lemma ltb_rank (x y : double) :
  is_nan x = false -> is_nan y = false ->
  ((x <? y)%float = true <-> lex_lt (rank x) (rank y)).
Proof.
  intros Hx Hy. apply is_nan_Prim2SF in Hx, Hy.
  destruct (SFcompare_rank _ _ Hx Hy) as [c [Hc [HLt [HGt HEq]]]].
  rewrite ltb_spec. unfold SFltb, rank. rewrite Hc.
  destruct c; split; intros H; try discriminate; try reflexivity;
    try (apply HLt; reflexivity).
  - apply HLt in H. discriminate H.
  - apply HLt in H. discriminate H.
Qed.

Lemma leb_rank (x y : double) :
  is_nan x = false -> is_nan y = false ->
  ((x <=? y)%float = true <-> lex_le (rank x) (rank y)).
Proof.
  intros Hx Hy. apply is_nan_Prim2SF in Hx, Hy.
  destruct (SFcompare_rank _ _ Hx Hy) as [c [Hc [HLt [HGt HEq]]]].
  rewrite leb_spec. unfold SFleb, rank, lex_le. rewrite Hc.
  destruct c; split; intros H; try discriminate; try reflexivity.
  - right. apply HEq. reflexivity.
  - left. apply HLt. reflexivity.
  - exfalso. destruct H as [H|H].
    + apply HLt in H. discriminate H.
    + apply HEq in H. discriminate H.
Qed.

Lemma leb_not_nan (x y : double) :
  (x <=? y)%float = true -> is_nan x = false /\ is_nan y = false.
Proof.
  rewrite leb_spec. unfold SFleb. intros H. split; apply is_nan_Prim2SF; intros E;
    rewrite E in H; simpl in H.
  - discriminate H.
  - destruct (Prim2SF x); discriminate H.
Qed.

Lemma ltb_leb (x y : double) : (x <? y)%float = true -> (x <=? y)%float = true.
Proof.
  rewrite ltb_spec, leb_spec. unfold SFltb, SFleb.
  destruct (SFcompare (Prim2SF x) (Prim2SF y)) as [[| |]|]; intros H; try discriminate H; reflexivity.
Qed.

Lemma leb_refl (x : double) : is_nan x = false -> (x <=? x)%float = true.
Proof. intros Hx. apply leb_rank; [exact Hx | exact Hx | right; reflexivity]. Qed.

Lemma lex_total (a b : Z * Z * Z) : lex_lt a b \/ lex_le b a.
Proof.
  destruct a as [[a1 a2] a3], b as [[b1 b2] b3]. unfold lex_le, lex_lt. simpl.
  destruct (Z.lt_trichotomy a1 b1) as [?|[?|?]];
    destruct (Z.lt_trichotomy a2 b2) as [?|[?|?]];
    destruct (Z.lt_trichotomy a3 b3) as [?|[?|?]]; subst; auto; try lia;
    right; left; lia.
Qed.

Lemma lex_le_trans (a b c : Z * Z * Z) : lex_le a b -> lex_le b c -> lex_le a c.
Proof.
  destruct a as [[a1 a2] a3], b as [[b1 b2] b3], c as [[c1 c2] c3].
  unfold lex_le, lex_lt. simpl. intros [H1|H1] [H2|H2];
    try (inversion H1; subst); try (inversion H2; subst); auto; left; lia.
Qed.

Lemma lex_lt_irrefl_le (a b : Z * Z * Z) : lex_lt a b -> lex_le b a -> False.
Proof.
  destruct a as [[a1 a2] a3], b as [[b1 b2] b3].
  unfold lex_le, lex_lt. simpl. intros H1 [H2|H2]; [lia|]. inversion H2; subst. lia.
Qed.

Lemma ltb_false_leb (x y : double) :
  is_nan x = false -> is_nan y = false ->
  (x <? y)%float = false -> (y <=? x)%float = true.
Proof.
  intros Hx Hy Hlt. apply leb_rank; [exact Hy | exact Hx |].
  destruct (lex_total (rank x) (rank y)) as [H|H]; [|exact H].
  apply (ltb_rank x y Hx Hy) in H. congruence.
Qed.

Lemma leb_trans (x y z : double) :
  (x <=? y)%float = true -> (y <=? z)%float = true -> (x <=? z)%float = true.
Proof.
  intros H1 H2.
  destruct (leb_not_nan _ _ H1) as [Hx Hy]. destruct (leb_not_nan _ _ H2) as [_ Hz].
  apply leb_rank; [exact Hx | exact Hz |].
  apply (lex_le_trans _ (rank y)); apply leb_rank; assumption.
Qed.

(** Two finite doubles that compare equal are less than [1e-9] apart. *)
Lemma equal_within_tolerance (x y : double) :
  is_finite x = true -> is_finite y = true ->
  (x <=? y)%float = true -> (x <? y)%float = false ->
  (abs (x - y) <? 1e-9)%float = true.
Proof.
  intros Fx Fy Hle Hlt.
  assert (Hc : SFcompare (Prim2SF x) (Prim2SF y) = Some Eq).
  { rewrite leb_spec in Hle. rewrite ltb_spec in Hlt. unfold SFleb, SFltb in *.
    destruct (SFcompare (Prim2SF x) (Prim2SF y)) as [[| |]|]; try discriminate; reflexivity. }
  assert (Hz : exists sg, Prim2SF (x - y) = S754_zero sg).
  { rewrite sub_spec. unfold SF64sub.
    destruct (is_finite_Prim2SF x Fx) as [[s1 E1]|[s1 [m1 [e1 E1]]]];
      destruct (is_finite_Prim2SF y Fy) as [[s2 E2]|[s2 [m2 [e2 E2]]]];
      rewrite E1, E2 in *; simpl in Hc.
    - destruct s1, s2; simpl; eauto.
    - destruct s2; discriminate Hc.
    - destruct s1; discriminate Hc.
    - assert (s1 = s2 /\ e1 = e2 /\ m1 = m2) as [-> [-> ->]].
      { change (PosDef.Pos.compare_cont Eq m1 m2) with (Pos.compare m1 m2) in Hc.
        destruct s1, s2; try discriminate Hc;
          destruct (Z.compare_spec e1 e2); try discriminate Hc;
          destruct (Pos.compare_spec m1 m2); try discriminate Hc; subst; auto. }
      unfold SFsub. cbv zeta. rewrite Z.sub_diag. simpl. eauto. }
  destruct Hz as [sg Hz].
  rewrite ltb_spec, abs_spec, Hz. vm_compute. reflexivity.
Qed.



(** ** C3: the resampler's output *)

Lemma at_finite (l : list double) (i : nat) :
  forallb is_finite l = true -> is_finite (at_ l i) = true.
Proof.
  intros Hl. unfold at_. destruct (nth_in_or_default i l 0%float) as [Hin | Hd].
  - rewrite forallb_forall in Hl. apply Hl. exact Hin.
  - rewrite Hd. reflexivity.
Qed.

Lemma pickPoint_finite (srcT srcP srcD : list double) (i : nat) :
  forallb is_finite srcT = true -> finite_t (pickPoint srcT srcP srcD i).
Proof. intros Hl. unfold finite_t, pickPoint. simpl. apply at_finite. exact Hl. Qed.

Lemma fold_left_invariant {A B : Type} (P : A -> Prop) (f : A -> B -> A) (l : list B) (a : A) :
  P a -> (forall a b, P a -> P (f a b)) -> P (fold_left f l a).
Proof.
  intros Ha Hf. revert a Ha. induction l as [|b l IH]; intros a Ha; simpl; auto.
Qed.

Lemma defaultPoints_finite (n : nat) (srcT srcP srcD : list double) :
  forallb is_finite srcT = true ->
  Forall finite_t (defaultPoints n srcT srcP srcD).
Proof.
  intros Hl. unfold defaultPoints.
  apply (fold_left_invariant (fun st => Forall finite_t (snd st))).
  - constructor.
  - intros st i Hst. unfold defaultStep. simpl.
    apply Forall_app. split; [exact Hst|].
    constructor; [apply pickPoint_finite; exact Hl | constructor].
Qed.

Lemma customPoints_finite (intervals : list SamplingInterval) (srcT srcP srcD : list double) :
  forallb is_finite srcT = true ->
  Forall finite_t (customPoints intervals srcT srcP srcD).
Proof.
  intros Hl. unfold customPoints.
  apply (fold_left_invariant (Forall finite_t)); [constructor|].
  intros points interval Hp. unfold customInterval.
  destruct (_ <=? 0); [exact Hp|].
  destruct (_ || _); [exact Hp|].
  apply (fold_left_invariant (fun st => Forall finite_t (snd st))); [exact Hp|].
  intros st i Hst. unfold customStep. simpl.
  destruct (_ <? length srcT)%nat; [|exact Hst].
  apply Forall_app. split; [exact Hst|].
  constructor; [apply pickPoint_finite; exact Hl | constructor].
Qed.

Lemma insertPoint_Forall (P : DataPoint -> Prop) (x : DataPoint) (l : list DataPoint) :
  P x -> Forall P l -> Forall P (insertPoint x l).
Proof.
  intros Hx Hl. induction Hl as [|y l Hy Hl IH]; simpl.
  - constructor; [exact Hx | constructor].
  - destruct (DataPoint.lt x y); repeat constructor; assumption.
Qed.

Lemma insertPoint_sorted (x : DataPoint) (l : list DataPoint) :
  finite_t x -> Forall finite_t l ->
  StronglySorted le_t l -> StronglySorted le_t (insertPoint x l).
Proof.
  intros Hx Hf Hs. induction Hs as [|y l Hs IH Hy]; simpl.
  - constructor; constructor.
  - inversion Hf as [|? ? Hfy Hfl]; subst.
    destruct (DataPoint.lt x y) eqn:E; unfold DataPoint.lt in E.
    + constructor; [constructor; assumption|].
      assert (Hxy : le_t x y) by (apply ltb_leb; exact E).
      constructor; [exact Hxy|].
      eapply Forall_impl; [exact Hy|].
      intros z Hz. unfold le_t in *. eapply leb_trans; eassumption.
    + constructor; [apply IH; exact Hfl|].
      apply insertPoint_Forall; [|exact Hy].
      apply ltb_false_leb; [apply is_finite_not_nan; exact Hx
                           | apply is_finite_not_nan; exact Hfy | exact E].
Qed.

Lemma std_sort_sorted (l : list DataPoint) :
  Forall finite_t l ->
  StronglySorted le_t (std_sort l) /\ Forall finite_t (std_sort l).
Proof.
  intros Hl. unfold std_sort.
  assert (G : forall acc, StronglySorted le_t acc -> Forall finite_t acc ->
              StronglySorted le_t (fold_left (fun acc x => insertPoint x acc) l acc)
              /\ Forall finite_t (fold_left (fun acc x => insertPoint x acc) l acc)).
  { induction Hl as [|x l Hx Hl IH]; intros acc Hs Hf; simpl; [auto|].
    apply IH; [apply insertPoint_sorted | apply insertPoint_Forall]; assumption. }
  apply G; constructor.
Qed.

Lemma uniqueFrom_head (kept : DataPoint) (l : list DataPoint) :
  exists r, uniqueFrom kept l = kept :: r.
Proof.
  revert kept. induction l as [|x l IH]; intros kept; simpl; [eauto|].
  destruct (DataPoint.eq kept x); [apply IH | eauto].
Qed.

Lemma strictlyAscending_cons (a b : double) (l : list double) :
  strictlyAscending (a :: b :: l) =
  (a <? b)%float && negb (abs (a - b) <? 1e-9)%float && strictlyAscending (b :: l).
Proof. reflexivity. Qed.

Lemma uniqueFrom_ascending (kept : DataPoint) (l : list DataPoint) :
  Forall finite_t (kept :: l) -> StronglySorted le_t (kept :: l) ->
  strictlyAscending (map DataPoint.t (uniqueFrom kept l)) = true.
Proof.
  revert kept. induction l as [|x l IH]; intros kept Hf Hs; simpl; [reflexivity|].
  inversion Hf as [|? ? Hfk Hfl]; subst. inversion Hfl as [|? ? Hfx Hfl']; subst.
  inversion Hs as [|? ? Hs' Hk]; subst. inversion Hk as [|? ? Hkx Hkl]; subst.
  inversion Hs' as [|? ? Hs'' Hx]; subst.
  destruct (DataPoint.eq kept x) eqn:E.
  - apply IH; constructor; assumption.
  - destruct (uniqueFrom_head x l) as [r Hr].
    assert (IHx := IH x Hfl Hs'). rewrite Hr in *. simpl map in *.
    rewrite strictlyAscending_cons, IHx, andb_true_r.
    unfold DataPoint.eq in E. rewrite E. rewrite andb_true_r.
    destruct (DataPoint.t kept <? DataPoint.t x)%float eqn:Hlt; [reflexivity|].
    rewrite (equal_within_tolerance _ _ Hfk Hfx Hkx Hlt) in E. discriminate E.
Qed.

Lemma finishPoints_ascending (points : list DataPoint) :
  Forall finite_t points ->
  strictlyAscending (fst (fst (finishPoints points))) = true.
Proof.
  intros Hf. unfold finishPoints. simpl fst.
  destruct (std_sort_sorted points Hf) as [Hs Hf'].
  destruct (std_sort points) as [|x l]; [reflexivity|].
  simpl std_unique. apply uniqueFrom_ascending; assumption.
Qed.

(** C3, amended.  For an empty time vector the three outputs are empty,
    whatever the pressure and derivative vectors hold.  For a non-empty one:
    in the passthrough cases (default mode with at most 200 points, custom
    mode with no interval) the three vectors come back unchanged, whatever
    their order and duplicates included; when the resampler resamples
    (default mode with more than 200 points, or custom mode with at least one
    interval) and the input times are finite, the returned time sequence is
    strictly ascending with neighbours not within [1e-9]. *)
Theorem C3_resampler_ascending (self : FittingCore) (srcT srcP srcD : list double) :
  let out := getLogSampledData self srcT srcP srcD in
  (srcT = [] -> out = ([], [], []))
  /\ (srcT <> [] -> isPassthrough self srcT = true -> out = (srcT, srcP, srcD))
  /\ (forallb is_finite srcT = true -> isPassthrough self srcT = false ->
      strictlyAscending (fst (fst out)) = true).
Proof.
  intros out. subst out. unfold getLogSampledData, isPassthrough.
  destruct srcT as [|t0 srcT'].
  - split; [reflexivity|]. split; [congruence|]. reflexivity.
  - split; [discriminate|].
    destruct (m_isCustomSamplingEnabled self); simpl negb; cbv iota.
    + destruct (m_customIntervals self) as [|i0 rest] eqn:Ei.
      * split; [reflexivity | discriminate].
      * split; [discriminate|]. intros Hfin _.
        apply finishPoints_ascending. apply customPoints_finite. exact Hfin.
    + destruct (length (t0 :: srcT') <=? 200)%nat.
      * split; [reflexivity | discriminate].
      * split; [discriminate|]. intros Hfin _.
        apply finishPoints_ascending. apply defaultPoints_finite. exact Hfin.
Qed.


(** ** Lookups in the parameter maps *)

Lemma updateDeps_lookup (m : ParamMap) (k : string) :
  k <> "LfD" -> updateDeps m !! k = m !! k.
Proof.
  intros Hk. unfold updateDeps. destruct (_ && _ && _); [|reflexivity].
  apply lookup_insert_ne. congruence.
Qed.

Lemma projectKf_lookup (m : ParamMap) (k : string) :
  k <> "kf" -> projectKf m !! k = m !! k.
Proof.
  intros Hk. unfold projectKf. destruct (_ && _); [|reflexivity].
  destruct (_ <=? _)%float; [|reflexivity]. apply lookup_insert_ne. congruence.
Qed.

Lemma projectOmega_lookup (m : ParamMap) (k : string) :
  k <> "omega1" -> projectOmega m !! k = m !! k.
Proof.
  intros Hk. unfold projectOmega. destruct (_ && _); [|reflexivity].
  destruct (_ <=? _)%float; [|reflexivity]. apply lookup_insert_ne. congruence.
Qed.




Section Bounds.
Variable prms : list FitParameter.
Hypothesis names_distinct : List.NoDup (map FitParameter.name prms).






End Bounds.


(** ** The events of the LM loop *)

Lemma calculateResiduals_quiet (prm : ParamMap) (mt : ModelType) (w : double)
    (t obsP obsD : list double) (hp : bool) :
  forallb quiet (events (calculateResiduals prm mt w t obsP obsD hp)) = true.
Proof. rewrite calculateResiduals_run. destruct t; reflexivity. Qed.

Lemma solveLinearSystem_quiet (A : list (list double)) (b : list double) (hp : bool) :
  forallb quiet (events (solveLinearSystem A b hp)) = true.
Proof. rewrite solveLinearSystem_run. cbv zeta. destruct (length b); reflexivity. Qed.

Lemma computeJacobian_quiet (prm : ParamMap) (base : list double) (fitIndices : list nat)
    (mt : ModelType) (fps : list FitParameter) (w : double) (t obsP obsD : list double)
    (hp : bool) :
  forallb quiet (events (computeJacobian prm base fitIndices mt fps w t obsP obsD hp)) = true
  /\ snd (fst (computeJacobian prm base fitIndices mt fps w t obsP obsD hp)) = hp.
Proof.
  unfold computeJacobian, mbind, M_bind, bind. rewrite mapM_run.
  2:{ intros x hp'. rewrite computeColumn_run. reflexivity. }
  unfold_M. simpl. split; [|reflexivity]. rewrite app_nil_r.
  induction (seq 0 (length fitIndices)) as [|j l IH]; [reflexivity|].
  simpl. rewrite forallb_app, IH, andb_true_r.
  rewrite computeColumn_run. simpl. rewrite !forallb_app.
  rewrite !calculateResiduals_quiet. reflexivity.
Qed.

Lemma buildTrial_quiet (s : Session ModelType) (H : list (list double)) (g : list double)
    (st : LMState) (hp : bool) :
  forallb quiet (events (buildTrial s H g st hp)) = true.
Proof.
  rewrite buildTrial_run. unfold events at 1. simpl snd.
  rewrite !forallb_app, solveLinearSystem_quiet, calculateResiduals_quiet. reflexivity.
Qed.

Section LoopEvents.
Variable s : Session ModelType.
(** A property [Q] of events that holds of every call, of every progress
    signal, and of the snapshots whose map satisfies [okmap], itself true of
    every trial map. *)
Variable Q : Event -> bool.
Variable okmap : ParamMap -> Prop.
Hypothesis Q_quiet : forall e, quiet e = true -> Q e = true.
Hypothesis Q_progress : forall n, Q (SigProgress n) = true.
Hypothesis Q_snapshot : forall mse m c, okmap m -> Q (SigIterationUpdated mse m c) = true.
Hypothesis okmap_trial : forall current delta,
  okmap (projectTrial (trialParamMap (params s) (freeIndices (params s)) current delta)).

Lemma forallb_quiet_Q (evs : list Event) : forallb quiet evs = true -> forallb Q evs = true.
Proof.
  rewrite !forallb_forall. intros H e He. apply Q_quiet, H, He.
Qed.

Lemma tryStep_events (H : list (list double)) (g : list double) (nRes : nat)
    (st : LMState) (hp : bool) :
  okmap (currentParamMap st) ->
  let r := tryStep s H g nRes st hp in
  forallb Q (events r) = true /\ okmap (currentParamMap (snd (result r)))
  /\ snd (fst r) = hp.
Proof.
  intros Hok r. subst r. rewrite tryStep_run.
  pose proof (forallb_quiet_Q _ (buildTrial_quiet s H g st hp)) as HB.
  unfold result, events in *.
  destruct (_ <? _)%float; simpl.
  - rewrite forallb_app, HB. simpl.
    rewrite Q_quiet by reflexivity. rewrite Q_snapshot by apply okmap_trial.
    repeat split. apply okmap_trial.
  - rewrite app_nil_r, HB.
    repeat split. exact Hok.
Qed.

Lemma innerSearch_events (tries : nat) (H : list (list double)) (g : list double)
    (nRes : nat) (st : LMState) (hp : bool) :
  okmap (currentParamMap st) ->
  let r := innerSearch tries s H g nRes st hp in
  forallb Q (events r) = true /\ okmap (currentParamMap (snd (result r)))
  /\ snd (fst r) = hp.
Proof.
  revert st. induction tries as [|tries IH]; intros st Hok; cbv zeta.
  - simpl. repeat split. exact Hok.
  - cbn [innerSearch]. unfold mbind, M_bind, bind.
    destruct (tryStep_events H g nRes st hp Hok) as [H1 [H2 H3]].
    unfold result, events in *.
    destruct (tryStep s H g nRes st hp) as [[[acc st'] hp1] e1]. simpl in *. subst hp1.
    destruct acc.
    + unfold_M. simpl. rewrite app_nil_r. repeat split; assumption.
    + destruct (IH st' H2) as [H4 [H5 H6]]. unfold result, events in *.
      destruct (innerSearch tries s H g nRes st' hp) as [[r2 hp2] e2]. simpl in *.
      rewrite forallb_app, H1, H4. repeat split; assumption.
Qed.

Lemma lmIteration_events (iter : Z) (st : LMState) (hp : bool) :
  okmap (currentParamMap st) ->
  let r := lmIteration s iter st hp in
  forallb Q (events r) = true /\ okmap (currentParamMap (snd (result r)))
  /\ snd (fst r) = hp.
Proof.
  intros Hok. cbv zeta.
  destruct (lmIteration s iter st hp) as [[[acc st'] hp'] ev] eqn:E.
  unfold result, events. simpl.
  unfold lmIteration, mbind, M_bind, bind, emit in E.
  destruct (computeJacobian_quiet (currentParamMap st) (residuals st)
              (freeIndices (params s)) (modelType s) (params s) (weight s)
              (fitT s) (fitP s) (fitD s) hp) as [HJ1 HJ2].
  unfold events in HJ1.
  destruct (computeJacobian _ _ _ _ _ _ _ _ _ hp) as [[J hpJ] eJ]. simpl in HJ1, HJ2. subst hpJ.
  match type of E with
  | context [innerSearch 5 s ?H ?g ?n st hp] =>
      destruct (innerSearch_events 5 H g n st hp Hok) as [H1 [H2 H3]];
      unfold result, events in H1, H2;
      destruct (innerSearch 5 s H g n st hp) as [[[acc0 st0] hp1] e1]
  end.
  simpl in H1, H2, H3. inversion E; subst. simpl.
  rewrite Q_progress, forallb_app, (forallb_quiet_Q _ HJ1), H1.
  repeat split; assumption.
Qed.

Lemma lmLoop_events (left : nat) (iter : Z) (st : LMState) (hp : bool) :
  okmap (currentParamMap st) ->
  let r := lmLoop left s iter st hp in
  forallb Q (events r) = true /\ okmap (currentParamMap (result r))
  /\ snd (fst r) = hp.
Proof.
  revert iter st. induction left as [|left IH]; intros iter st Hok; cbv zeta.
  - simpl. repeat split. exact Hok.
  - cbn [lmLoop]. destruct (stopRequested iter); [simpl; repeat split; exact Hok|].
    destruct (converged st); [simpl; repeat split; exact Hok|].
    unfold mbind, M_bind, bind.
    destruct (lmIteration_events iter st hp Hok) as [H1 [H2 H3]].
    unfold result, events in *.
    destruct (lmIteration s iter st hp) as [[[acc st'] hp1] e1]. simpl in *. subst hp1.
    destruct (negb acc && _).
    + unfold_M. simpl. rewrite app_nil_r. repeat split; assumption.
    + destruct (IH (iter + 1) st' H2) as [H4 [H5 H6]]. unfold result, events in *.
      destruct (lmLoop left s (iter + 1) st' hp) as [[r2 hp2] e2]. simpl in *.
      rewrite forallb_app, H1, H4. repeat split; assumption.
Qed.

End LoopEvents.


Lemma forallb_cons_eq {A : Type} (f : A -> bool) (a : A) (l : list A) :
  forallb f (a :: l) = f a && forallb f l.
Proof. reflexivity. Qed.

Section RunEvents.
Variable prms : list FitParameter.
Variable Q : Event -> bool.
Variable okmap : ParamMap -> Prop.
Hypothesis Q_quiet : forall e, quiet e = true -> Q e = true.
Hypothesis Q_progress : forall n, Q (SigProgress n) = true.
Hypothesis Q_precision : forall b, Q (EvSetHighPrecision b) = true.
Hypothesis Q_snapshot : forall mse m c, okmap m -> Q (SigIterationUpdated mse m c) = true.
Hypothesis okmap_trial : forall current delta,
  okmap (projectTrial (trialParamMap prms (freeIndices prms) current delta)).
Hypothesis okmap_initial : okmap (projectInitial (initialParamMap prms)).

(** A session with at least one free parameter: the baseline snapshot, the
    loop, and the final snapshot at high precision. *)
Lemma runLM_events (self : FittingCore) (mt : ModelType) (w : double) (hp : bool) :
  freeIndices prms <> [] ->
  forallb Q (events (runLevenbergMarquardtOptimization self mt prms w hp)) = true.
Proof.
  intros Hfree. unfold runLevenbergMarquardtOptimization.
  destruct (length (freeIndices prms)) as [|n] eqn:El;
    [apply length_zero_iff_nil in El; congruence|].
  destruct (getLogSampledData self (m_obsTime self) (m_obsDeltaP self) (m_obsDerivative self))
    as [[fitT fitP] fitD].
  unfold mbind, M_bind, bind. unfold setHighPrecision at 1. cbv beta iota zeta.
  pose proof (calculateResiduals_quiet (projectInitial (initialParamMap prms))
                mt w fitT fitP fitD false) as HR.
  rewrite calculateResiduals_run in *. unfold events in HR. simpl snd in HR.
  cbv beta iota zeta. unfold evaluate at 1. cbv beta iota zeta.
  unfold emit at 1. cbv beta iota zeta.
  match goal with
  | |- context [lmLoop 50 ?sess 0 ?st0 false] =>
      destruct (lmLoop_events sess Q okmap Q_quiet Q_progress Q_snapshot
                  okmap_trial 50 0 st0 false okmap_initial) as [H1 [H2 H3]];
      unfold result, events in H1, H2;
      destruct (lmLoop 50 sess 0 st0 false) as [[st hp1] e1]
  end.
  simpl in H1, H2, H3. subst hp1. unfold evaluate, emit, setHighPrecision. unfold events.
  cbv beta iota zeta. simpl snd.
  repeat first [rewrite forallb_app | rewrite forallb_cons_eq].
  rewrite !Q_precision, (forallb_quiet_Q Q Q_quiet _ HR), H1.
  repeat first [ rewrite Q_snapshot by (first [exact okmap_initial | exact H2])
               | rewrite Q_quiet by reflexivity ].
  reflexivity.
Qed.

End RunEvents.

(** With at least one free parameter the worker emits no [finished] itself:
    the only one of the session is the watcher's, and it is the last event. *)
Theorem finished_once_and_last_with_free_parameters (self : FittingCore) (mt : ModelType)
    (prms : list FitParameter) (w : double) (hp : bool) :
  freeIndices prms <> [] ->
  exists evs,
    events (startFit false self mt prms w hp) = evs ++ [SigFitFinished]
    /\ List.filter isFitFinished evs = [].
Proof.
  intros Hfree.
  exists (events (runLevenbergMarquardtOptimization self mt prms w hp)). split.
  - unfold startFit, runOptimizationTask, mbind, M_bind, bind, emit, events.
    destruct (runLevenbergMarquardtOptimization self mt prms w hp) as [[u hp1] e1].
    reflexivity.
  - pose proof (runLM_events prms (fun e => negb (isFitFinished e)) (fun _ => True)) as G.
    assert (Hall : forallb (fun e => negb (isFitFinished e))
                     (events (runLevenbergMarquardtOptimization self mt prms w hp)) = true).
    { apply G; try (intros; exact I); try reflexivity; try exact Hfree.
      intros [] Hq; try reflexivity; discriminate Hq. }
    clear G. induction (events _) as [|e l IH]; [reflexivity|].
    simpl in Hall. apply andb_true_iff in Hall as [He Hl].
    simpl. apply negb_true_iff in He. rewrite He. apply IH. exact Hl.
Qed.

(** ** C8: the default plan on 10 000 linear times *)

Lemma scanLoop_range (fuel : nat) (srcT : list double) (limit : nat) (targetT : double)
    (cur : nat) (minDiff : double) (best : nat) :
  (best < limit)%nat ->
  (scanLoop fuel srcT limit targetT cur minDiff best < limit)%nat.
Proof.
  revert cur minDiff best. induction fuel as [|fuel IH]; intros cur minDiff best Hb; simpl.
  - exact Hb.
  - destruct (Nat.ltb_spec cur limit) as [Hc|Hc]; [|exact Hb].
    destruct (_ <? _)%float; [apply IH; exact Hc | exact Hb].
Qed.

Lemma nearestIndex_range (srcT : list double) (limit : nat) (targetT : double) (cur : nat) :
  (cur < limit)%nat -> (nearestIndex srcT limit targetT cur < limit)%nat.
Proof. intros Hc. unfold nearestIndex. apply scanLoop_range. exact Hc. Qed.

Lemma ltb_trans (x y z : double) :
  (x <? y)%float = true -> (y <? z)%float = true -> (x <? z)%float = true.
Proof.
  intros H1 H2.
  destruct (leb_not_nan _ _ (ltb_leb _ _ H1)) as [Hx Hy].
  destruct (leb_not_nan _ _ (ltb_leb _ _ H2)) as [_ Hz].
  apply (ltb_rank x y Hx Hy) in H1. apply (ltb_rank y z Hy Hz) in H2.
  apply (ltb_rank x z Hx Hz).
  destruct (rank x) as [[a1 a2] a3], (rank y) as [[b1 b2] b3], (rank z) as [[c1 c2] c3].
  unfold lex_lt in *. simpl in *. lia.
Qed.

Lemma ltb_irrefl (x : double) : (x <? x)%float = false.
Proof.
  destruct (x <? x)%float eqn:E; [|reflexivity]. exfalso.
  destruct (leb_not_nan _ _ (ltb_leb _ _ E)) as [Hx _].
  apply (ltb_rank x x Hx Hx) in E.
  destruct (rank x) as [[a1 a2] a3]. unfold lex_lt in E. simpl in E. lia.
Qed.

(** In a steadily closer list the distance to the target at a later index is
    below the distance at an earlier one. *)
Lemma steadilyCloser_step (targetT : double) (l : list double) (k : nat) :
  steadilyCloser targetT l = true -> (S k < length l)%nat ->
  (abs (at_ l (S k) - targetT) <? abs (at_ l k - targetT))%float = true.
Proof.
  revert k. induction l as [|a l IH]; intros k Hs Hk; [simpl in Hk; lia|].
  destruct l as [|b l']; [simpl in Hk; lia|].
  cbn [steadilyCloser] in Hs. apply andb_true_iff in Hs as [H1 H2].
  destruct k as [|k]; [exact H1|].
  apply (IH k H2). simpl in *. lia.
Qed.

Lemma steadilyCloser_from_start (targetT : double) (l : list double) (k : nat) (bound : double) :
  steadilyCloser targetT l = true -> (k < length l)%nat ->
  (abs (at_ l 0 - targetT) <? bound)%float = true ->
  (abs (at_ l k - targetT) <? bound)%float = true.
Proof.
  intros Hs Hk H0. induction k as [|k IH]; [exact H0|].
  eapply ltb_trans; [apply steadilyCloser_step; assumption|]. apply IH. lia.
Qed.

(** The scan for such a target runs to the last sample. *)
Lemma scanLoop_to_end (targetT : double) (srcT : list double) (m : nat) :
  steadilyCloser targetT srcT = true ->
  forall cur minDiff best,
    (cur + m = length srcT - 1)%nat -> (0 < length srcT)%nat ->
    (abs (at_ srcT cur - targetT) <? minDiff)%float = true ->
    scanLoop (S (S m)) srcT (length srcT) targetT cur minDiff best = (length srcT - 1)%nat.
Proof.
  intros Hs. induction m as [|m IH]; intros cur minDiff best Hc Hn Hd.
  - cbn [scanLoop]. destruct (Nat.ltb_spec cur (length srcT)) as [H1|H1]; [|lia].
    rewrite Hd. destruct (Nat.ltb_spec (S cur) (length srcT)) as [H2|H2]; lia.
  - cbn [scanLoop]. destruct (Nat.ltb_spec cur (length srcT)) as [H1|H1]; [|lia].
    rewrite Hd. apply IH; [lia | exact Hn|].
    apply steadilyCloser_step; [exact Hs | lia].
Qed.

Lemma nearestIndex_to_end (targetT : double) (srcT : list double) (cur : nat) :
  steadilyCloser targetT srcT = true ->
  (abs (at_ srcT 0 - targetT) <? 1e30)%float = true ->
  (cur < length srcT)%nat ->
  nearestIndex srcT (length srcT) targetT cur = (length srcT - 1)%nat.
Proof.
  intros Hs H0 Hc. unfold nearestIndex.
  replace (S (length srcT - cur)) with (S (S (length srcT - 1 - cur))) by lia.
  apply scanLoop_to_end; [exact Hs | lia | lia|].
  apply steadilyCloser_from_start; assumption.
Qed.


Lemma insertPoint_perm (x : DataPoint) (l : list DataPoint) :
  Permutation (x :: l) (insertPoint x l).
Proof.
  induction l as [|y l IH]; simpl; [reflexivity|].
  destruct (DataPoint.lt x y); [reflexivity|].
  rewrite perm_swap. apply perm_skip. exact IH.
Qed.

Lemma std_sort_perm (l : list DataPoint) : Permutation l (std_sort l).
Proof.
  unfold std_sort.
  assert (G : forall acc, Permutation (l ++ acc)
                            (fold_left (fun acc x => insertPoint x acc) l acc)).
  { induction l as [|x l IH]; intros acc; simpl; [reflexivity|].
    rewrite <- IH. rewrite <- insertPoint_perm.
    apply Permutation_middle. }
  specialize (G []). rewrite app_nil_r in G. exact G.
Qed.

Lemma uniqueFrom_length (kept : DataPoint) (l : list DataPoint) :
  (length (uniqueFrom kept l) <= S (length l))%nat
  /\ (length (uniqueFrom kept l) = S (length l) -> uniqueFrom kept l = kept :: l).
Proof.
  revert kept. induction l as [|x l IH]; intros kept; simpl.
  - split; [lia | reflexivity].
  - destruct (DataPoint.eq kept x).
    + destruct (IH kept) as [H1 H2]. split; [lia | intros E; lia].
    + destruct (IH x) as [H1 H2]. simpl. split; [lia|].
      intros E. rewrite H2 by lia. reflexivity.
Qed.

Lemma std_unique_length (l : list DataPoint) :
  (length (std_unique l) <= length l)%nat
  /\ (length (std_unique l) = length l -> std_unique l = l).
Proof.
  destruct l as [|x l]; simpl; [split; [lia | reflexivity]|].
  apply uniqueFrom_length.
Qed.

Lemma strictlyAscending_above (a : double) (l : list double) :
  strictlyAscending (a :: l) = true -> forall x, In x l -> (a <? x)%float = true.
Proof.
  revert a. induction l as [|b l IH]; intros a Hs x Hx; [destruct Hx|].
  rewrite strictlyAscending_cons in Hs.
  apply andb_true_iff in Hs as [Hs H3]. apply andb_true_iff in Hs as [H1 H2].
  destruct Hx as [<-|Hx]; [exact H1|].
  eapply ltb_trans; [exact H1|]. apply IH; assumption.
Qed.

Lemma strictlyAscending_tail (a : double) (l : list double) :
  strictlyAscending (a :: l) = true -> strictlyAscending l = true.
Proof.
  destruct l as [|b l]; [reflexivity|]. rewrite strictlyAscending_cons.
  intros Hs. apply andb_true_iff in Hs as [_ H3]. exact H3.
Qed.

Lemma strictlyAscending_NoDup (l : list double) :
  strictlyAscending l = true -> List.NoDup l.
Proof.
  induction l as [|a l IH]; intros Hs; constructor.
  - intros Hin. pose proof (strictlyAscending_above a l Hs a Hin) as E.
    rewrite ltb_irrefl in E. discriminate E.
  - apply IH. eapply strictlyAscending_tail. exact Hs.
Qed.

(** A repeated pick costs the output a point. *)
Lemma finishPoints_drops_repeat (p0 : DataPoint) (rest : list DataPoint) :
  Forall finite_t (p0 :: p0 :: rest) ->
  (length (fst (fst (finishPoints (p0 :: p0 :: rest)))) <= S (length rest))%nat.
Proof.
  intros Hf. set (pts := p0 :: p0 :: rest) in *.
  pose proof (finishPoints_ascending pts Hf) as Hasc.
  unfold finishPoints in *. simpl fst in *. rewrite length_map.
  pose proof (std_sort_perm pts) as Hperm.
  destruct (std_unique_length (std_sort pts)) as [Hle Heq].
  rewrite <- (Permutation_length Hperm) in Hle, Heq. simpl length in Hle, Heq.
  destruct (Nat.eq_dec (length (std_unique (std_sort pts))) (S (S (length rest))))
    as [E|E]; [|lia].
  exfalso. rewrite (Heq E) in Hasc.
  apply strictlyAscending_NoDup in Hasc.
  apply (Permutation_NoDup (l' := map DataPoint.t pts)) in Hasc.
  - subst pts. simpl in Hasc. inversion Hasc as [|? ? Hn _]. apply Hn. left. reflexivity.
  - symmetry. apply Permutation_map. exact Hperm.
Qed.


Lemma lex_le_antisym (a b : Z * Z * Z) : lex_le a b -> lex_le b a -> a = b.
Proof.
  destruct a as [[a1 a2] a3], b as [[b1 b2] b3]. unfold lex_le, lex_lt. simpl.
  intros [H1|H1] [H2|H2]; try congruence; exfalso; lia.
Qed.

Lemma leb_antisym_eqb (x y : double) :
  (x <=? y)%float = true -> (y <=? x)%float = true -> (x =? y)%float = true.
Proof.
  intros H1 H2. destruct (leb_not_nan _ _ H1) as [Hx Hy].
  apply (leb_rank x y Hx Hy) in H1. apply (leb_rank y x Hy Hx) in H2.
  pose proof (lex_le_antisym _ _ H1 H2) as E.
  apply is_nan_Prim2SF in Hx, Hy.
  destruct (SFcompare_rank _ _ Hx Hy) as [c [Hc [_ [_ HEq]]]].
  rewrite FloatAxioms.eqb_spec. unfold SFeqb. rewrite Hc.
  rewrite (proj2 HEq E). reflexivity.
Qed.

(** Numerically equal to a finite double other than zero means equal. *)
Lemma eqb_nonzero_eq (x y : double) :
  (x =? y)%float = true -> is_finite y = true -> is_zero y = false -> x = y.
Proof.
  intros He Hf Hz. apply Prim2SF_inj.
  rewrite FloatAxioms.eqb_spec in He. unfold SFeqb in He.
  unfold is_zero in Hz. rewrite FloatAxioms.eqb_spec in Hz.
  destruct (is_finite_Prim2SF y Hf) as [[sg E]|[sg [m [e E]]]]; rewrite E in *.
  - exfalso. destruct sg; vm_compute in Hz; discriminate Hz.
  - destruct (Prim2SF x) as [s'|s'| |s' m' e']; simpl in He;
      try (destruct s'); try (destruct sg); try discriminate He.
    + change (PosDef.Pos.compare_cont Eq m' m) with (Pos.compare m' m) in He.
      destruct (Z.compare_spec e' e); try discriminate He;
        destruct (Pos.compare_spec m' m); try discriminate He; subst; reflexivity.
    + change (PosDef.Pos.compare_cont Eq m' m) with (Pos.compare m' m) in He.
      destruct (Z.compare_spec e' e); try discriminate He;
        destruct (Pos.compare_spec m' m); try discriminate He; subst; reflexivity.
Qed.

Lemma sorted_last_max (l : list DataPoint) (dflt : DataPoint) :
  StronglySorted le_t l -> Forall finite_t l ->
  forall y, In y l -> le_t y (List.last l dflt).
Proof.
  intros Hs. induction Hs as [|x l Hs IH Hx]; intros Hf y Hy; [destruct Hy|].
  inversion Hf as [|? ? Hfx Hfl]; subst.
  destruct l as [|z l'].
  - destruct Hy as [<-|[]]. simpl. apply leb_refl, is_finite_not_nan, Hfx.
  - change (List.last (x :: z :: l') dflt) with (List.last (z :: l') dflt).
    destruct Hy as [<-|Hy]; [|apply IH; assumption].
    rewrite Forall_forall in Hx. apply Hx. apply list_elem_of_In.
    destruct (exists_last (l := z :: l')) as [l0 [a E]]; [discriminate|].
    rewrite E, last_last. apply in_or_app. right. left. reflexivity.
Qed.

Lemma uniqueFrom_last (kept : DataPoint) (l : list DataPoint) (dflt : DataPoint) :
  DataPoint.eq (List.last (uniqueFrom kept l) dflt) (List.last (kept :: l) dflt) = true
  \/ List.last (uniqueFrom kept l) dflt = List.last (kept :: l) dflt.
Proof.
  revert kept. induction l as [|x l IH]; intros kept; [right; reflexivity|].
  cbn [uniqueFrom]. destruct (DataPoint.eq kept x) eqn:E.
  - destruct l as [|y l'].
    + left. simpl. exact E.
    + change (List.last (kept :: x :: y :: l') dflt) with (List.last (kept :: y :: l') dflt).
      apply IH.
  - destruct (uniqueFrom_head x l) as [r Hr].
    change (List.last (kept :: x :: l) dflt) with (List.last (x :: l) dflt).
    specialize (IH x). rewrite Hr in *.
    change (List.last (kept :: x :: r) dflt) with (List.last (x :: r) dflt).
    exact IH.
Qed.

Lemma last_map_t (l : list DataPoint) :
  List.last (map DataPoint.t l) 0%float
  = DataPoint.t (List.last l (DataPoint.mk 0 0 0)).
Proof.
  induction l as [|x l IH]; [reflexivity|].
  destruct l as [|y l']; [reflexivity|].
  change (List.last (map DataPoint.t (x :: y :: l')) 0%float)
    with (List.last (map DataPoint.t (y :: l')) 0%float).
  exact IH.
Qed.

Section DefaultPlan.
Variables (srcT srcP srcD : list double).
Let n := length srcT.
Let pick := pickPoint srcT srcP srcD.
Let picked (p : DataPoint) : Prop := exists i, (i < n)%nat /\ p = pick i.
Let step := defaultStep (defaultLogMin srcT) (defaultLogStep 200 srcT) srcT srcP srcD.

Lemma defaultStep_fold (l : list nat) (c : nat) (acc : list DataPoint) :
  (c < n)%nat ->
  exists c' new,
    fold_left step l (c, acc) = (c', acc ++ new)
    /\ (c' < n)%nat /\ length new = length l /\ Forall picked new.
Proof.
  revert c acc. induction l as [|i l IH]; intros c acc Hc.
  - exists c, []. rewrite app_nil_r. repeat split; [exact Hc | constructor].
  - simpl fold_left. unfold step at 2, defaultStep. simpl fst. simpl snd.
    set (b := nearestIndex srcT (length srcT) _ c).
    assert (Hb : (b < n)%nat) by (apply nearestIndex_range; exact Hc).
    destruct (IH b (acc ++ [pickPoint srcT srcP srcD b]) Hb) as [c' [new [E [Hc' [Hl Hp]]]]].
    exists c', (pick b :: new). rewrite E, <- app_assoc. simpl.
    repeat split; [exact Hc' | lia|].
    constructor; [exists b; split; [exact Hb | reflexivity] | exact Hp].
Qed.

Hypothesis first_target : nearestIndex srcT n (defaultTarget 200 srcT 0) 0 = 0%nat.
Hypothesis second_target : nearestIndex srcT n (defaultTarget 200 srcT 1) 0 = 0%nat.
Hypothesis last_target : steadilyCloser (defaultTarget 200 srcT 199) srcT = true.
Hypothesis last_target_near :
  (abs (at_ srcT 0 - defaultTarget 200 srcT 199) <? 1e30)%float = true.
Hypothesis nonempty : (0 < n)%nat.

(** The 200 picks: the first sample twice, 197 picks, the last sample. *)
Lemma defaultPoints_shape :
  exists mid,
    defaultPoints 200 srcT srcP srcD = pick 0%nat :: pick 0%nat :: mid ++ [pick (n - 1)%nat]
    /\ length mid = 197%nat /\ Forall picked mid.
Proof.
  unfold defaultPoints. fold step.
  change (seq 0 200) with (0 :: 1 :: seq 2 197 ++ [199])%nat.
  cbn [fold_left]. rewrite fold_left_app.
  assert (E0 : step (0%nat, []) 0%nat = (0%nat, [pick 0%nat])).
  { unfold step, defaultStep. simpl fst. simpl snd.
    change (pow 10 _) with (defaultTarget 200 srcT 0). fold n.
    rewrite first_target. reflexivity. }
  rewrite E0.
  assert (E1 : step (0%nat, [pick 0%nat]) 1%nat = (0%nat, [pick 0%nat; pick 0%nat])).
  { unfold step, defaultStep. simpl fst. simpl snd.
    change (pow 10 _) with (defaultTarget 200 srcT 1). fold n.
    rewrite second_target. reflexivity. }
  rewrite E1.
  destruct (defaultStep_fold (seq 2 197) 0 [pick 0%nat; pick 0%nat] nonempty)
    as [c [mid [E [Hc [Hl Hp]]]]].
  rewrite E. cbn [fold_left]. unfold step at 1, defaultStep. simpl fst. simpl snd.
  change (pow 10 _) with (defaultTarget 200 srcT 199).
  rewrite (nearestIndex_to_end _ srcT c last_target last_target_near Hc).
  exists mid. rewrite length_seq in Hl. split; [|split; [exact Hl | exact Hp]].
  reflexivity.
Qed.

Hypothesis times_finite : forallb is_finite srcT = true.
Hypothesis first_is_least : forallb (fun x => (at_ srcT 0 <=? x)%float) srcT = true.
Hypothesis last_is_greatest :
  forallb (fun x => (x <=? at_ srcT (n - 1))%float) srcT = true.
Hypothesis last_nonzero : is_zero (at_ srcT (n - 1)) = false.

Lemma picked_between (q : DataPoint) :
  picked q ->
  (at_ srcT 0 <=? DataPoint.t q)%float = true
  /\ (DataPoint.t q <=? at_ srcT (n - 1))%float = true.
Proof.
  intros [i [Hi ->]]. unfold pick, pickPoint. simpl DataPoint.t.
  assert (Hin : In (at_ srcT i) srcT) by (unfold at_; apply nth_In; exact Hi).
  rewrite forallb_forall in first_is_least, last_is_greatest.
  split; [apply first_is_least | apply last_is_greatest]; exact Hin.
Qed.

(** The default plan on ascending finite times, when the first two targets
    select the first sample and the last target the last one. *)
Lemma default_plan_output :
  let outT := fst (fst (finishPoints (defaultPoints 200 srcT srcP srcD))) in
  (length outT <= 199)%nat
  /\ strictlyAscending outT = true
  /\ (at_ outT 0 =? at_ srcT 0)%float = true
  /\ (abs (List.last outT 0%float - at_ srcT (n - 1)) <? 1e-9)%float = true.
Proof.
  intros outT. subst outT.
  pose proof (defaultPoints_finite 200 srcT srcP srcD times_finite) as Hfin.
  destruct defaultPoints_shape as [mid [Epts [Hmid Hpk]]].
  set (pts := defaultPoints 200 srcT srcP srcD) in *.
  assert (Hall : Forall picked pts).
  { rewrite Epts. constructor; [exists 0%nat; split; [exact nonempty | reflexivity]|].
    constructor; [exists 0%nat; split; [exact nonempty | reflexivity]|].
    apply Forall_app. split; [exact Hpk|].
    constructor; [|constructor]. exists (n - 1)%nat. split; [lia | reflexivity]. }
  split; [|split; [|split]].
  - rewrite Epts. rewrite Epts in Hfin.
    pose proof (finishPoints_drops_repeat _ _ Hfin) as Hd.
    rewrite length_app, Hmid in Hd. cbn [length] in Hd. exact Hd.
  - apply finishPoints_ascending. exact Hfin.
  - unfold finishPoints. cbn [fst].
    destruct (std_sort_sorted pts Hfin) as [Hs Hf].
    pose proof (std_sort_perm pts) as Hperm.
    destruct (std_sort pts) as [|h tl] eqn:Es.
    { apply Permutation_sym, Permutation_nil in Hperm. rewrite Epts in Hperm.
      discriminate Hperm. }
    cbn [std_unique]. destruct (uniqueFrom_head h tl) as [r ->]. cbn [map].
    unfold at_ at 1. cbn [nth].
    apply leb_antisym_eqb.
    + assert (Hp0 : In (pick 0%nat) (h :: tl)).
      { apply (Permutation_in _ Hperm). rewrite Epts. left. reflexivity. }
      inversion Hs as [|? ? Hs' Hh]; subst.
      destruct Hp0 as [E|Hp0].
      * rewrite E. apply leb_refl, is_finite_not_nan, at_finite. exact times_finite.
      * rewrite Forall_forall in Hh. apply (Hh (pick 0%nat)).
        apply list_elem_of_In. exact Hp0.
    + assert (Hh : picked h).
      { rewrite Forall_forall in Hall. apply Hall. apply list_elem_of_In.
        apply (Permutation_in _ (Permutation_sym Hperm)). left. reflexivity. }
      apply (picked_between h Hh).
  - unfold finishPoints. cbn [fst]. rewrite last_map_t.
    destruct (std_sort_sorted pts Hfin) as [Hs Hf].
    pose proof (std_sort_perm pts) as Hperm.
    set (dflt := DataPoint.mk 0 0 0).
    destruct (std_sort pts) as [|h tl] eqn:Es.
    { apply Permutation_sym, Permutation_nil in Hperm. rewrite Epts in Hperm.
      discriminate Hperm. }
    cbn [std_unique].
    assert (HL : DataPoint.t (List.last (h :: tl) dflt) = at_ srcT (n - 1)).
    { apply eqb_nonzero_eq; [|apply at_finite; exact times_finite | exact last_nonzero].
      apply leb_antisym_eqb.
      - assert (Hin : In (List.last (h :: tl) dflt) (h :: tl)).
        { destruct (exists_last (l := h :: tl)) as [l0 [a E]]; [discriminate|].
          rewrite E, last_last. apply in_or_app. right. left. reflexivity. }
        assert (Hpk' : picked (List.last (h :: tl) dflt)).
        { rewrite Forall_forall in Hall. apply Hall. apply list_elem_of_In.
          apply (Permutation_in _ (Permutation_sym Hperm)). exact Hin. }
        apply (picked_between _ Hpk').
      - assert (Hend : In (pick (n - 1)%nat) (h :: tl)).
        { apply (Permutation_in _ Hperm). rewrite Epts. right. right.
          apply in_or_app. right. left. reflexivity. }
        apply (sorted_last_max (h :: tl) dflt Hs Hf _ Hend). }
    destruct (uniqueFrom_last h tl dflt) as [HK|HK].
    + unfold DataPoint.eq in HK. rewrite HL in HK. exact HK.
    + rewrite HK, HL. apply equal_within_tolerance.
      * apply at_finite; exact times_finite.
      * apply at_finite; exact times_finite.
      * apply leb_refl, is_finite_not_nan, at_finite. exact times_finite.
      * apply ltb_irrefl.
Qed.

End DefaultPlan.


Lemma getLogSampledData_default (self : FittingCore) (srcT srcP srcD : list double) :
  m_isCustomSamplingEnabled self = false ->
  (length srcT <=? 200)%nat = false ->
  getLogSampledData self srcT srcP srcD = finishPoints (defaultPoints 200 srcT srcP srcD).
Proof.
  intros Hmode Hlen. unfold getLogSampledData. rewrite Hmode. cbn [negb].
  destruct srcT as [|t0 srcT']; [discriminate Hlen|]. rewrite Hlen. reflexivity.
Qed.

Lemma linearTimes_length (k : nat) : length (linearTimes k) = k.
Proof.
  unfold linearTimes. generalize 1. induction k as [|k IH]; intros z; simpl;
    [reflexivity | rewrite IH; reflexivity].
Qed.

(** C8, amended: on the 10 000 linear times [1..10000] the default plan
    returns fewer than 200 points (at most 199: the first two of the 200
    log-spaced targets both select the sample [t = 1], and the repeat is
    dropped), strictly ascending, the first time equal to 1 and the last
    within [1e-9] of 10000.  The math library enters through three facts: the
    first two targets are nearest to the first sample, and the last target is
    closer to each sample than to the one before it. *)
Theorem C8_default_plan_on_linear_times (self : FittingCore) (srcP srcD : list double) :
  m_isCustomSamplingEnabled self = false ->
  let srcT := linearTimes 10000 in
  nearestIndex srcT (length srcT) (defaultTarget 200 srcT 0) 0 = 0%nat ->
  nearestIndex srcT (length srcT) (defaultTarget 200 srcT 1) 0 = 0%nat ->
  steadilyCloser (defaultTarget 200 srcT 199) srcT = true ->
  (abs (at_ srcT 0 - defaultTarget 200 srcT 199) <? 1e30)%float = true ->
  let outT := fst (fst (getLogSampledData self srcT srcP srcD)) in
  (length outT <= 199)%nat
  /\ strictlyAscending outT = true
  /\ (at_ outT 0 =? 1)%float = true
  /\ (abs (List.last outT 0%float - 10000) <? 1e-9)%float = true.
Proof.
  intros Hmode srcT H1 H2 H3 H4 outT.
  assert (Hlen : (length srcT <=? 200)%nat = false).
  { subst srcT. rewrite linearTimes_length. vm_compute. reflexivity. }
  assert (Hpos : (0 < length srcT)%nat).
  { apply Nat.ltb_lt. subst srcT. rewrite linearTimes_length. vm_compute. reflexivity. }
  assert (E0 : at_ srcT 0 = 1%float) by (vm_compute; reflexivity).
  assert (E1 : at_ srcT (length srcT - 1) = 10000%float) by (vm_compute; reflexivity).
  assert (Hfin : forallb is_finite srcT = true) by (vm_compute; reflexivity).
  assert (Hlo : forallb (fun x => (at_ srcT 0 <=? x)%float) srcT = true).
  { rewrite E0. vm_compute. reflexivity. }
  assert (Hhi : forallb (fun x => (x <=? at_ srcT (length srcT - 1))%float) srcT = true).
  { rewrite E1. vm_compute. reflexivity. }
  assert (Hnz : is_zero (at_ srcT (length srcT - 1)) = false).
  { rewrite E1. vm_compute. reflexivity. }
  clearbody srcT.
  subst outT. rewrite (getLogSampledData_default self srcT srcP srcD Hmode Hlen).
  pose proof (default_plan_output srcT srcP srcD H1 H2 H3 H4 Hpos Hfin Hlo Hhi Hnz) as G.
  cbv zeta in G. rewrite E0, E1 in G. exact G.
Qed.


(* ================================================================== *)
(** * Further properties of the code *)

(** ** Resampler: size and origin of the returned points *)

Lemma defaultStep_fold_length (logMin step : double) (srcT srcP srcD : list double)
    (l : list nat) (st : nat * list DataPoint) :
  length (snd (fold_left (defaultStep logMin step srcT srcP srcD) l st))
  = (length (snd st) + length l)%nat.
Proof.
  revert st. induction l as [|i l IH]; intros st; simpl; [lia|].
  rewrite IH. unfold defaultStep. simpl. rewrite length_app. simpl. lia.
Qed.

Lemma defaultPoints_length (n : nat) (srcT srcP srcD : list double) :
  length (defaultPoints n srcT srcP srcD) = n.
Proof.
  unfold defaultPoints. rewrite defaultStep_fold_length, length_seq. reflexivity.
Qed.

Lemma finishPoints_lengths (points : list DataPoint) :
  let out := finishPoints points in
  (length (fst (fst out)) <= length points)%nat
  /\ (points <> [] -> (1 <= length (fst (fst out)))%nat)
  /\ length (snd (fst out)) = length (fst (fst out))
  /\ length (snd out) = length (fst (fst out)).
Proof.
  unfold finishPoints. cbn [fst snd]. rewrite !length_map.
  pose proof (Permutation_length (std_sort_perm points)) as Hp.
  destruct (std_unique_length (std_sort points)) as [Hu _].
  repeat split; try lia.
  intros Hne. destruct (std_sort points) as [|x l] eqn:E.
  - destruct points; [congruence | simpl in Hp; lia].
  - cbn [std_unique]. destruct (uniqueFrom_head x l) as [r ->]. simpl. lia.
Qed.

(** Default-mode resampling of more than 200 samples returns between 1 and
    200 points, and as many pressures and derivatives as times (whatever the
    lengths of the source pressure and derivative vectors). *)
Theorem default_resampling_size (self : FittingCore) (srcT srcP srcD : list double) :
  m_isCustomSamplingEnabled self = false ->
  (200 < length srcT)%nat ->
  let out := getLogSampledData self srcT srcP srcD in
  (1 <= length (fst (fst out)) <= 200)%nat
  /\ length (snd (fst out)) = length (fst (fst out))
  /\ length (snd out) = length (fst (fst out)).
Proof.
  intros Hmode Hlen out. subst out. unfold getLogSampledData. rewrite Hmode.
  destruct srcT as [|t0 srcT']; [simpl in Hlen; lia|].
  cbn [negb]. destruct (Nat.leb_spec (length (t0 :: srcT')) 200) as [Hle|_]; [lia|].
  destruct (finishPoints_lengths (defaultPoints 200 (t0 :: srcT') srcP srcD))
    as [H1 [H2 [H3 H4]]].
  rewrite defaultPoints_length in H1.
  repeat split; try assumption.
  apply H2. intros E. apply (f_equal (@length _)) in E.
  rewrite defaultPoints_length in E. discriminate E.
Qed.

Lemma defaultStep_fold_samples (logMin step : double) (srcT srcP srcD : list double)
    (l : list nat) (st : nat * list DataPoint) :
  (fst st < length srcT)%nat -> Forall (isSample srcT srcP srcD) (snd st) ->
  Forall (isSample srcT srcP srcD)
         (snd (fold_left (defaultStep logMin step srcT srcP srcD) l st)).
Proof.
  revert st. induction l as [|i l IH]; intros st Hc Hs; simpl; [exact Hs|].
  apply IH; unfold defaultStep; cbn [fst snd].
  - apply nearestIndex_range. exact Hc.
  - apply Forall_app. split; [exact Hs|]. constructor; [|constructor].
    eexists. split; [|reflexivity]. apply nearestIndex_range. exact Hc.
Qed.

Lemma customStep_fold_samples (count : Z) (subMin logMin step : double) (idxEnd : nat)
    (srcT srcP srcD : list double) (l : list nat) (st : nat * list DataPoint) :
  Forall (isSample srcT srcP srcD) (snd st) ->
  Forall (isSample srcT srcP srcD)
         (snd (fold_left (customStep count subMin logMin step idxEnd srcT srcP srcD) l st)).
Proof.
  revert st. induction l as [|i l IH]; intros st Hs; simpl; [exact Hs|].
  apply IH. unfold customStep at 1. cbn [fst snd].
  match goal with |- context [(?b <? length srcT)%nat] =>
    destruct (Nat.ltb_spec b (length srcT)) as [Hb|Hb] end; [|exact Hs].
  apply Forall_app. split; [exact Hs|]. constructor; [|constructor].
  eexists. split; [exact Hb | reflexivity].
Qed.

Lemma customPoints_samples (intervals : list SamplingInterval)
    (srcT srcP srcD : list double) :
  Forall (isSample srcT srcP srcD) (customPoints intervals srcT srcP srcD).
Proof.
  unfold customPoints. apply fold_left_invariant; [constructor|].
  intros points interval Hp. unfold customInterval.
  destruct (_ <=? 0); [exact Hp|]. destruct (_ || _); [exact Hp|].
  apply customStep_fold_samples. exact Hp.
Qed.

Lemma std_sort_Forall (P : DataPoint -> Prop) (l : list DataPoint) :
  Forall P l -> Forall P (std_sort l).
Proof.
  intros Hl. unfold std_sort.
  assert (G : forall acc, Forall P acc -> Forall P l ->
                Forall P (fold_left (fun acc x => insertPoint x acc) l acc)).
  { clear Hl. induction l as [|x l IH]; intros acc Ha Hl; simpl; [exact Ha|].
    apply Forall_cons_iff in Hl as [Hx Hl].
    apply IH; [apply insertPoint_Forall; assumption | exact Hl]. }
  apply G; [constructor | exact Hl].
Qed.

Lemma uniqueFrom_Forall (P : DataPoint -> Prop) (kept : DataPoint) (l : list DataPoint) :
  P kept -> Forall P l -> Forall P (uniqueFrom kept l).
Proof.
  revert kept. induction l as [|x l IH]; intros kept Hk Hl; simpl.
  - constructor; [exact Hk | constructor].
  - apply Forall_cons_iff in Hl as [Hx Hl].
    destruct (DataPoint.eq kept x); [apply IH; assumption|].
    constructor; [exact Hk | apply IH; assumption].
Qed.

Lemma finishPoints_samples (srcT srcP srcD : list double) (points : list DataPoint) :
  Forall (isSample srcT srcP srcD) points ->
  let out := finishPoints points in
  forall i, (i < length (fst (fst out)))%nat ->
    isSample srcT srcP srcD
      (DataPoint.mk (at_ (fst (fst out)) i) (at_ (snd (fst out)) i) (at_ (snd out) i)).
Proof.
  intros Hp out i Hi. subst out. unfold finishPoints in *. cbn [fst snd] in *.
  rewrite length_map in Hi.
  assert (Hu : Forall (isSample srcT srcP srcD) (std_unique (std_sort points))).
  { pose proof (std_sort_Forall _ _ Hp) as Hs.
    destruct (std_sort points) as [|x l]; [constructor|].
    apply Forall_cons_iff in Hs as [Hx Hl]. cbn [std_unique].
    apply uniqueFrom_Forall; assumption. }
  set (pts := std_unique (std_sort points)) in *.
  set (dflt := DataPoint.mk 0%float 0%float 0%float).
  assert (Hn : isSample srcT srcP srcD (nth i pts dflt)).
  { rewrite Forall_forall in Hu. apply Hu, list_elem_of_In, nth_In. exact Hi. }
  unfold at_.
  change 0%float with (DataPoint.t dflt) at 1. rewrite map_nth.
  change 0%float with (DataPoint.p dflt) at 1. rewrite map_nth.
  change 0%float with (DataPoint.d dflt) at 1. rewrite map_nth.
  destruct (nth i pts dflt); exact Hn.
Qed.

(** Whenever the resampler resamples (default mode with more than 200
    samples, custom mode with at least one interval), every returned triple
    [(outT[i], outP[i], outD[i])] is the sample of the source vectors at one
    common index [k]: the time is [srcT[k]], and the pressure and the
    derivative are [srcP[k]] and [srcD[k]], or 0 where the source vector is
    too short.  No value is interpolated and none is paired with the time of
    another sample. *)
Theorem resampled_points_are_samples (self : FittingCore) (srcT srcP srcD : list double) :
  isPassthrough self srcT = false ->
  let out := getLogSampledData self srcT srcP srcD in
  forall i, (i < length (fst (fst out)))%nat ->
    exists k, (k < length srcT)%nat
      /\ at_ (fst (fst out)) i = at_ srcT k
      /\ at_ (snd (fst out)) i = (if (k <? length srcP)%nat then at_ srcP k else 0%float)
      /\ at_ (snd out) i = (if (k <? length srcD)%nat then at_ srcD k else 0%float).
Proof.
  intros Hpass out i Hi.
  assert (G : isSample srcT srcP srcD
                (DataPoint.mk (at_ (fst (fst out)) i) (at_ (snd (fst out)) i)
                              (at_ (snd out) i))).
  { subst out. unfold getLogSampledData, isPassthrough in *.
    destruct srcT as [|t0 srcT']; [simpl in Hi; lia|].
    destruct (negb (m_isCustomSamplingEnabled self)).
    - rewrite Hpass in *.
      apply finishPoints_samples; [|exact Hi].
      unfold defaultPoints. apply defaultStep_fold_samples; [simpl; lia | constructor].
    - destruct (m_customIntervals self) as [|iv ivs]; [discriminate Hpass|].
      apply finishPoints_samples; [|exact Hi]. apply customPoints_samples. }
  destruct G as [k [Hk E]]. exists k. split; [exact Hk|].
  unfold pickPoint in E. injection E as E1 E2 E3. repeat split; assumption.
Qed.

(** ** Resampler: the windows of the custom intervals *)

Lemma leb_ltb_trans (x y z : double) :
  (x <=? y)%float = true -> (y <? z)%float = true -> (x <? z)%float = true.
Proof.
  intros H1 H2.
  destruct (leb_not_nan _ _ H1) as [Hx Hy].
  destruct (leb_not_nan _ _ (ltb_leb _ _ H2)) as [_ Hz].
  apply (leb_rank x y Hx Hy) in H1. apply (ltb_rank y z Hy Hz) in H2.
  apply (ltb_rank x z Hx Hz).
  destruct (rank x) as [[a1 a2] a3], (rank y) as [[b1 b2] b3], (rank z) as [[c1 c2] c3].
  unfold lex_le, lex_lt in *. simpl in *.
  destruct H1 as [H1|H1]; [lia | injection H1 as -> -> ->; exact H2].
Qed.

Lemma ltb_leb_trans (x y z : double) :
  (x <? y)%float = true -> (y <=? z)%float = true -> (x <? z)%float = true.
Proof.
  intros H1 H2.
  destruct (leb_not_nan _ _ (ltb_leb _ _ H1)) as [Hx Hy].
  destruct (leb_not_nan _ _ H2) as [_ Hz].
  apply (ltb_rank x y Hx Hy) in H1. apply (leb_rank y z Hy Hz) in H2.
  apply (ltb_rank x z Hx Hz).
  destruct (rank x) as [[a1 a2] a3], (rank y) as [[b1 b2] b3], (rank z) as [[c1 c2] c3].
  unfold lex_le, lex_lt in *. simpl in *.
  destruct H2 as [H2|H2]; [lia | injection H2 as <- <- <-; exact H1].
Qed.

Lemma ascendingTimes_at (srcT : list double) (i j : nat) :
  ascendingTimes srcT -> (i < j)%nat -> (j < length srcT)%nat ->
  (at_ srcT i <=? at_ srcT j)%float = true.
Proof.
  intros Hs. revert i j. induction Hs as [|a l Hl IH Ha]; intros i j Hij Hj.
  - simpl in Hj. lia.
  - destruct j as [|j]; [lia|]. simpl in Hj. destruct i as [|i].
    + unfold at_. simpl. rewrite Forall_forall in Ha. apply Ha.
      apply list_elem_of_In, nth_In. lia.
    + unfold at_ in *. simpl. apply IH; lia.
Qed.

(** The two binary searches split the indices of an ascending [v]. *)
Lemma lower_bound_loop_spec (v : list double) (val : double) (fuel first len : nat) :
  ascendingTimes v -> (len <= fuel)%nat -> (first + len <= length v)%nat ->
  (forall i, (i < first)%nat -> (at_ v i <? val)%float = true) ->
  (forall i, (first + len <= i < length v)%nat -> (at_ v i <? val)%float = false) ->
  let r := lower_bound_loop fuel v val first len in
  (r <= length v)%nat
  /\ (forall i, (i < r)%nat -> (at_ v i <? val)%float = true)
  /\ (forall i, (r <= i < length v)%nat -> (at_ v i <? val)%float = false).
Proof.
  intros Hs. revert first len.
  induction fuel as [|fuel IH]; intros first len Hf Hr Hlo Hhi; cbv zeta.
  - simpl. replace len with 0%nat in * by lia.
    repeat split; [lia | exact Hlo|]. intros i Hi. apply Hhi. lia.
  - cbn [lower_bound_loop]. destruct (Nat.ltb_spec 0 len) as [Hpos|Hz].
    + assert (Hhalf : (len / 2 < len)%nat) by (apply Nat.div_lt; lia).
      destruct (at_ v (first + len / 2) <? val)%float eqn:E.
      * apply IH; try lia.
        -- intros i Hi. destruct (Nat.eq_dec i (first + len / 2)%nat) as [->|Hne]; [exact E|].
           destruct (Nat.lt_ge_cases i first) as [Hlt|Hge]; [apply Hlo; exact Hlt|].
           eapply leb_ltb_trans; [|exact E]. apply ascendingTimes_at; [exact Hs | lia | lia].
        -- intros i Hi. apply Hhi. lia.
      * apply IH; try lia; [exact Hlo|].
        intros i Hi. destruct (Nat.eq_dec i (first + len / 2)%nat) as [->|Hne]; [exact E|].
        destruct (at_ v i <? val)%float eqn:Ei; [|reflexivity].
        rewrite <- E. symmetry. eapply leb_ltb_trans; [|exact Ei].
        apply ascendingTimes_at; [exact Hs | lia | lia].
    + replace len with 0%nat in * by lia.
      repeat split; [lia | exact Hlo|]. intros i Hi. apply Hhi. lia.
Qed.

Lemma upper_bound_loop_spec (v : list double) (val : double) (fuel first len : nat) :
  ascendingTimes v -> (len <= fuel)%nat -> (first + len <= length v)%nat ->
  (forall i, (i < first)%nat -> (val <? at_ v i)%float = false) ->
  (forall i, (first + len <= i < length v)%nat -> (val <? at_ v i)%float = true) ->
  let r := upper_bound_loop fuel v val first len in
  (r <= length v)%nat
  /\ (forall i, (i < r)%nat -> (val <? at_ v i)%float = false)
  /\ (forall i, (r <= i < length v)%nat -> (val <? at_ v i)%float = true).
Proof.
  intros Hs. revert first len.
  induction fuel as [|fuel IH]; intros first len Hf Hr Hlo Hhi; cbv zeta.
  - simpl. replace len with 0%nat in * by lia.
    repeat split; [lia | exact Hlo|]. intros i Hi. apply Hhi. lia.
  - cbn [upper_bound_loop]. destruct (Nat.ltb_spec 0 len) as [Hpos|Hz].
    + assert (Hhalf : (len / 2 < len)%nat) by (apply Nat.div_lt; lia).
      destruct (val <? at_ v (first + len / 2))%float eqn:E.
      * apply IH; try lia; [exact Hlo|].
        intros i Hi. destruct (Nat.eq_dec i (first + len / 2)%nat) as [->|Hne]; [exact E|].
        destruct (Nat.lt_ge_cases i (first + len)) as [Hlt|Hge]; [|apply Hhi; lia].
        eapply ltb_leb_trans; [exact E|]. apply ascendingTimes_at; [exact Hs | lia | lia].
      * apply IH; try lia.
        -- intros i Hi. destruct (Nat.eq_dec i (first + len / 2)%nat) as [->|Hne]; [exact E|].
           destruct (Nat.lt_ge_cases i first) as [Hlt|Hge]; [apply Hlo; exact Hlt|].
           destruct (val <? at_ v i)%float eqn:Ei; [|reflexivity].
           rewrite <- E. symmetry. eapply ltb_leb_trans; [exact Ei|].
           apply ascendingTimes_at; [exact Hs | lia | lia].
        -- intros i Hi. apply Hhi. lia.
    + replace len with 0%nat in * by lia.
      repeat split; [lia | exact Hlo|]. intros i Hi. apply Hhi. lia.
Qed.

Lemma scanLoop_from (fuel : nat) (srcT : list double) (limit : nat) (targetT : double)
    (cur : nat) (minDiff : double) (best : nat) :
  (best <= cur)%nat -> (best <= scanLoop fuel srcT limit targetT cur minDiff best)%nat.
Proof.
  revert cur minDiff best. induction fuel as [|fuel IH]; intros cur minDiff best Hb; simpl.
  - lia.
  - destruct (_ <? limit)%nat; [|lia]. destruct (_ <? _)%float; [|lia].
    specialize (IH (S cur) (abs (at_ srcT cur - targetT)) cur). lia.
Qed.

Lemma customStep_fold_window (P : DataPoint -> Prop) (count : Z)
    (subMin logMin step : double) (idxStart idxEnd : nat) (srcT srcP srcD : list double) :
  (forall k, (idxStart <= k < idxEnd)%nat -> P (pickPoint srcT srcP srcD k)) ->
  forall (l : list nat) (st : nat * list DataPoint),
    (idxStart <= fst st < idxEnd)%nat -> Forall P (snd st) ->
    Forall P (snd (fold_left (customStep count subMin logMin step idxEnd srcT srcP srcD) l st)).
Proof.
  intros HP. induction l as [|i l IH]; intros st Hc Hs; simpl; [exact Hs|].
  assert (Hb : forall targetT,
            (idxStart <= nearestIndex srcT idxEnd targetT (fst st) < idxEnd)%nat).
  { intros targetT. split.
    - unfold nearestIndex.
      pose proof (scanLoop_from (S (idxEnd - fst st)) srcT idxEnd targetT (fst st) 1e30%float
                    (fst st) (Nat.le_refl _)). lia.
    - apply nearestIndex_range. lia. }
  apply IH; unfold customStep; cbn [fst snd]; [apply Hb|].
  destruct (_ <? length srcT)%nat; [|exact Hs].
  apply Forall_app. split; [exact Hs|]. constructor; [|constructor]. apply HP, Hb.
Qed.

(** Custom sampling of ascending source times: every returned time lies in
    the window of one of the intervals with a positive count, that is, it is
    neither below that interval's [tStart] nor above its [tEnd]. *)
Theorem custom_points_within_windows (self : FittingCore) (srcT srcP srcD : list double) :
  m_isCustomSamplingEnabled self = true ->
  m_customIntervals self <> [] ->
  ascendingTimes srcT ->
  let out := getLogSampledData self srcT srcP srcD in
  forall i, (i < length (fst (fst out)))%nat ->
    exists interval, In interval (m_customIntervals self)
      /\ 0 < SamplingInterval.count interval
      /\ inWindow interval (at_ (fst (fst out)) i).
Proof.
  intros Hmode Hne Hs out i Hi.
  set (P := fun pt : DataPoint =>
              exists interval, In interval (m_customIntervals self)
                /\ 0 < SamplingInterval.count interval
                /\ inWindow interval (DataPoint.t pt)).
  assert (Hpts : Forall P (customPoints (m_customIntervals self) srcT srcP srcD)).
  { unfold customPoints.
    assert (G : forall ivs acc, (forall iv, In iv ivs -> In iv (m_customIntervals self)) ->
                  Forall P acc -> Forall P (fold_left (customInterval srcT srcP srcD) ivs acc)).
    { induction ivs as [|iv ivs IH]; intros acc Hin Hacc; simpl; [exact Hacc|].
      apply IH; [intros iv' Hiv'; apply Hin; right; exact Hiv'|].
      unfold customInterval.
      destruct (Z.leb_spec (SamplingInterval.count iv) 0) as [Hc|Hc]; [exact Hacc|].
      destruct (Nat.leb_spec (length srcT) (lower_bound srcT (SamplingInterval.tStart iv)))
        as [H1|H1]; [exact Hacc|].
      destruct (Nat.leb_spec (upper_bound srcT (SamplingInterval.tEnd iv))
                             (lower_bound srcT (SamplingInterval.tStart iv)))
        as [H2|H2]; [exact Hacc|].
      cbn [orb].
      apply (customStep_fold_window P _ _ _ _
               (lower_bound srcT (SamplingInterval.tStart iv))); [|cbn [fst]; lia | exact Hacc].
      intros k Hk. exists iv. split; [apply Hin; left; reflexivity|]. split; [exact Hc|].
      unfold inWindow, pickPoint. cbn [DataPoint.t].
      destruct (lower_bound_loop_spec srcT (SamplingInterval.tStart iv) (length srcT) 0
                  (length srcT) Hs (Nat.le_refl _) (Nat.le_refl _))
        as [_ [_ Hlo]]; [intros j Hj; lia | intros j Hj; lia|].
      destruct (upper_bound_loop_spec srcT (SamplingInterval.tEnd iv) (length srcT) 0
                  (length srcT) Hs (Nat.le_refl _) (Nat.le_refl _))
        as [Hup [Hhi _]]; [intros j Hj; lia | intros j Hj; lia|].
      fold (lower_bound srcT (SamplingInterval.tStart iv)) in Hlo.
      fold (upper_bound srcT (SamplingInterval.tEnd iv)) in Hup, Hhi.
      split; [apply Hlo; lia | apply Hhi; lia]. }
    apply G; [auto | constructor]. }
  subst out. unfold getLogSampledData in *. rewrite Hmode in *. cbn [negb] in *.
  destruct srcT as [|t0 srcT']; [simpl in Hi; lia|].
  destruct (m_customIntervals self) as [|iv ivs] eqn:Eiv; [congruence|].
  unfold finishPoints in *. cbn [fst snd] in *. rewrite length_map in Hi.
  assert (Hu : Forall P (std_unique (std_sort (customPoints (iv :: ivs) (t0 :: srcT') srcP srcD)))).
  { pose proof (std_sort_Forall _ _ Hpts) as Hsorted.
    destruct (std_sort _) as [|x l]; [constructor|].
    apply Forall_cons_iff in Hsorted as [Hx Hl]. cbn [std_unique].
    apply uniqueFrom_Forall; assumption. }
  set (dflt := DataPoint.mk 0%float 0%float 0%float).
  unfold at_. change 0%float with (DataPoint.t dflt). rewrite map_nth.
  rewrite Forall_forall in Hu. apply Hu, list_elem_of_In, nth_In. exact Hi.
Qed.

(** ** Doubles: products, NaN and sign *)

Lemma mul_comm (x y : double) : (x * y = y * x)%float.
Proof.
  apply Prim2SF_inj. rewrite !mul_spec. unfold SF64mul, SFmul.
  destruct (Prim2SF x) as [sx|sx| |sx mx ex], (Prim2SF y) as [sy|sy| |sy my ey];
    try reflexivity; rewrite ?(xorb_comm sx sy); try reflexivity.
  rewrite (Pos.mul_comm mx my), (Z.add_comm ex ey). reflexivity.
Qed.

Lemma is_nan_true (x : double) : is_nan x = true <-> Prim2SF x = S754_nan.
Proof.
  split; intros H.
  - destruct (Prim2SF x) eqn:E; try reflexivity; exfalso;
      (assert (Hn : is_nan x = false) by (apply is_nan_Prim2SF; rewrite E; discriminate));
      congruence.
  - destruct (is_nan x) eqn:E; [reflexivity|]. apply is_nan_Prim2SF in E. contradiction.
Qed.

Lemma add_nan (x y : double) :
  is_nan x = true \/ is_nan y = true -> is_nan (x + y) = true.
Proof.
  intros H. apply is_nan_true. rewrite add_spec. unfold SF64add, SFadd.
  destruct H as [H|H]; apply is_nan_true in H; rewrite H; [reflexivity|].
  destruct (Prim2SF x); reflexivity.
Qed.

Lemma mul_nan (x : double) : is_nan x = true -> is_nan (x * x) = true.
Proof.
  intros H. apply is_nan_true. rewrite mul_spec. apply is_nan_true in H. rewrite H. reflexivity.
Qed.

Lemma div_nan (x y : double) : is_nan x = true -> is_nan (x / y) = true.
Proof.
  intros H. apply is_nan_true. rewrite div_spec. apply is_nan_true in H. rewrite H. reflexivity.
Qed.

Lemma ltb_nan_l (x y : double) : is_nan x = true -> (x <? y)%float = false.
Proof.
  intros H. rewrite ltb_spec. apply is_nan_true in H. rewrite H. reflexivity.
Qed.

Lemma ltb_nan_r (x y : double) : is_nan y = true -> (x <? y)%float = false.
Proof.
  intros H. rewrite ltb_spec. apply is_nan_true in H. rewrite H.
  unfold SFltb, SFcompare. destruct (Prim2SF x); reflexivity.
Qed.

(** A double that is not below zero: NaN, a zero, or positive. *)
Lemma not_negative_spec (x : double) :
  sf_not_negative (Prim2SF x) = true -> (x <? 0)%float = false.
Proof.
  intros H. rewrite ltb_spec. change (Prim2SF 0) with (S754_zero false).
  destruct (Prim2SF x) as [s|[]| |[] m e]; try discriminate H; reflexivity.
Qed.

Lemma binary_round_aux_sign (sx : bool) (mx ex : Z) (lx : location) :
  sx = false -> sf_not_negative (binary_round_aux prec emax sx mx ex lx) = true.
Proof.
  intros ->. unfold binary_round_aux.
  destruct (shr_fexp prec emax mx ex lx) as [mrs' e'].
  destruct (shr_fexp prec emax _ e' loc_Exact) as [mrs'' e''].
  destruct (shr_m mrs''); [reflexivity | | reflexivity].
  destruct (_ <=? _); reflexivity.
Qed.

Lemma square_not_negative (v : double) : sf_not_negative (Prim2SF (v * v)) = true.
Proof.
  rewrite mul_spec. unfold SF64mul, SFmul.
  destruct (Prim2SF v) as [s|s| |s m e]; try reflexivity.
  - destruct s; reflexivity.
  - apply binary_round_aux_sign. destruct s; reflexivity.
Qed.

Lemma add_not_negative (x y : double) :
  sf_not_negative (Prim2SF x) = true -> sf_not_negative (Prim2SF y) = true ->
  sf_not_negative (Prim2SF (x + y)) = true.
Proof.
  rewrite add_spec. unfold SF64add, SFadd.
  destruct (Prim2SF x) as [sx|sx| |sx mx ex], (Prim2SF y) as [sy|sy| |sy my ey];
    intros Hx Hy; try reflexivity; try assumption.
  - destruct sx, sy; reflexivity.
  - destruct sx, sy; try reflexivity; discriminate.
  - destruct sx; [discriminate Hx|]. destruct sy; [discriminate Hy|].
    cbn [cond_Zopp]. unfold binary_normalize.
    match goal with |- context [(Z.pos ?a + Z.pos ?b)] =>
      change (Z.pos a + Z.pos b) with (Z.pos (a + b)) end.
    unfold binary_round.
    destruct (shl_align _ _ _) as [mz ez] eqn:E. destruct (shl_align (_ + _) _ _) as [mz' ez'].
    apply binary_round_aux_sign. reflexivity.
Qed.

Lemma calculateSumSquaredError_not_negative (r : list double) :
  (calculateSumSquaredError r <? 0)%float = false.
Proof.
  apply not_negative_spec. unfold calculateSumSquaredError.
  apply fold_left_invariant; [reflexivity|].
  intros a b Ha. apply add_not_negative; [exact Ha | apply square_not_negative].
Qed.

Lemma calculateSumSquaredError_nan (r : list double) (v : double) :
  In v r -> is_nan v = true -> is_nan (calculateSumSquaredError r) = true.
Proof.
  unfold calculateSumSquaredError. generalize 0%float.
  induction r as [|x r IH]; intros acc Hin Hv; [destruct Hin|].
  simpl. destruct Hin as [->|Hin]; [|apply IH; assumption].
  apply (fold_left_invariant (fun a => is_nan a = true)).
  - apply add_nan. right. apply mul_nan. exact Hv.
  - intros a b Ha. apply add_nan. left. exact Ha.
Qed.

(** ** The normal equations *)

Lemma lowerEntry_comm (J : list (list double)) (nRes i j : nat) :
  lowerEntry J nRes i j = lowerEntry J nRes j i.
Proof.
  unfold lowerEntry. generalize 0%float.
  induction (seq 0 nRes) as [|k l IH]; intros acc; [reflexivity|].
  simpl. rewrite (mul_comm (at2 J k i) (at2 J k j)). apply IH.
Qed.

(** Lines 212-225: after the mirror loop [H] is the whole of [J^T J], every
    entry, above the diagonal too, being the sum of [J[k][i] * J[k][j]] over
    the residuals in index order; so [H] is symmetric, and so is the damped
    matrix handed to the solver. *)
Theorem hessian_is_JtJ (J : list (list double)) (nRes nParams i j : nat) (lam : double) :
  (i < nParams)%nat -> (j < nParams)%nat ->
  at2 (hessian J nRes nParams) i j = lowerEntry J nRes i j
  /\ at2 (hessian J nRes nParams) i j = at2 (hessian J nRes nParams) j i
  /\ at2 (dampedHessian lam (hessian J nRes nParams) nParams) i j
     = at2 (dampedHessian lam (hessian J nRes nParams) nParams) j i.
Proof.
  intros Hi Hj.
  assert (E : forall a b, (a < nParams)%nat -> (b < nParams)%nat ->
                at2 (hessian J nRes nParams) a b = lowerEntry J nRes a b).
  { intros a b Ha Hb. unfold hessian, at2, at_.
    rewrite (nth_map_seq _ nParams a) by exact Ha.
    rewrite (nth_map_seq _ nParams b) by exact Hb.
    destruct (b <=? a)%nat; [reflexivity | apply lowerEntry_comm]. }
  assert (S : at2 (hessian J nRes nParams) i j = at2 (hessian J nRes nParams) j i).
  { rewrite !E by assumption. apply lowerEntry_comm. }
  split; [apply E; assumption|]. split; [exact S|].
  rewrite !(dampedHessian_entry lam _ nParams) by (try apply hessian_square; assumption).
  destruct (Nat.eqb_spec i j) as [->|Hne].
  - rewrite Nat.eqb_refl. reflexivity.
  - destruct (Nat.eqb_spec j i) as [->|_]; [congruence | exact S].
Qed.

(** ** The Jacobian: shape and cost *)

Lemma computeColumn_evaluations (prm : ParamMap) (base : list double) (fitIndices : list nat)
    (mt : ModelType) (fps : list FitParameter) (w : double) (t obsP obsD : list double)
    (j : nat) (hp : bool) :
  let pName := FitParameter.name (nth (nth j fitIndices 0%nat) fps defaultFitParameter) in
  events (computeColumn prm base fitIndices mt fps w t obsP obsD j hp)
  = match t with
    | [] => []
    | _ :: _ => [EvEvaluate (perturbed prm pName true) (Some t);
                 EvEvaluate (perturbed prm pName false) (Some t)]
    end.
Proof.
  cbv zeta. rewrite computeColumn_run. unfold events. cbn [snd].
  rewrite !calculateResiduals_run. cbn [snd]. destruct t; reflexivity.
Qed.

(** [computeJacobian] returns one row per base residual and one entry per
    free parameter in every row, whatever the evaluator returns; on a
    non-empty grid its calls are, up to their order, two evaluator calls per
    free parameter (on the grid, with the plus and the minus map of that
    parameter), so [2 * nParams] calls in all, and on an empty grid none; it
    calls nothing else and leaves the precision flag alone. *)
Theorem computeJacobian_shape_and_cost (prm : ParamMap) (base : list double)
    (fitIndices : list nat) (mt : ModelType) (fps : list FitParameter) (w : double)
    (t obsP obsD : list double) (hp : bool) :
  let r := computeJacobian prm base fitIndices mt fps w t obsP obsD hp in
  let name j := FitParameter.name (nth (nth j fitIndices 0%nat) fps defaultFitParameter) in
  length (result r) = length base
  /\ Forall (fun row => length row = length fitIndices) (result r)
  /\ Permutation (events r)
       (concat (map (fun j => match t with
                               | [] => []
                               | _ :: _ => [EvEvaluate (perturbed prm (name j) true) (Some t);
                                            EvEvaluate (perturbed prm (name j) false) (Some t)]
                               end)
                     (seq 0 (length fitIndices))))
  /\ length (events r) = (if (length t =? 0)%nat then 0 else 2 * length fitIndices)%nat
  /\ snd (fst r) = hp.
Proof.
  intros r name. subst r. unfold computeJacobian, mbind, M_bind, bind.
  rewrite mapM_run.
  2:{ intros x hp'. rewrite computeColumn_run. reflexivity. }
  unfold_M. cbn [fst snd]. rewrite app_nil_r.
  assert (Ev : concat (map (fun x => snd (computeColumn prm base fitIndices mt fps w
                                            t obsP obsD x hp))
                           (seq 0 (length fitIndices)))
               = concat (map (fun j => match t with
                             | [] => []
                             | _ :: _ => [EvEvaluate (perturbed prm (name j) true) (Some t);
                                          EvEvaluate (perturbed prm (name j) false) (Some t)]
                             end)
                   (seq 0 (length fitIndices)))).
  { f_equal. apply map_ext. intros j.
    apply (computeColumn_evaluations prm base fitIndices mt fps w t obsP obsD j hp). }
  split; [rewrite length_map, length_seq; reflexivity|].
  split.
  { apply Forall_forall. intros row Hrow. apply list_elem_of_In, in_map_iff in Hrow.
    destruct Hrow as [i [<- _]]. rewrite length_map, length_seq. reflexivity. }
  split; [rewrite Ev; reflexivity|]. split; [|reflexivity].
  rewrite Ev.
  assert (L : forall n a,
            length (concat (map (fun j => match t with
                             | [] => []
                             | _ :: _ => [EvEvaluate (perturbed prm (name j) true) (Some t);
                                          EvEvaluate (perturbed prm (name j) false) (Some t)]
                             end) (seq a n)))
            = (if (length t =? 0)%nat then 0 else 2 * n)%nat).
  { induction n as [|n IH]; intros a.
    - simpl. destruct (length t =? 0)%nat; reflexivity.
    - cbn [seq map concat]. rewrite length_app, IH.
      destruct t; simpl; lia. }
  apply L.
Qed.

(** ** A trial that cannot be accepted *)

Lemma tryStep_rejected (s : Session ModelType) (H : list (list double)) (g : list double)
    (nRes : nat) (st : LMState) (hp : bool) :
  (snd (result (buildTrial s H g st hp)) <? currentSSE st)%float = false ->
  tryStep s H g nRes st hp
  = (false, mkLMState (lambda st * 10.0) (currentSSE st) (currentParamMap st) (residuals st),
     hp, events (buildTrial s H g st hp) ++ []).
Proof.
  intros Hrej. rewrite tryStep_run.
  rewrite buildTrial_run in Hrej. unfold result at 1 in Hrej. cbn [fst snd] in Hrej.
  rewrite Hrej. reflexivity.
Qed.

(** The acceptance test [newSSE < currentSSE] is false as soon as a NaN is
    involved: a trial whose residual vector holds a NaN is rejected, and once
    the current sum of squares is NaN every trial is.  The rejection changes
    [lambda] alone and emits no snapshot. *)
Theorem nan_trial_is_rejected (s : Session ModelType) (H : list (list double))
    (g : list double) (nRes : nat) (st : LMState) (hp : bool) :
  (exists v, In v (snd (fst (result (buildTrial s H g st hp)))) /\ is_nan v = true)
  \/ is_nan (currentSSE st) = true ->
  let r := tryStep s H g nRes st hp in
  result r = (false, mkLMState (lambda st * 10.0) (currentSSE st) (currentParamMap st)
                               (residuals st))
  /\ List.filter isIterationUpdated (events r) = [].
Proof.
  intros Hnan r. subst r.
  assert (Hrej : (snd (result (buildTrial s H g st hp)) <? currentSSE st)%float = false).
  { destruct Hnan as [[v [Hin Hv]]|Hc]; [|apply ltb_nan_r; exact Hc].
    apply ltb_nan_l. rewrite buildTrial_run in *. unfold result at 1.
    unfold result at 1 in Hin. cbn [fst snd] in *.
    apply (calculateSumSquaredError_nan _ v); assumption. }
  rewrite (tryStep_rejected _ _ _ _ _ _ Hrej). split; [reflexivity|].
  unfold events. cbn [snd]. rewrite app_nil_r.
  apply (proj1 (buildTrial_events_signals s H g st hp)).
Qed.

(** ** The session as a whole *)

Lemma lmLoop_flag (s : Session ModelType) (left : nat) (iter : Z) (st : LMState) (hp : bool) :
  snd (fst (lmLoop left s iter st hp)) = hp.
Proof.
  apply (lmLoop_events s (fun _ => true) (fun _ => True)); auto.
Qed.

(** The driver with at least one free parameter, written out: the baseline,
    the loop at low precision, and the final snapshot at high precision. *)
Lemma runLM_run (self : FittingCore) (mt : ModelType) (prms : list FitParameter)
    (w : double) (hp : bool) :
  freeIndices prms <> [] ->
  let s := sessionOf self mt prms w in
  let st0 := baselineState s in
  let loop := lmLoop 50 s 0 st0 false in
  runLevenbergMarquardtOptimization self mt prms w hp
  = (tt, true,
     [EvSetHighPrecision false]
     ++ events (calculateResiduals (currentParamMap st0) mt w (fitT s) (fitP s) (fitD s) false)
     ++ snapshotOf s st0 false
     ++ events loop
     ++ [EvSetHighPrecision true]
     ++ snapshotOf s (result loop) true).
Proof.
  intros Hfree s st0 loop. unfold sessionOf in s.
  unfold runLevenbergMarquardtOptimization.
  destruct (length (freeIndices prms)) as [|n] eqn:El;
    [apply length_zero_iff_nil in El; congruence|].
  destruct (getLogSampledData self (m_obsTime self) (m_obsDeltaP self) (m_obsDerivative self))
    as [[fT fP] fD].
  cbn [fst snd] in s.
  unfold mbind, M_bind, bind. unfold setHighPrecision at 1. cbv beta iota zeta.
  destruct (calculateResiduals (projectInitial (initialParamMap prms)) mt w fT fP fD false)
    as [[r0 hp0] e0] eqn:E0.
  assert (Hhp0 : hp0 = false).
  { rewrite calculateResiduals_run in E0. injection E0 as _ <- _. reflexivity. }
  subst hp0.
  unfold evaluate at 1. cbv beta iota zeta. unfold emit at 1. cbv beta iota zeta.
  assert (Est : mkLMState 0.01 (calculateSumSquaredError r0)
                          (projectInitial (initialParamMap prms)) r0 = st0).
  { subst st0 s. unfold baselineState. cbn [params modelType weight fitT fitP fitD].
    rewrite E0. reflexivity. }
  cbn [currentParamMap currentSSE residuals]. rewrite Est.
  match goal with
  | |- context [lmLoop 50 ?sess 0 ?st false] =>
      change (lmLoop 50 sess 0 st false) with loop
  end.
  pose proof (lmLoop_flag s 50 0 st0 false) as Hflag. fold loop in Hflag.
  assert (Ecur : currentParamMap st0 = projectInitial (initialParamMap prms))
    by (rewrite <- Est; reflexivity).
  assert (Esse : currentSSE st0 = calculateSumSquaredError r0)
    by (rewrite <- Est; reflexivity).
  assert (Eres : residuals st0 = r0) by (rewrite <- Est; reflexivity).
  cbn [fitT fitP fitD s]. unfold snapshotOf. rewrite Ecur, Esse, Eres, E0.
  clearbody loop. destruct loop as [[stF hpF] eF]. cbn [fst snd] in Hflag. subst hpF.
  unfold setHighPrecision, evaluate, emit, result, events. cbn [fst snd modelType s].
  rewrite <- ?app_assoc. reflexivity.
Qed.

Lemma lmIteration_run (s : Session ModelType) (iter : Z) (st : LMState) (hp : bool) :
  let fitIndices := freeIndices (params s) in
  let nParams := length fitIndices in
  let jac := computeJacobian (currentParamMap st) (residuals st) fitIndices (modelType s)
               (params s) (weight s) (fitT s) (fitP s) (fitD s) hp in
  let nRes := length (residuals st) in
  let search := innerSearch 5 s (hessian (result jac) nRes nParams)
                  (gradient (result jac) (residuals st) nRes nParams) nRes st hp in
  lmIteration s iter st hp
  = (result search, snd (fst search),
     [SigProgress (iter * 100 / 50)] ++ events jac ++ events search).
Proof.
  intros fitIndices nParams jac nRes search.
  unfold lmIteration, mbind, M_bind, bind, emit. cbv beta iota zeta.
  fold fitIndices. fold nParams.
  pose proof (proj2 (computeJacobian_quiet (currentParamMap st) (residuals st) fitIndices
                       (modelType s) (params s) (weight s) (fitT s) (fitP s) (fitD s) hp))
    as Hhp.
  fold jac in Hhp |- *. subst search nRes. unfold result at 1 2 3, events at 1.
  destruct jac as [[J hpJ] eJ]. cbn [fst snd] in *. subst hpJ.
  unfold result, events. destruct (innerSearch 5 s _ _ _ st hp) as [[r hp2] e2].
  reflexivity.
Qed.

Lemma progressValues_app (a b : list Event) :
  progressValues (a ++ b) = progressValues a ++ progressValues b.
Proof. unfold progressValues. apply flat_map_app. Qed.

Lemma progressValues_none (evs : list Event) :
  forallb (fun e => negb (isProgress e)) evs = true -> progressValues evs = [].
Proof.
  induction evs as [|e evs IH]; [reflexivity|]. simpl. intros H.
  apply andb_true_iff in H as [He Hl]. rewrite (IH Hl). destruct e; try reflexivity.
  discriminate He.
Qed.

Lemma quiet_no_progress (evs : list Event) :
  forallb quiet evs = true -> forallb (fun e => negb (isProgress e)) evs = true.
Proof.
  rewrite !forallb_forall. intros H e He. specialize (H e He). destruct e; try reflexivity.
  discriminate H.
Qed.

Lemma quiet_no_snapshot (evs : list Event) :
  forallb quiet evs = true -> List.filter isIterationUpdated evs = [].
Proof.
  induction evs as [|e evs IH]; [reflexivity|]. simpl. intros H.
  apply andb_true_iff in H as [He Hl]. rewrite (IH Hl). destruct e; try reflexivity.
  discriminate He.
Qed.

Lemma innerSearch_no_progress (tries : nat) (s : Session ModelType) (H : list (list double))
    (g : list double) (nRes : nat) (st : LMState) (hp : bool) :
  progressValues (events (innerSearch tries s H g nRes st hp)) = [].
Proof.
  apply progressValues_none.
  apply (innerSearch_events s (fun e => negb (isProgress e)) (fun _ => True)); auto.
  intros [] Hq; try reflexivity; discriminate Hq.
Qed.

Lemma tryStep_snapshots (s : Session ModelType) (H : list (list double)) (g : list double)
    (nRes : nat) (st : LMState) (hp : bool) :
  length (List.filter isIterationUpdated (events (tryStep s H g nRes st hp)))
  = if fst (result (tryStep s H g nRes st hp)) then 1%nat else 0%nat.
Proof.
  rewrite tryStep_run.
  pose proof (proj1 (buildTrial_events_signals s H g st hp)) as Hn.
  unfold result, events in *.
  destruct (_ <? _)%float; cbn [fst snd]; rewrite List.filter_app, Hn; reflexivity.
Qed.

Lemma innerSearch_snapshots (tries : nat) (s : Session ModelType) (H : list (list double))
    (g : list double) (nRes : nat) (st : LMState) (hp : bool) :
  length (List.filter isIterationUpdated (events (innerSearch tries s H g nRes st hp)))
  = if fst (result (innerSearch tries s H g nRes st hp)) then 1%nat else 0%nat.
Proof.
  revert st. induction tries as [|tries IH]; intros st; [reflexivity|].
  cbn [innerSearch]. unfold mbind, M_bind, bind.
  pose proof (tryStep_snapshots s H g nRes st hp) as H1.
  pose proof (proj2 (tryStep_solves s H g nRes st hp)) as H2.
  unfold result, events in *.
  destruct (tryStep s H g nRes st hp) as [[[acc st'] hp1] e1]. cbn [fst snd] in *. subst hp1.
  destruct acc.
  - unfold_M. cbn [fst snd]. rewrite app_nil_r. exact H1.
  - specialize (IH st'). unfold result, events in IH.
    destruct (innerSearch tries s H g nRes st' hp) as [[[acc2 st2] hp2] e2].
    cbn [fst snd] in *. rewrite List.filter_app, length_app, H1, IH. reflexivity.
Qed.

Lemma computeJacobian_no_solve (prm : ParamMap) (base : list double) (fitIndices : list nat)
    (mt : ModelType) (fps : list FitParameter) (w : double) (t obsP obsD : list double)
    (hp : bool) :
  List.filter isSolve (events (computeJacobian prm base fitIndices mt fps w t obsP obsD hp))
  = [].
Proof.
  unfold computeJacobian, mbind, M_bind, bind. rewrite mapM_run.
  2:{ intros x hp'. rewrite computeColumn_run. reflexivity. }
  unfold_M. cbn [fst snd]. rewrite app_nil_r.
  induction (seq 0 (length fitIndices)) as [|j l IH]; [reflexivity|].
  cbn [map concat]. rewrite List.filter_app, IH, app_nil_r.
  pose proof (computeColumn_evaluations prm base fitIndices mt fps w t obsP obsD j hp) as E.
  cbv zeta in E. unfold events in E. rewrite E. destruct t; reflexivity.
Qed.

Lemma lmIteration_signals (s : Session ModelType) (iter : Z) (st : LMState) (hp : bool) :
  let r := lmIteration s iter st hp in
  progressValues (events r) = [iter * 100 / 50]
  /\ (length (List.filter isIterationUpdated (events r)) <= 1)%nat
  /\ (length (List.filter isSolve (events r)) <= 5)%nat
  /\ snd (fst r) = hp.
Proof.
  cbv zeta. rewrite lmIteration_run. cbv zeta. unfold events at 1 4 7. cbn [fst snd].
  match goal with
  | |- context [computeJacobian ?a ?b ?c ?d ?e ?f ?g ?h ?i hp] =>
      destruct (computeJacobian_quiet a b c d e f g h i hp) as [Hq Hhp];
      set (jac := computeJacobian a b c d e f g h i hp) in *
  end.
  match goal with
  | |- context [innerSearch 5 s ?H ?g ?n st hp] =>
      pose proof (innerSearch_no_progress 5 s H g n st hp) as Hp;
      pose proof (innerSearch_snapshots 5 s H g n st hp) as Hs;
      destruct (innerSearch_solves 5 s H g n st hp) as [Hso Hf];
      set (search := innerSearch 5 s H g n st hp) in *
  end.
  repeat split.
  - rewrite !progressValues_app, Hp, (progressValues_none _ (quiet_no_progress _ Hq)).
    reflexivity.
  - rewrite !List.filter_app, !length_app, (quiet_no_snapshot _ Hq), Hs.
    destruct (fst (result search)); simpl; lia.
  - rewrite !List.filter_app, !length_app.
    subst jac. rewrite computeJacobian_no_solve. simpl. lia.
  - exact Hf.
Qed.

Lemma lmLoop_signals (s : Session ModelType) (left : nat) (iter : Z) (st : LMState)
    (hp : bool) :
  exists n, (n <= left)%nat
    /\ progressValues (events (lmLoop left s iter st hp))
       = map (fun k => (iter + Z.of_nat k) * 100 / 50) (seq 0 n)
    /\ (length (List.filter isIterationUpdated (events (lmLoop left s iter st hp))) <= n)%nat
    /\ (length (List.filter isSolve (events (lmLoop left s iter st hp))) <= 5 * n)%nat.
Proof.
  revert iter st. induction left as [|left IH]; intros iter st.
  - exists 0%nat. simpl. repeat split; lia.
  - cbn [lmLoop].
    destruct (stopRequested iter); [exists 0%nat; simpl; repeat split; lia|].
    destruct (converged st); [exists 0%nat; simpl; repeat split; lia|].
    unfold mbind, M_bind, bind.
    destruct (lmIteration_signals s iter st hp) as [H1 [H2 [H3 H4]]].
    unfold events in H1, H2, H3.
    destruct (lmIteration s iter st hp) as [[[acc st'] hp1] e1]. cbn [fst snd] in *.
    subst hp1.
    destruct (negb acc && _).
    + exists 1%nat. unfold_M. cbn [fst snd]. rewrite app_nil_r, H1.
      repeat split; try lia. simpl. rewrite Z.add_0_r. reflexivity.
    + destruct (IH (iter + 1) st') as [n [Hn [P1 [P2 P3]]]].
      unfold events in P1, P2, P3.
      destruct (lmLoop left s (iter + 1) st' hp) as [[st2 hp2] e2]. cbn [fst snd] in *.
      exists (S n). unfold events. cbn [snd].
      rewrite progressValues_app, !List.filter_app, !length_app, H1, P1.
      repeat split; try lia.
      cbn [seq map app]. rewrite Z.add_0_r. f_equal.
      rewrite <- seq_shift, map_map. apply map_ext. intros k. f_equal. f_equal. lia.
Qed.

Lemma filter_cons_false {A : Type} (f : A -> bool) (a : A) (l : list A) :
  f a = false -> List.filter f (a :: l) = List.filter f l.
Proof. intros H. simpl. rewrite H. reflexivity. Qed.

Lemma calculateResiduals_events (prm : ParamMap) (mt : ModelType) (w : double)
    (t obsP obsD : list double) (hp : bool) :
  events (calculateResiduals prm mt w t obsP obsD hp)
  = match t with [] => [] | _ :: _ => [EvEvaluate prm (Some t)] end.
Proof. rewrite calculateResiduals_run. reflexivity. Qed.

(** The progress signals of a session carry [0, 2, 4, ...]: the [k]-th one
    (from 0) carries [2 k], there are at most 50 of them, so none reaches
    100.  Each iteration adds at most one snapshot and at most five solver
    calls, so a session emits at most [n + 2] snapshots and calls the solver
    at most [5 n] times, [n] being the number of its progress signals. *)
Theorem progress_signals_count_iterations (self : FittingCore) (mt : ModelType)
    (prms : list FitParameter) (w : double) (hp : bool) :
  let evs := events (runLevenbergMarquardtOptimization self mt prms w hp) in
  exists n, (n <= 50)%nat
    /\ progressValues evs = map (fun k => 2 * Z.of_nat k) (seq 0 n)
    /\ Forall (fun percent => 0 <= percent <= 98) (progressValues evs)
    /\ (length (List.filter isIterationUpdated evs) <= n + 2)%nat
    /\ (length (List.filter isSolve evs) <= 5 * n)%nat.
Proof.
  intros evs.
  destruct (freeIndices prms) as [|i0 rest] eqn:Efree.
  - exists 0%nat. subst evs. unfold runLevenbergMarquardtOptimization. rewrite Efree.
    simpl. repeat split; try lia. constructor.
  - assert (Hfree : freeIndices prms <> []) by congruence.
    set (s := sessionOf self mt prms w). set (st0 := baselineState s).
    assert (E : evs = [EvSetHighPrecision false] ++
                    events (calculateResiduals (currentParamMap st0) mt w
                              (fitT s) (fitP s) (fitD s) false) ++
                    snapshotOf s st0 false ++
                    events (lmLoop 50 s 0 st0 false) ++
                    [EvSetHighPrecision true] ++
                    snapshotOf s (result (lmLoop 50 s 0 st0 false)) true).
    { subst evs. rewrite (runLM_run self mt prms w hp Hfree). reflexivity. }
    clearbody evs. subst evs.
    destruct (lmLoop_signals s 50 0 st0 false) as [n [Hn [P1 [P2 P3]]]].
    exists n.
    assert (Ep : progressValues
                   ([EvSetHighPrecision false] ++
                    events (calculateResiduals (currentParamMap st0) mt w
                              (fitT s) (fitP s) (fitD s) false) ++
                    snapshotOf s st0 false ++
                    events (lmLoop 50 s 0 st0 false) ++
                    [EvSetHighPrecision true] ++
                    snapshotOf s (result (lmLoop 50 s 0 st0 false)) true)
                 = map (fun k => 2 * Z.of_nat k) (seq 0 n)).
    { rewrite !progressValues_app, P1, calculateResiduals_events.
      destruct (fitT s); cbn [progressValues flat_map snapshotOf app];
        rewrite app_nil_r; apply map_ext; intros k;
        rewrite Z.add_0_l; replace (Z.of_nat k * 100) with (2 * Z.of_nat k * 50) by lia;
        apply Z.div_mul; lia. }
    split; [exact Hn|]. split; [exact Ep|]. split.
    { rewrite Ep. apply Forall_forall. intros x Hx.
      apply list_elem_of_In, in_map_iff in Hx. destruct Hx as [k [<- Hk]].
      apply in_seq in Hk. lia. }
    rewrite !List.filter_app, !length_app, calculateResiduals_events.
    split.
    + destruct (fitT s); cbn [List.filter isIterationUpdated snapshotOf length]; lia.
    + destruct (fitT s); cbn [List.filter isSolve snapshotOf length]; lia.
Qed.

Lemma filter_none {A : Type} (f : A -> bool) (l : list A) :
  forallb (fun x => negb (f x)) l = true -> List.filter f l = [].
Proof.
  induction l as [|x l IH]; [reflexivity|]. simpl. intros H.
  apply andb_true_iff in H as [Hx Hl]. apply negb_true_iff in Hx. rewrite Hx. apply IH, Hl.
Qed.

Lemma lmLoop_no_precision_call (s : Session ModelType) (left : nat) (iter : Z)
    (st : LMState) (hp : bool) :
  List.filter isSetHighPrecision (events (lmLoop left s iter st hp)) = [].
Proof.
  apply filter_none.
  apply (lmLoop_events s (fun e => negb (isSetHighPrecision e)) (fun _ => True)); auto.
  intros [] Hq; try reflexivity; discriminate Hq.
Qed.

(** The precision of the model manager over a session.  Without a free
    parameter the worker switches to low precision and returns: the manager
    is left at low precision.  With one, the worker switches to low
    precision first and to high precision once, after the loop; what follows
    that switch is exactly the evaluation of the full curve of the final map
    and the final snapshot carrying that curve, so the final curve is the
    only one computed at high precision, and the manager ends at high
    precision. *)
Theorem precision_over_a_session (self : FittingCore) (mt : ModelType)
    (prms : list FitParameter) (w : double) (hp : bool) :
  let r := runLevenbergMarquardtOptimization self mt prms w hp in
  (freeIndices prms = [] ->
     snd (fst r) = false
     /\ List.filter isSetHighPrecision (events r) = [EvSetHighPrecision false])
  /\ (freeIndices prms <> [] ->
     snd (fst r) = true
     /\ exists pre mse m,
          events r = [EvSetHighPrecision false] ++ pre
                     ++ [EvSetHighPrecision true; EvEvaluate m None;
                         SigIterationUpdated mse m (calculateTheoreticalCurve true mt m None)]
          /\ List.filter isSetHighPrecision pre = []).
Proof.
  intros r. subst r. split; intros Hfree.
  - unfold runLevenbergMarquardtOptimization. rewrite Hfree. split; reflexivity.
  - rewrite (runLM_run self mt prms w hp Hfree). cbv zeta.
    set (s := sessionOf self mt prms w). set (st0 := baselineState s).
    split; [reflexivity|].
    exists (events (calculateResiduals (currentParamMap st0) mt w
                      (fitT s) (fitP s) (fitD s) false)
            ++ snapshotOf s st0 false ++ events (lmLoop 50 s 0 st0 false)).
    eexists. eexists. split.
    + unfold events at 1. cbn [snd]. unfold snapshotOf at 2.
      rewrite <- !app_assoc. reflexivity.
    + rewrite !List.filter_app, lmLoop_no_precision_call, calculateResiduals_events.
      destruct (fitT s); reflexivity.
Qed.

(** ** What the loop keeps true of its state *)

Section StateInvariant.
Variable s : Session ModelType.
Variable hp : bool.
(** A property of the state that a rejected trial keeps (only [lambda]
    changes) and an accepted trial establishes. *)
Variable Inv : LMState -> Prop.
Hypothesis Inv_rejected : forall st,
  Inv st ->
  Inv (mkLMState (lambda st * 10.0) (currentSSE st) (currentParamMap st) (residuals st)).
Hypothesis Inv_accepted : forall st lam m,
  Inv st ->
  (calculateSumSquaredError (residualsOf s m hp) <? currentSSE st)%float = true ->
  Inv (mkLMState lam (calculateSumSquaredError (residualsOf s m hp)) m (residualsOf s m hp)).

Lemma tryStep_invariant (H : list (list double)) (g : list double) (nRes : nat)
    (st : LMState) :
  Inv st -> Inv (snd (result (tryStep s H g nRes st hp))).
Proof.
  intros Hst. rewrite tryStep_run.
  match goal with
  | |- context [(calculateSumSquaredError ?r <? currentSSE st)%float] =>
      destruct (calculateSumSquaredError r <? currentSSE st)%float eqn:E
  end; unfold result; cbn [fst snd].
  - apply (Inv_accepted st); [exact Hst | exact E].
  - apply Inv_rejected. exact Hst.
Qed.

Lemma innerSearch_invariant (tries : nat) (H : list (list double)) (g : list double)
    (nRes : nat) (st : LMState) :
  Inv st -> Inv (snd (result (innerSearch tries s H g nRes st hp))).
Proof.
  revert st. induction tries as [|tries IH]; intros st Hst; [exact Hst|].
  cbn [innerSearch]. unfold mbind, M_bind, bind.
  pose proof (tryStep_invariant H g nRes st Hst) as H1.
  pose proof (proj2 (tryStep_solves s H g nRes st hp)) as H2.
  unfold result in *.
  destruct (tryStep s H g nRes st hp) as [[[acc st'] hp1] e1]. cbn [fst snd] in *. subst hp1.
  destruct acc; [exact H1|].
  specialize (IH st' H1).
  destruct (innerSearch tries s H g nRes st' hp) as [[[acc2 st2] hp2] e2]. exact IH.
Qed.

Lemma lmLoop_invariant (left : nat) (iter : Z) (st : LMState) :
  Inv st -> Inv (result (lmLoop left s iter st hp)).
Proof.
  revert iter st. induction left as [|left IH]; intros iter st Hst; [exact Hst|].
  cbn [lmLoop]. destruct (stopRequested iter); [exact Hst|].
  destruct (converged st); [exact Hst|].
  unfold mbind, M_bind, bind.
  pose proof (lmIteration_run s iter st hp) as E. cbv zeta in E.
  match type of E with
  | _ = (result (innerSearch 5 s ?H ?g ?n st hp), _, _) =>
      pose proof (innerSearch_invariant 5 H g n st Hst) as H1;
      pose proof (proj2 (innerSearch_solves 5 s H g n st hp)) as H2
  end.
  rewrite E. rewrite H2. cbn [fst snd].
  match goal with
  | |- context [result (innerSearch 5 s ?H ?g ?n st hp)] =>
      destruct (result (innerSearch 5 s H g n st hp)) as [acc st']
  end.
  cbn [snd] in H1.
  destruct (negb acc && _); [exact H1|].
  specialize (IH (iter + 1) st' H1). unfold result in *.
  destruct (lmLoop left s (iter + 1) st' hp) as [[st2 hp2] e2]. exact IH.
Qed.

End StateInvariant.

(** The final snapshot of a session with a free parameter.  It reports the
    state [st] the loop ended in: its mean squared error is the sum of squares
    of [st]'s residual vector over that vector's length, and that vector is
    the residual vector of the reported parameter map on the fit grid,
    computed at low precision (the curve of the same snapshot is computed at
    high precision).  The sum of squares is the baseline's or strictly below
    it: the loop never ends on a worse fit than it started from. *)
Theorem final_snapshot_is_consistent (self : FittingCore) (mt : ModelType)
    (prms : list FitParameter) (w : double) (hp : bool) :
  freeIndices prms <> [] ->
  let s := sessionOf self mt prms w in
  let sse0 := currentSSE (baselineState s) in
  exists st,
    List.last (events (runLevenbergMarquardtOptimization self mt prms w hp)) SigFitFinished
    = SigIterationUpdated
        (calculateSumSquaredError (residualsOf s (currentParamMap st) false)
         / double_of_int (Z.of_nat (length (residualsOf s (currentParamMap st) false))))
        (currentParamMap st)
        (calculateTheoreticalCurve true mt (currentParamMap st) None)
    /\ residuals st = residualsOf s (currentParamMap st) false
    /\ currentSSE st = calculateSumSquaredError (residuals st)
    /\ (currentSSE st = sse0 \/ (currentSSE st <? sse0)%float = true).
Proof.
  intros Hfree s sse0.
  set (Inv := fun st : LMState =>
                residuals st = residualsOf s (currentParamMap st) false
                /\ currentSSE st = calculateSumSquaredError (residuals st)
                /\ (currentSSE st = sse0 \/ (currentSSE st <? sse0)%float = true)).
  assert (Hloop : Inv (result (lmLoop 50 s 0 (baselineState s) false))).
  { apply lmLoop_invariant.
    - intros st [H1 [H2 H3]]. repeat split; assumption.
    - intros st lam m [H1 [H2 H3]] Hlt. repeat split; cbn [currentSSE]. right.
      destruct H3 as [<-|H3]; [exact Hlt | eapply ltb_trans; eassumption].
    - repeat split. left. reflexivity. }
  exists (result (lmLoop 50 s 0 (baselineState s) false)).
  destruct Hloop as [H1 [H2 H3]]. repeat split; try assumption.
  rewrite (runLM_run self mt prms w hp Hfree). cbv zeta. fold s.
  unfold events at 1. cbn [snd]. rewrite !app_assoc. unfold snapshotOf at 2.
  match goal with
  | |- List.last (?l ++ [?a; ?b]) _ = _ =>
      replace (l ++ [a; b]) with ((l ++ [a]) ++ [b]) by (rewrite <- app_assoc; reflexivity)
  end.
  rewrite last_last. rewrite H2, H1. reflexivity.
Qed.

(** ** Sessions that run no iteration, and sessions that cannot improve *)

(** When cancellation is requested before the first iteration, or the
    baseline already meets the threshold [SSE / n < 3e-3], the loop body never
    runs: the session emits no progress signal and calls neither the solver
    nor the evaluator on perturbed maps; it emits exactly two snapshots, the
    baseline and the final one, with the same parameter map and the same
    mean squared error (their curves are computed at low and at high
    precision). *)
Theorem session_without_iterations (self : FittingCore) (mt : ModelType)
    (prms : list FitParameter) (w : double) (hp : bool) :
  freeIndices prms <> [] ->
  let s := sessionOf self mt prms w in
  let st0 := baselineState s in
  stopRequested 0 = true \/ converged st0 = true ->
  events (runLevenbergMarquardtOptimization self mt prms w hp)
  = [EvSetHighPrecision false]
    ++ match fitT s with [] => [] | _ :: _ => [EvEvaluate (currentParamMap st0) (Some (fitT s))] end
    ++ snapshotOf s st0 false ++ [EvSetHighPrecision true] ++ snapshotOf s st0 true.
Proof.
  intros Hfree s st0 Hexit.
  rewrite (runLM_run self mt prms w hp Hfree). cbv zeta. fold s. fold st0.
  assert (E : lmLoop 50 s 0 st0 false = (st0, false, [])).
  { cbn [lmLoop]. destruct (stopRequested 0); [reflexivity|].
    destruct Hexit as [Hc|Hc]; [discriminate Hc | rewrite Hc; reflexivity]. }
  rewrite E. unfold events at 1. cbn [snd]. rewrite calculateResiduals_events.
  unfold events, result. cbn [fst snd app]. reflexivity.
Qed.

Lemma unbeatable_zero : unbeatable 0%float.
Proof. intros r. apply calculateSumSquaredError_not_negative. Qed.

Lemma unbeatable_nan (c : double) : is_nan c = true -> unbeatable c.
Proof. intros H r. apply ltb_nan_r. exact H. Qed.

Lemma rejectedLambda_S (n : nat) (lam : double) :
  rejectedLambda (S n) lam = rejectedLambda n (lam * 10.0)%float.
Proof. unfold rejectedLambda. rewrite Nat.iter_succ_r. reflexivity. Qed.

(** ** C4: the damping search of an iteration *)

Lemma rejectedState_S (n : nat) (st : LMState) :
  rejectedState n (rejectedState 1 st) = rejectedState (S n) st.
Proof.
  unfold rejectedState. cbn [lambda currentSSE currentParamMap residuals].
  rewrite (rejectedLambda_S n (lambda st)). reflexivity.
Qed.

Lemma trialSSE_rejectedState (s : Session ModelType) (H : list (list double))
    (g : list double) (n : nat) (st : LMState) (hp : bool) :
  trialSSE s H g (rejectedState n (rejectedState 1 st)) hp
  = trialSSE s H g (rejectedState (S n) st) hp.
Proof. rewrite rejectedState_S. reflexivity. Qed.

(** What a try hands to the solver, in the words of the specification. *)
Lemma tryStep_solve_event (s : Session ModelType) (H : list (list double)) (g : list double)
    (nRes : nat) (st : LMState) (hp : bool) :
  let n := length (freeIndices (params s)) in
  square n H -> (0 < n)%nat ->
  List.filter isSolve (events (tryStep s H g nRes st hp))
  = [EvSolve (marquardtMatrix (lambda st) H n) (map (fun a => (- at_ g a)%float) (seq 0 n))].
Proof.
  intros n Hsq Hn. rewrite tryStep_filter_solve. fold n.
  rewrite solveLinearSystem_run. cbv zeta. rewrite length_map, length_seq.
  unfold events. cbn [snd]. destruct n as [|n'] eqn:En; [lia|]. rewrite <- En in *.
  f_equal. f_equal.
  - unfold marquardtMatrix. apply map_ext_in. intros i Hi. apply in_seq in Hi.
    apply map_ext_in. intros j Hj.
    apply (dampedHessian_entry (lambda st) H n i j Hsq). lia.
  - apply map_ext_in. intros a Ha. apply in_seq in Ha.
    unfold at_ at 1. apply (nth_map_seq (fun i => (- at_ g i)%float) n a 0%float). lia.
Qed.

(** The inner loop with [tries] passes: [k] rejected tries with [lambda]
    growing tenfold, then an accepted one, or [tries] rejected ones. *)
Lemma innerSearch_trace (tries : nat) (s : Session ModelType) (H : list (list double))
    (g : list double) (nRes : nat) (st : LMState) (hp : bool) :
  let n := length (freeIndices (params s)) in
  square n H -> (0 < n)%nat ->
  let r := innerSearch tries s H g nRes st hp in
  exists k,
    (k <= tries)%nat
    /\ (forall i, (i < k)%nat ->
          (trialSSE s H g (rejectedState i st) hp <? currentSSE st)%float = false)
    /\ List.filter isSolve (events r)
       = map (fun i => EvSolve (marquardtMatrix (rejectedLambda i (lambda st)) H n)
                               (map (fun a => (- at_ g a)%float) (seq 0 n)))
             (seq 0 (if fst (result r) then S k else k))
    /\ (fst (result r) = true ->
          (k < tries)%nat
          /\ (trialSSE s H g (rejectedState k st) hp <? currentSSE st)%float = true
          /\ lambda (snd (result r)) = (rejectedLambda k (lambda st) / 10.0)%float
          /\ currentSSE (snd (result r)) = trialSSE s H g (rejectedState k st) hp
          /\ length (List.filter isIterationUpdated (events r)) = 1%nat)
    /\ (fst (result r) = false ->
          k = tries /\ snd (result r) = rejectedState tries st
          /\ List.filter isIterationUpdated (events r) = []).
Proof.
  intros n Hsq Hn. revert st. induction tries as [|tries IH]; intros st; cbv zeta.
  - exists 0%nat. destruct st. cbn [innerSearch]. unfold result, events. cbn [fst snd].
    repeat split; try lia; try reflexivity; try discriminate; try (intros; lia).
  - cbn [innerSearch]. unfold mbind, M_bind, bind.
    pose proof (tryStep_solve_event s H g nRes st hp Hsq Hn) as Hsolve.
    pose proof (tryStep_snapshots s H g nRes st hp) as Hsnap.
    pose proof (tryStep_run s H g nRes st hp) as Hrun.
    assert (Et : trialSSE s H g (rejectedState 0 st) hp
                 = snd (result (buildTrial s H g st hp))) by (destruct st; reflexivity).
    rewrite buildTrial_run in Et. unfold result at 1 in Et. cbn [fst snd] in Et.
    rewrite <- Et in Hrun.
    destruct (trialSSE s H g (rejectedState 0 st) hp <? currentSSE st)%float eqn:Eacc.
    + (* accepted at once *)
      rewrite Hrun in *. unfold result, events in *. cbn [fst snd] in *.
      exists 0%nat. unfold_M. cbn [fst snd]. rewrite app_nil_r.
      repeat split; try lia; try reflexivity; try discriminate; try assumption;
        try (intros; lia).
    + (* rejected: the search goes on from the state with ten times lambda *)
      rewrite Hrun in *. unfold result, events in *. cbn [fst snd] in *.
      change (mkLMState (lambda st * 10.0) (currentSSE st) (currentParamMap st)
                        (residuals st)) with (rejectedState 1 st).
      destruct (IH (rejectedState 1 st)) as [k [Hk [Hrej [Hsol [Hacc Hnot]]]]].
      unfold result, events in Hsol, Hacc, Hnot.
      destruct (innerSearch tries s H g nRes (rejectedState 1 st) hp)
        as [[[acc st'] hp2] e2].
      cbn [fst snd] in *. exists (S k).
      split; [lia|]. split.
      { intros i Hi. destruct i as [|i]; [exact Eacc|].
        rewrite <- trialSSE_rejectedState. apply Hrej. lia. }
      split.
      { rewrite List.filter_app, Hsolve, Hsol.
        assert (Eseq : forall m,
                  [EvSolve (marquardtMatrix (lambda st) H n)
                           (map (fun a => (- at_ g a)%float) (seq 0 n))]
                  ++ map (fun i =>
                            EvSolve (marquardtMatrix
                                       (rejectedLambda i (lambda (rejectedState 1 st))) H n)
                                    (map (fun a => (- at_ g a)%float) (seq 0 n)))
                         (seq 0 m)
                  = map (fun i =>
                           EvSolve (marquardtMatrix (rejectedLambda i (lambda st)) H n)
                                   (map (fun a => (- at_ g a)%float) (seq 0 n)))
                        (seq 0 (S m))).
        { intros m. cbn [seq map app]. f_equal.
          rewrite <- seq_shift, map_map. apply map_ext. intros i.
          cbn [lambda rejectedState]. rewrite (rejectedLambda_S i (lambda st)).
          reflexivity. }
        destruct acc; apply Eseq. }
      split.
      { intros ->. destruct (Hacc eq_refl) as [A1 [A2 [A3 [A4 A5]]]].
        split; [lia|]. split; [rewrite <- trialSSE_rejectedState; exact A2|].
        split; [rewrite A3; cbn [lambda rejectedState];
                rewrite (rejectedLambda_S k (lambda st)); reflexivity|].
        split; [rewrite A4; apply trialSSE_rejectedState|].
        rewrite List.filter_app, length_app, Hsnap, A5. reflexivity. }
      { intros ->. destruct (Hnot eq_refl) as [B1 [B2 B3]].
        split; [lia|]. split; [rewrite B2; apply rejectedState_S|].
        rewrite List.filter_app, B3, app_nil_r.
        destruct (List.filter isIterationUpdated _) eqn:Ef; [reflexivity|].
        simpl in Hsnap. discriminate Hsnap. }
Qed.

(** C4: the damping search of one LM iteration, with [H] and [g] the normal
    equations of the iteration and [lambda] the damping it starts with (there
    is a free parameter in every iteration the driver runs, line 170).
    (1) The search makes at most 5 tries: [k <= 5] rejected ones, followed by
    an accepted one if any, and none after it.  (2) Try [i] (from 0) hands to
    the solver [H] with [lambda_i * (1 + |H[a][a]|)] added to every diagonal
    entry, [lambda_i] being [lambda] multiplied [i] times by 10, and these are
    all the solver calls of the iteration.  (3) A try is accepted exactly
    when its trial sum of squares is strictly below the current one: the [k]
    first tries were not, and the iteration reports an accepted step exactly
    when try [k] was; the accepted try leaves [lambda_k / 10], makes the trial
    sum of squares the current one and emits the one snapshot of the
    iteration; with no accepted try [k = 5], [lambda] has been multiplied 5
    times by 10, nothing else has changed and no snapshot is emitted.
    (4) After an iteration without an accepted try that leaves [lambda]
    above [1e10] the outer loop ends, however many iterations are left;
    otherwise it goes on with the next iteration. *)
Theorem C4_damping_search (s : Session ModelType) (iter : Z) (st : LMState) (hp : bool)
    (left : nat) :
  let n := length (freeIndices (params s)) in
  let J := result (computeJacobian (currentParamMap st) (residuals st)
                     (freeIndices (params s)) (modelType s) (params s) (weight s)
                     (fitT s) (fitP s) (fitD s) hp) in
  let nRes := length (residuals st) in
  let H := hessian J nRes n in
  let g := gradient J (residuals st) nRes n in
  let r := lmIteration s iter st hp in
  (0 < n)%nat ->
  (exists k,
     (k <= 5)%nat
     /\ (forall i, (i < k)%nat ->
           (trialSSE s H g (rejectedState i st) hp <? currentSSE st)%float = false)
     /\ List.filter isSolve (events r)
        = map (fun i => EvSolve (marquardtMatrix (rejectedLambda i (lambda st)) H n)
                                (map (fun a => (- at_ g a)%float) (seq 0 n)))
              (seq 0 (if fst (result r) then S k else k))
     /\ (fst (result r) = true ->
           (k < 5)%nat
           /\ (trialSSE s H g (rejectedState k st) hp <? currentSSE st)%float = true
           /\ lambda (snd (result r)) = (rejectedLambda k (lambda st) / 10.0)%float
           /\ currentSSE (snd (result r)) = trialSSE s H g (rejectedState k st) hp
           /\ length (List.filter isIterationUpdated (events r)) = 1%nat)
     /\ (fst (result r) = false ->
           k = 5%nat /\ snd (result r) = rejectedState 5 st
           /\ List.filter isIterationUpdated (events r) = []))
  /\ (stopRequested iter = false -> converged st = false ->
      lmLoop (S left) s iter st hp
      = if negb (fst (result r)) && (1e10 <? lambda (snd (result r)))%float
        then (snd (result r), hp, events r ++ [])
        else (result (lmLoop left s (iter + 1) (snd (result r)) hp),
              snd (fst (lmLoop left s (iter + 1) (snd (result r)) hp)),
              events r ++ events (lmLoop left s (iter + 1) (snd (result r)) hp))).
Proof.
  intros n J nRes H g r Hn. split.
  - destruct (innerSearch_trace 5 s H g nRes st hp (hessian_square J nRes n) Hn)
      as [k [Hk [Hrej [Hsol [Hacc Hnot]]]]].
    assert (Er : r = (result (innerSearch 5 s H g nRes st hp),
                      snd (fst (innerSearch 5 s H g nRes st hp)),
                      [SigProgress (iter * 100 / 50)]
                      ++ events (computeJacobian (currentParamMap st) (residuals st)
                                   (freeIndices (params s)) (modelType s) (params s)
                                   (weight s) (fitT s) (fitP s) (fitD s) hp)
                      ++ events (innerSearch 5 s H g nRes st hp))).
    { subst r. rewrite lmIteration_run. reflexivity. }
    assert (Eres : result r = result (innerSearch 5 s H g nRes st hp))
      by (rewrite Er; reflexivity).
    assert (Esol : List.filter isSolve (events r)
                   = List.filter isSolve (events (innerSearch 5 s H g nRes st hp))).
    { rewrite Er. unfold events at 1. cbn [snd].
      rewrite !List.filter_app, computeJacobian_no_solve. reflexivity. }
    assert (Esnap : List.filter isIterationUpdated (events r)
                    = List.filter isIterationUpdated
                        (events (innerSearch 5 s H g nRes st hp))).
    { rewrite Er. unfold events at 1. cbn [snd]. rewrite !List.filter_app.
      rewrite (quiet_no_snapshot _ (proj1 (computeJacobian_quiet _ _ _ _ _ _ _ _ _ hp))).
      reflexivity. }
    exists k. rewrite Eres, Esol, Esnap.
    split; [exact Hk|]. split; [exact Hrej|]. split; [exact Hsol|].
    split; [exact Hacc | exact Hnot].
  - intros Hstop Hconv. cbn [lmLoop]. rewrite Hstop, Hconv.
    unfold mbind, M_bind, bind. fold r.
    pose proof (proj2 (proj2 (proj2 (lmIteration_signals s iter st hp)))) as Hhp.
    cbv zeta in Hhp. fold r in Hhp. unfold result, events.
    destruct r as [[[acc st'] hp1] e1]. cbn [fst snd] in *. subst hp1.
    destruct (negb acc && (1e10 <? lambda st')%float); [reflexivity|].
    destruct (lmLoop left s (iter + 1) st' hp) as [[st2 hp2] e2]. reflexivity.
Qed.

Section Stalled.
Variable s : Session ModelType.
Variable hp : bool.
Hypothesis free_parameter : (0 < length (freeIndices (params s)))%nat.

Lemma tryStep_stalled (H : list (list double)) (g : list double) (nRes : nat) (st : LMState) :
  unbeatable (currentSSE st) ->
  let r := tryStep s H g nRes st hp in
  result r = (false, mkLMState (lambda st * 10.0) (currentSSE st) (currentParamMap st)
                               (residuals st))
  /\ snd (fst r) = hp
  /\ List.filter isIterationUpdated (events r) = []
  /\ length (List.filter isSolve (events r)) = 1%nat.
Proof.
  intros Hu r. subst r.
  pose proof (tryStep_filter_solve s H g nRes st hp) as Hsolve.
  rewrite solveLinearSystem_run in Hsolve. cbv zeta in Hsolve.
  rewrite length_map, length_seq in Hsolve.
  destruct (length (freeIndices (params s))) as [|n] eqn:En; [lia|].
  unfold events at 2 in Hsolve. cbn [snd] in Hsolve.
  rewrite Hsolve.
  assert (Hrej : (snd (result (buildTrial s H g st hp)) <? currentSSE st)%float = false).
  { rewrite buildTrial_run. unfold result at 1. cbn [fst snd]. apply Hu. }
  rewrite (tryStep_rejected _ _ _ _ _ _ Hrej). unfold result, events. cbn [fst snd].
  repeat split. rewrite app_nil_r.
  apply (proj1 (buildTrial_events_signals s H g st hp)).
Qed.

Lemma innerSearch_stalled (tries : nat) (H : list (list double)) (g : list double)
    (nRes : nat) (st : LMState) :
  unbeatable (currentSSE st) ->
  let r := innerSearch tries s H g nRes st hp in
  result r = (false, mkLMState (rejectedLambda tries (lambda st)) (currentSSE st)
                               (currentParamMap st) (residuals st))
  /\ List.filter isIterationUpdated (events r) = []
  /\ length (List.filter isSolve (events r)) = tries.
Proof.
  revert st. induction tries as [|tries IH]; intros st Hu; cbv zeta.
  - destruct st. repeat split.
  - cbn [innerSearch]. unfold mbind, M_bind, bind.
    destruct (tryStep_stalled H g nRes st Hu) as [H1 [H2 [H3 H4]]].
    unfold result, events in H1, H2, H3, H4.
    destruct (tryStep s H g nRes st hp) as [[[acc st'] hp1] e1]. cbn [fst snd] in *.
    subst hp1. injection H1 as -> ->.
    match goal with
    | |- context [innerSearch tries s H g nRes ?st1 hp] =>
        destruct (IH st1 Hu) as [P1 [P2 P3]];
        unfold result, events in P1, P2, P3;
        destruct (innerSearch tries s H g nRes st1 hp) as [[r2 hp2] e2]
    end.
    cbn [fst snd lambda currentSSE currentParamMap residuals] in *. subst r2.
    unfold result, events. cbn [fst snd].
    rewrite rejectedLambda_S, !List.filter_app, length_app, H3, P2, H4, P3.
    repeat split.
Qed.

Lemma lmIteration_stalled (iter : Z) (st : LMState) :
  unbeatable (currentSSE st) ->
  let r := lmIteration s iter st hp in
  result r = (false, mkLMState (rejectedLambda 5 (lambda st)) (currentSSE st)
                               (currentParamMap st) (residuals st))
  /\ snd (fst r) = hp
  /\ progressValues (events r) = [iter * 100 / 50]
  /\ List.filter isIterationUpdated (events r) = []
  /\ length (List.filter isSolve (events r)) = 5%nat.
Proof.
  intros Hu. cbv zeta.
  destruct (lmIteration_signals s iter st hp) as [Hp [_ [_ Hf]]].
  split; [|split; [exact Hf|split; [exact Hp|]]].
  - rewrite lmIteration_run. cbv zeta. unfold result at 1. cbn [fst].
    match goal with
    | |- result (innerSearch 5 s ?H ?g ?n st hp) = _ =>
        apply (proj1 (innerSearch_stalled 5 H g n st Hu))
    end.
  - rewrite lmIteration_run. cbv zeta.
    match goal with
    | |- context [events (?a, ?b, ?c)] => change (events (a, b, c)) with c
    end.
    match goal with
    | |- context [innerSearch 5 s ?H ?g ?n st hp] =>
        destruct (innerSearch_stalled 5 H g n st Hu) as [_ [P2 P3]]
    end.
    rewrite !List.filter_app, !length_app, P2, P3, computeJacobian_no_solve.
    match goal with
    | |- context [computeJacobian ?a ?b ?c ?d ?e ?f ?g ?h ?i hp] =>
        rewrite (quiet_no_snapshot _ (proj1 (computeJacobian_quiet a b c d e f g h i hp)))
    end.
    split; reflexivity.
Qed.

(** One pass of the outer loop on a state that cannot be improved. *)
Lemma lmLoop_stalled_step (left : nat) (iter : Z) (st : LMState) :
  stopRequested iter = false -> converged st = false -> unbeatable (currentSSE st) ->
  let st' := mkLMState (rejectedLambda 5 (lambda st)) (currentSSE st)
                       (currentParamMap st) (residuals st) in
  let e1 := events (lmIteration s iter st hp) in
  lmLoop (S left) s iter st hp
  = if (1e10 <? rejectedLambda 5 (lambda st))%float then (st', hp, e1 ++ [])
    else (result (lmLoop left s (iter + 1) st' hp), snd (fst (lmLoop left s (iter + 1) st' hp)),
          e1 ++ events (lmLoop left s (iter + 1) st' hp)).
Proof.
  intros Hstop Hconv Hu st' e1. subst e1.
  cbn [lmLoop]. rewrite Hstop, Hconv. unfold mbind, M_bind, bind.
  destruct (lmIteration_stalled iter st Hu) as [H1 [H2 _]].
  unfold result, events in *.
  destruct (lmIteration s iter st hp) as [[[acc st1] hp1] ev1]. cbn [fst snd] in *.
  subst hp1. injection H1 as -> ->. cbn [negb andb lambda]. subst st'.
  assert (Erl : rejectedLambda 5 (lambda st) = (lambda st * 10 * 10 * 10 * 10 * 10)%float)
    by reflexivity.
  rewrite ?Erl.
  destruct (1e10 <? lambda st * 10 * 10 * 10 * 10 * 10)%float; [reflexivity|].
  match goal with
  | |- context [lmLoop left s (iter + 1) ?st1 hp] =>
      destruct (lmLoop left s (iter + 1) st1 hp) as [[st2 hp2] e2]
  end.
  reflexivity.
Qed.

End Stalled.

Lemma lambda_of_a_stalled_session :
  (1e10 <? rejectedLambda 5 0.01)%float = false
  /\ (1e10 <? rejectedLambda 5 (rejectedLambda 5 0.01))%float = false
  /\ (1e10 <? rejectedLambda 5 (rejectedLambda 5 (rejectedLambda 5 0.01)))%float = true.
Proof. repeat split; vm_compute; reflexivity. Qed.

(** A session that cannot improve on its baseline, because the baseline has
    no residuals (no observations on the fit grid, or an evaluator that
    returns nothing) or because its sum of squares is NaN, rejects every
    trial: [lambda] grows from 0.01 by a factor of 10 per trial, passes
    [1e10] in the third iteration, and the loop ends there.  Unless it is
    cancelled earlier such a session emits the progress signals 0, 2 and 4,
    calls the solver 15 times, and emits two snapshots, the baseline and the
    final one, with the initial parameter map and the same mean squared
    error. *)
Theorem stalled_session_ends_in_the_third_iteration (self : FittingCore) (mt : ModelType)
    (prms : list FitParameter) (w : double) (hp : bool) :
  freeIndices prms <> [] ->
  stopRequested 0 = false -> stopRequested 1 = false -> stopRequested 2 = false ->
  let s := sessionOf self mt prms w in
  let st0 := baselineState s in
  residuals st0 = [] \/ is_nan (currentSSE st0) = true ->
  let evs := events (runLevenbergMarquardtOptimization self mt prms w hp) in
  progressValues evs = [0; 2; 4]
  /\ length (List.filter isSolve evs) = 15%nat
  /\ exists mse c1 c2,
       List.filter isIterationUpdated evs
       = [SigIterationUpdated mse (projectInitial (initialParamMap prms)) c1;
          SigIterationUpdated mse (projectInitial (initialParamMap prms)) c2].
Proof.
  intros Hfree Hs0 Hs1 Hs2 s st0 Hbase evs.
  assert (Hn : (0 < length (freeIndices (params s)))%nat).
  { change (params s) with prms. destruct (freeIndices prms); [congruence | simpl; lia]. }
  assert (Hu : unbeatable (currentSSE st0)).
  { destruct Hbase as [Hr|Hnan]; [|apply unbeatable_nan; exact Hnan].
    assert (E : currentSSE st0 = calculateSumSquaredError (residuals st0)) by reflexivity.
    rewrite E, Hr. apply unbeatable_zero. }
  assert (Hc : converged st0 = false).
  { unfold converged. destruct Hbase as [Hr|Hnan]; [rewrite Hr; reflexivity|].
    rewrite (ltb_nan_l _ _ (div_nan _ _ Hnan)). apply andb_false_r. }
  destruct lambda_of_a_stalled_session as [L1 [L2 L3]].
  set (st1 := mkLMState (rejectedLambda 5 (lambda st0)) (currentSSE st0)
                        (currentParamMap st0) (residuals st0)).
  set (st2 := mkLMState (rejectedLambda 5 (lambda st1)) (currentSSE st1)
                        (currentParamMap st1) (residuals st1)).
  set (st3 := mkLMState (rejectedLambda 5 (lambda st2)) (currentSSE st2)
                        (currentParamMap st2) (residuals st2)).
  assert (E : lmLoop 50 s 0 st0 false
              = (st3, false,
                 events (lmIteration s 0 st0 false)
                 ++ events (lmIteration s 1 st1 false)
                 ++ events (lmIteration s 2 st2 false) ++ [])).
  { assert (E0 : lmLoop 50 s 0 st0 false
                 = (result (lmLoop 49 s 1 st1 false), snd (fst (lmLoop 49 s 1 st1 false)),
                    events (lmIteration s 0 st0 false) ++ events (lmLoop 49 s 1 st1 false))).
    { rewrite (lmLoop_stalled_step s false Hn 49 0 st0 Hs0 Hc Hu). cbv zeta.
      change (lambda st0) with 0.01%float. rewrite L1. reflexivity. }
    assert (E1 : lmLoop 49 s 1 st1 false
                 = (result (lmLoop 48 s 2 st2 false), snd (fst (lmLoop 48 s 2 st2 false)),
                    events (lmIteration s 1 st1 false) ++ events (lmLoop 48 s 2 st2 false))).
    { rewrite (lmLoop_stalled_step s false Hn 48 1 st1 Hs1 Hc Hu). cbv zeta.
      change (lambda st1) with (rejectedLambda 5 0.01). rewrite L2. reflexivity. }
    assert (E2 : lmLoop 48 s 2 st2 false
                 = (st3, false, events (lmIteration s 2 st2 false) ++ [])).
    { rewrite (lmLoop_stalled_step s false Hn 47 2 st2 Hs2 Hc Hu). cbv zeta.
      change (lambda st2) with (rejectedLambda 5 (rejectedLambda 5 0.01)). rewrite L3.
      reflexivity. }
    rewrite E0, E1, E2. reflexivity. }
  destruct (lmIteration_stalled s false Hn 0 st0 Hu) as [_ [_ [A1 [A2 A3]]]].
  destruct (lmIteration_stalled s false Hn 1 st1 Hu) as [_ [_ [B1 [B2 B3]]]].
  destruct (lmIteration_stalled s false Hn 2 st2 Hu) as [_ [_ [C1 [C2 C3]]]].
  assert (Eevs : evs = [EvSetHighPrecision false]
                   ++ events (calculateResiduals (currentParamMap st0) mt w
                                (fitT s) (fitP s) (fitD s) false)
                   ++ snapshotOf s st0 false
                   ++ (events (lmIteration s 0 st0 false)
                       ++ events (lmIteration s 1 st1 false)
                       ++ events (lmIteration s 2 st2 false) ++ [])
                   ++ [EvSetHighPrecision true] ++ snapshotOf s st3 true).
  { subst evs. rewrite (runLM_run self mt prms w hp Hfree). cbv zeta. fold s. fold st0.
    rewrite E. reflexivity. }
  clearbody evs. subst evs.
  rewrite !progressValues_app, !List.filter_app, !length_app, calculateResiduals_events.
  rewrite A1, A2, A3, B1, B2, B3, C1, C2, C3.
  split; [|split].
  - destruct (fitT s); reflexivity.
  - destruct (fitT s); reflexivity.
  - eexists. eexists. eexists. destruct (fitT s); reflexivity.
Qed.

(** ** The projections I2, I3 and I4 *)

Lemma guardedWrite_commute (k1 k2 : string) (c1 c2 : ParamMap -> bool)
    (v1 v2 : ParamMap -> double) (m : ParamMap) :
  k1 <> k2 ->
  (forall m x, c1 (<[k2 := x]> m) = c1 m) -> (forall m x, v1 (<[k2 := x]> m) = v1 m) ->
  (forall m x, c2 (<[k1 := x]> m) = c2 m) -> (forall m x, v2 (<[k1 := x]> m) = v2 m) ->
  guardedWrite k1 c1 v1 (guardedWrite k2 c2 v2 m)
  = guardedWrite k2 c2 v2 (guardedWrite k1 c1 v1 m).
Proof.
  intros Hk Hc1 Hv1 Hc2 Hv2. unfold guardedWrite.
  destruct (c1 m) eqn:E1, (c2 m) eqn:E2;
    rewrite ?Hc1, ?Hv1, ?Hc2, ?Hv2, ?E1, ?E2; try reflexivity.
  apply insert_insert_ne. exact Hk.
Qed.

Lemma guardedWrite_idempotent (k : string) (c : ParamMap -> bool) (v : ParamMap -> double)
    (m : ParamMap) :
  (forall m x, v (<[k := x]> m) = v m) ->
  guardedWrite k c v (guardedWrite k c v m) = guardedWrite k c v m.
Proof.
  intros Hv. unfold guardedWrite. destruct (c m) eqn:E; [|rewrite E; reflexivity].
  destruct (c (<[k := v m]> m)); [|reflexivity].
  rewrite Hv. apply insert_insert_eq.
Qed.

Lemma contains_insert_ne (m : ParamMap) (k k' : string) (x : double) :
  k <> k' -> contains (<[k := x]> m) k' = contains m k'.
Proof. intros H. unfold contains. rewrite lookup_insert_ne by exact H. reflexivity. Qed.

Lemma get_insert_ne (m : ParamMap) (k k' : string) (x : double) :
  k <> k' -> get (<[k := x]> m) k' = get m k'.
Proof. intros H. unfold get. rewrite lookup_insert_ne by exact H. reflexivity. Qed.

Lemma contains_insert_eq (m : ParamMap) (k : string) (x : double) :
  contains (<[k := x]> m) k = true.
Proof. unfold contains. rewrite lookup_insert_eq. reflexivity. Qed.


Lemma updateDeps_guarded (m : ParamMap) :
  updateDeps m
  = guardedWrite "LfD"
      (fun m => contains m "L" && contains m "Lf" && (1e-9 <? get m "L")%float)
      (fun m => (get m "Lf" / get m "L")%float) m.
Proof. reflexivity. Qed.

Lemma projectKf_guarded (m : ParamMap) :
  projectKf m
  = guardedWrite "kf"
      (fun m => contains m "kf" && contains m "km" && (get m "kf" <=? get m "km")%float)
      (fun m => (get m "km" * 1.01)%float) m.
Proof.
  unfold projectKf, guardedWrite. destruct (contains m "kf" && contains m "km"); reflexivity.
Qed.

Lemma projectOmega_guarded (m : ParamMap) :
  projectOmega m
  = guardedWrite "omega1"
      (fun m => contains m "omega1" && contains m "omega2"
                && (get m "omega1" <=? get m "omega2")%float)
      (fun m => (get m "omega2" * 1.01)%float) m.
Proof.
  unfold projectOmega, guardedWrite.
  destruct (contains m "omega1" && contains m "omega2"); reflexivity.
Qed.

Ltac other_key :=
  intros; rewrite ?contains_insert_ne, ?get_insert_ne by discriminate; reflexivity.

Lemma updateDeps_projectKf (m : ParamMap) :
  updateDeps (projectKf m) = projectKf (updateDeps m).
Proof.
  rewrite (projectKf_guarded m), (projectKf_guarded (updateDeps m)), !updateDeps_guarded.
  apply guardedWrite_commute; [discriminate | other_key ..].
Qed.

Lemma updateDeps_projectOmega (m : ParamMap) :
  updateDeps (projectOmega m) = projectOmega (updateDeps m).
Proof.
  rewrite (projectOmega_guarded m), (projectOmega_guarded (updateDeps m)), !updateDeps_guarded.
  apply guardedWrite_commute; [discriminate | other_key ..].
Qed.

Lemma projectKf_projectOmega (m : ParamMap) :
  projectKf (projectOmega m) = projectOmega (projectKf m).
Proof.
  rewrite (projectOmega_guarded m), (projectOmega_guarded (projectKf m)), !projectKf_guarded.
  apply guardedWrite_commute; [discriminate | other_key ..].
Qed.

Lemma updateDeps_idempotent (m : ParamMap) : updateDeps (updateDeps m) = updateDeps m.
Proof. rewrite !updateDeps_guarded. apply guardedWrite_idempotent. other_key. Qed.

Lemma projectKf_idempotent (m : ParamMap) : projectKf (projectKf m) = projectKf m.
Proof.
  rewrite (projectKf_guarded (projectKf m)), !(projectKf_guarded m).
  apply guardedWrite_idempotent. other_key.
Qed.

Lemma projectOmega_idempotent (m : ParamMap) : projectOmega (projectOmega m) = projectOmega m.
Proof.
  rewrite (projectOmega_guarded (projectOmega m)), !(projectOmega_guarded m).
  apply guardedWrite_idempotent. other_key.
Qed.

Lemma projectInitial_is_projectTrial (m : ParamMap) : projectInitial m = projectTrial m.
Proof.
  unfold projectInitial, projectTrial.
  rewrite updateDeps_projectOmega, updateDeps_projectKf. reflexivity.
Qed.

Lemma projectTrial_idempotent (m : ParamMap) : projectTrial (projectTrial m) = projectTrial m.
Proof.
  unfold projectTrial.
  rewrite (updateDeps_projectOmega (projectKf (updateDeps m))).
  rewrite (updateDeps_projectKf (updateDeps m)).
  rewrite updateDeps_idempotent.
  rewrite (projectKf_projectOmega (projectKf (updateDeps m))).
  rewrite projectKf_idempotent, projectOmega_idempotent. reflexivity.
Qed.

(** The driver applies the projections in the order I2, I3, I4 to the
    initial map (lines 187-194) and in the order I4, I2, I3 to a trial map
    (lines 250-257).  The order is immaterial: the three projections commute
    pairwise, so both orders compute the same map; and projecting a projected
    map changes nothing. *)
Theorem projections_commute_and_are_idempotent (m : ParamMap) :
  projectInitial m = projectTrial m
  /\ updateDeps (projectKf m) = projectKf (updateDeps m)
  /\ updateDeps (projectOmega m) = projectOmega (updateDeps m)
  /\ projectKf (projectOmega m) = projectOmega (projectKf m)
  /\ projectTrial (projectTrial m) = projectTrial m
  /\ projectInitial (projectInitial m) = projectInitial m.
Proof.
  repeat split.
  - apply projectInitial_is_projectTrial.
  - apply updateDeps_projectKf.
  - apply updateDeps_projectOmega.
  - apply projectKf_projectOmega.
  - apply projectTrial_idempotent.
  - rewrite !projectInitial_is_projectTrial. apply projectTrial_idempotent.
Qed.

(** ** C1: bounds of the free parameters in the snapshots *)










Lemma spec_float_eq_dec (a b : spec_float) : {a = b} + {a <> b}.
Proof. repeat decide equality. Qed.

Lemma double_eq_dec : EqDecision double.
Proof.
  intros x y. destruct (spec_float_eq_dec (Prim2SF x) (Prim2SF y)) as [E|N].
  - left. apply Prim2SF_inj. exact E.
  - right. intros ->. apply N. reflexivity.
Qed.
#[local] Existing Instance double_eq_dec.

Lemma get_lookup (m : ParamMap) (k : string) :
  contains m k = true -> m !! k = Some (get m k).
Proof. unfold contains, get. destruct (m !! k); [reflexivity | discriminate]. Qed.

Lemma projected_holds (m : ParamMap) :
  projectTrial m = m -> depsHold m /\ kfHolds m /\ omegaHolds m.
Proof.
  intros Hfix. split; [|split].
  - intros H1 H2 H3. rewrite <- Hfix at 1. unfold projectTrial.
    rewrite projectOmega_lookup, projectKf_lookup by discriminate.
    unfold updateDeps. rewrite H1, H2, H3. apply lookup_insert_eq.
  - intros H1 H2 H3. rewrite <- Hfix at 1. unfold projectTrial, get at 1.
    rewrite projectOmega_lookup by discriminate.
    rewrite (projectKf_guarded (updateDeps m)). unfold guardedWrite.
    rewrite updateDeps_guarded. unfold guardedWrite at 1 2 3 4 5.
    destruct (contains m "L" && contains m "Lf" && (1e-9 <? get m "L")%float);
      rewrite ?contains_insert_ne, ?get_insert_ne by discriminate;
      rewrite H1, H2, H3; cbn [andb]; rewrite lookup_insert_eq; reflexivity.
  - intros H1 H2 H3. rewrite <- Hfix at 1. unfold projectTrial, get at 1.
    rewrite (projectOmega_guarded (projectKf (updateDeps m))). unfold guardedWrite.
    assert (Ec : forall k, k <> "kf" -> k <> "LfD" ->
                   contains (projectKf (updateDeps m)) k = contains m k).
    { intros k Hk Hk'. unfold contains.
      rewrite projectKf_lookup, updateDeps_lookup by assumption. reflexivity. }
    assert (Eg : forall k, k <> "kf" -> k <> "LfD" ->
                   get (projectKf (updateDeps m)) k = get m k).
    { intros k Hk Hk'. unfold get.
      rewrite projectKf_lookup, updateDeps_lookup by assumption. reflexivity. }
    rewrite !Ec, !Eg by discriminate. rewrite H1, H2, H3. cbn [andb].
    rewrite lookup_insert_eq. reflexivity.
Qed.

(** The parameter map of every snapshot of a session (baseline, accepted
    steps, final) satisfies the postconditions of the three projections:
    when it holds [L] and [Lf] with [L > 1e-9] its [LfD] is [Lf / L]; when it
    holds [kf] and [km] with [kf <= km] then [kf] is [km * 1.01]; and the
    same for [omega1] and [omega2].  (No strict order [kf > km] follows:
    [km * 1.01] is not above [km] when [km] is zero, negative or tiny.) *)
Theorem snapshots_are_projected (self : FittingCore) (mt : ModelType)
    (prms : list FitParameter) (w : double) (hp : bool) (mse : double) (m : ParamMap)
    (c : ModelCurveData) :
  In (SigIterationUpdated mse m c)
     (events (runLevenbergMarquardtOptimization self mt prms w hp)) ->
  projectTrial m = m /\ depsHold m /\ kfHolds m /\ omegaHolds m.
Proof.
  intros Hin.
  assert (Hfix : projectTrial m = m).
  { destruct (freeIndices prms) as [|i0 rest] eqn:Efree.
    - unfold runLevenbergMarquardtOptimization in Hin. rewrite Efree in Hin.
      simpl in Hin. destruct Hin as [Hin|[Hin|[]]]; discriminate Hin.
    - pose proof (runLM_events prms
                    (fun e => match e with
                              | SigIterationUpdated _ m _ => bool_decide (projectTrial m = m)
                              | _ => true
                              end)
                    (fun m => projectTrial m = m)) as G.
      assert (Hall : forallb (fun e => match e with
                              | SigIterationUpdated _ m _ => bool_decide (projectTrial m = m)
                              | _ => true
                              end)
                       (events (runLevenbergMarquardtOptimization self mt prms w hp)) = true).
      { apply G.
        - intros [] Hq; try reflexivity; discriminate Hq.
        - reflexivity.
        - reflexivity.
        - intros mse' m' c' Hm. apply bool_decide_eq_true. exact Hm.
        - intros current delta. apply projectTrial_idempotent.
        - rewrite projectInitial_is_projectTrial. apply projectTrial_idempotent.
        - congruence. }
      rewrite forallb_forall in Hall. specialize (Hall _ Hin).
      apply bool_decide_eq_true in Hall. exact Hall. }
  split; [exact Hfix | apply projected_holds; exact Hfix].
Qed.

(** ** The Horner regressor and the plots *)

Lemma filter_below_length (r a n : nat) :
  (length (List.filter (fun i => (i <? r)%nat) (seq a n)) <= r - a)%nat.
Proof.
  revert a. induction n as [|n IH]; intros a; simpl; [lia|].
  specialize (IH (S a)). destruct (Nat.ltb_spec a r); simpl; lia.
Qed.

Lemma hornerXY_length (tp : double) (obsT obsRawP : list double) :
  (length (fst (hornerXY log10 tp obsT obsRawP)) <= length obsT)%nat
  /\ (length (fst (hornerXY log10 tp obsT obsRawP)) <= length obsRawP)%nat.
Proof.
  unfold hornerXY.
  assert (G : forall (l : list nat) (XY : list double * list double),
            (length (fst (fold_left
               (fun XY i =>
                  let dt := at_ obsT i in
                  if (1e-5 <? dt)%float && (i <? length obsRawP)%nat then
                    let val := ((tp + dt) / dt)%float in
                    if (0 <? val)%float
                    then (fst XY ++ [log10 val], snd XY ++ [at_ obsRawP i])
                    else XY
                  else XY) l XY))
             <= length (fst XY)
                + length (List.filter (fun i => (i <? length obsRawP)%nat) l))%nat).
  { induction l as [|i l IH]; intros XY; [simpl; lia|].
    cbn [fold_left List.filter]. etransitivity; [apply IH|]. cbv zeta.
    destruct (1e-5 <? at_ obsT i)%float; destruct (i <? length obsRawP)%nat; cbn [andb];
      try (simpl; lia).
    destruct (0 <? _)%float; cbn [fst]; rewrite ?length_app; simpl; lia. }
  split.
  - etransitivity; [apply G|]. simpl.
    etransitivity; [apply filter_length_le|]. rewrite length_seq. lia.
  - etransitivity; [apply G|]. simpl.
    pose proof (filter_below_length (length obsRawP) 0 (length obsT)). lia.
Qed.

Lemma hornerXY_nan_time (tp : double) (obsT obsRawP : list double) :
  is_nan tp = true -> hornerXY log10 tp obsT obsRawP = ([], []).
Proof.
  intros Hnan. unfold hornerXY. apply fold_left_invariant; [reflexivity|].
  intros XY i ->. cbv zeta. destruct (_ && _); [|reflexivity].
  rewrite ltb_nan_r; [reflexivity|]. apply div_nan, add_nan. left. exact Hnan.
Qed.

(** [calculateHornerPressure] returns 0, its "no result" value, whenever
    fewer than five observation times or fewer than five raw pressures are
    stored (at most [min] of the two points pass the filter loop), and
    whenever the producing time is zero, negative or NaN (with a NaN no point
    passes [val > 0]). *)
Theorem horner_pressure_is_zero (tp : double) (obsT obsRawP : list double) :
  (length obsT < 5)%nat \/ (length obsRawP < 5)%nat
  \/ (tp <=? 0)%float = true \/ is_nan tp = true ->
  calculateHornerPressure log10 tp obsT obsRawP = 0%float.
Proof.
  intros Hcase. unfold calculateHornerPressure.
  destruct ((length obsT =? 0)%nat || (length obsRawP =? 0)%nat || (tp <=? 0)%float) eqn:E;
    [reflexivity|].
  destruct (hornerXY_length tp obsT obsRawP) as [H1 H2].
  unfold hornerFit.
  destruct Hcase as [Hc|[Hc|[Hc|Hc]]].
  - destruct (Nat.ltb_spec (length (fst (hornerXY log10 tp obsT obsRawP))) 5);
      [reflexivity | lia].
  - destruct (Nat.ltb_spec (length (fst (hornerXY log10 tp obsT obsRawP))) 5);
      [reflexivity | lia].
  - rewrite Hc, orb_true_r in E. discriminate E.
  - rewrite (hornerXY_nan_time tp obsT obsRawP Hc). reflexivity.
Qed.

Lemma fold_left_related {A B C : Type} (R : A -> B -> Prop) (f : A -> C -> A)
    (g : B -> C -> B) (l : list C) (a : A) (b : B) :
  R a b -> (forall a b x, R a b -> R (f a x) (g b x)) ->
  R (fold_left f l a) (fold_left g l b).
Proof.
  intros Hab Hstep. revert a b Hab. induction l as [|x l IH]; intros a b Hab; [exact Hab|].
  simpl. apply IH, Hstep, Hab.
Qed.

Lemma combine_snoc {A B : Type} (l : list A) (l' : list B) (x : A) (y : B) :
  length l = length l' -> combine (l ++ [x]) (l' ++ [y]) = combine l l' ++ [(x, y)].
Proof.
  revert l'. induction l as [|a l IH]; intros [|b l'] H; simpl in *; try lia; [reflexivity|].
  rewrite IH by lia. reflexivity.
Qed.

(** The Horner plot and the Horner regression filter the observations with
    different thresholds ([dt > 1e-6] at line 147, [dt > 1e-5] at line 319):
    the points of the regression are points of the plot, in the same order,
    and the plot may show early points the regression leaves out.  Both
    return as many abscissae as ordinates. *)
Theorem horner_regression_points_are_plotted (tp : double) (obsT obsRawP : list double) :
  let fitted := hornerXY log10 tp obsT obsRawP in
  let plotted := semiLogHornerXY tp obsT obsRawP in
  sublist (combine (fst fitted) (snd fitted)) (combine (fst plotted) (snd plotted))
  /\ length (fst fitted) = length (snd fitted)
  /\ length (fst plotted) = length (snd plotted)
  /\ (length (fst fitted) <= length (fst plotted))%nat.
Proof.
  intros fitted plotted.
  assert (G : sublist (combine (fst fitted) (snd fitted))
                      (combine (fst plotted) (snd plotted))
              /\ length (fst fitted) = length (snd fitted)
              /\ length (fst plotted) = length (snd plotted)).
  { subst fitted plotted. unfold hornerXY, semiLogHornerXY.
    apply (fold_left_related
             (fun a b : list double * list double =>
                sublist (combine (fst a) (snd a)) (combine (fst b) (snd b))
                /\ length (fst a) = length (snd a) /\ length (fst b) = length (snd b))).
    { split; [simpl; constructor | split; reflexivity]. }
    intros a b i [Hs [Ha Hb]]. cbv zeta.
    destruct (i <? length obsRawP)%nat; rewrite ?andb_false_r, ?andb_true_r;
      [|repeat split; assumption].
    destruct (1e-5 <? at_ obsT i)%float eqn:E5.
    - assert (E6 : (1e-6 <? at_ obsT i)%float = true).
      { apply (ltb_trans _ 1e-5%float); [reflexivity | exact E5]. }
      rewrite E6. destruct (0 <? _)%float; [|repeat split; assumption].
      cbn [fst snd]. rewrite !combine_snoc, !length_app by assumption.
      repeat split; [|simpl; lia|simpl; lia].
      apply sublist_app; [exact Hs | reflexivity].
    - destruct (1e-6 <? at_ obsT i)%float; [|repeat split; assumption].
      destruct (0 <? _)%float; [|repeat split; assumption].
      cbn [fst snd]. rewrite combine_snoc, !length_app by assumption.
      repeat split; [|assumption|simpl; lia].
      apply sublist_inserts_r. exact Hs. }
  destruct G as [Hs [Ha Hb]]. repeat split; try assumption.
  apply sublist_length in Hs. rewrite !length_combine in Hs. lia.
Qed.

Lemma clampLog_floor (v : double) : (1e-10 <=? clampLog v)%float = true.
Proof.
  unfold clampLog. destruct (1e-10 <? v)%float eqn:E; [apply ltb_leb; exact E | reflexivity].
Qed.

(** A graph fit for logarithmic axes: as many keys as values, every key above
    [1e-10] and every value at least [1e-10]. *)
Lemma logLogObserved_positive (obsT obsDeltaP obsDeriv : list double) :
  let obs := logLogObserved obsT obsDeltaP obsDeriv in
  logGraph (fst (fst obs), snd (fst obs)) /\ logGraph (fst (fst obs), snd obs).
Proof.
  cbv zeta. unfold logLogObserved.
  apply (fold_left_invariant
           (fun acc : list double * list double * list double =>
              logGraph (fst (fst acc), snd (fst acc)) /\ logGraph (fst (fst acc), snd acc))).
  { unfold logGraph. simpl. repeat split; constructor. }
  intros acc i [[H1 [H2 H3]] [H4 [H5 H6]]]. unfold logGraph in *. cbn [fst snd] in *.
  destruct (1e-10 <? at_ obsT i)%float eqn:Et; [|repeat split; assumption].
  destruct (1e-10 <? at_ obsDeltaP i)%float eqn:Ep; [|repeat split; assumption].
  cbn [andb fst snd]. rewrite !length_app, H1, <- H4, H1. 
  repeat split; try (apply Forall_app; split; [assumption|]); try reflexivity.
  - constructor; [exact Et | constructor].
  - constructor; [apply ltb_leb; exact Ep | constructor].
  - constructor; [exact Et | constructor].
  - constructor; [|constructor].
    destruct (i <? length obsDeriv)%nat; [|reflexivity]. cbn [andb].
    destruct (1e-10 <? at_ obsDeriv i)%float eqn:Ed; [apply ltb_leb; exact Ed | reflexivity].
Qed.

Lemma logLogModel_positive (tm pm dm : list double) :
  let mdl := logLogModel tm pm dm in
  logGraph (fst (fst mdl), snd (fst mdl)) /\ logGraph (fst (fst mdl), snd mdl).
Proof.
  cbv zeta. unfold logLogModel.
  apply (fold_left_invariant
           (fun acc : list double * list double * list double =>
              logGraph (fst (fst acc), snd (fst acc)) /\ logGraph (fst (fst acc), snd acc))).
  { unfold logGraph. simpl. repeat split; constructor. }
  intros acc i [[H1 [H2 H3]] [H4 [H5 H6]]]. unfold logGraph in *. cbn [fst snd] in *.
  destruct (1e-10 <? at_ tm i)%float eqn:Et; [|repeat split; assumption].
  cbn [fst snd]. rewrite !length_app, H1, <- H4, H1.
  repeat split; try (apply Forall_app; split; [assumption|]); try reflexivity;
    (constructor; [first [exact Et | apply clampLog_floor] | constructor]).
Qed.

(** Nothing that a logarithmic axis cannot show reaches the log-log plot:
    in each of its graphs (observed pressure difference, observed derivative
    and, with a model, the two model curves) every key is above [1e-10] and
    every value is at least [1e-10], NaN and non-positive samples being
    dropped or replaced by the placeholder [1e-10]; each graph has as many
    keys as values, and the two graphs of a pair share their keys.  The
    drawdown semi-log plot, logarithmic in time only, keeps its keys above
    [1e-10]. *)
Theorem log_axes_get_positive_data (chart : FittingChart) (tm pm dm : list double)
    (hasModel : bool) :
  (length (FittingChart.m_obsT chart) <= length (FittingChart.m_obsDeltaP chart))%nat ->
  (length tm <= length pm)%nat -> (length tm <= length dm)%nat ->
  Forall logGraph (graphs (plotLogLog chart tm pm dm hasModel))
  /\ length (graphs (plotLogLog chart tm pm dm hasModel)) = (if hasModel then 4 else 2)%nat
  /\ Forall (fun t => (1e-10 <? t)%float = true)
            (fst (semiLogObserved (FittingChart.m_obsT chart)
                                  (FittingChart.m_obsDeltaP chart)))
  /\ logGraph (semiLogModel tm pm).
Proof.
  intros _ _ _.
  destruct (logLogObserved_positive (FittingChart.m_obsT chart)
              (FittingChart.m_obsDeltaP chart) (FittingChart.m_obsDeriv chart)) as [O1 O2].
  destruct (logLogModel_positive tm pm dm) as [M1 M2].
  split; [|split; [|split]].
  - unfold plotLogLog. cbn [graphs]. apply Forall_app. split.
    + constructor; [exact O1 | constructor; [exact O2 | constructor]].
    + destruct hasModel; [|constructor].
      constructor; [exact M1 | constructor; [exact M2 | constructor]].
  - unfold plotLogLog. cbn [graphs]. destruct hasModel; reflexivity.
  - unfold semiLogObserved.
    apply (fold_left_invariant
             (fun acc : list double * list double =>
                Forall (fun t => (1e-10 <? t)%float = true) (fst acc))); [constructor|].
    intros acc i Hacc. destruct (1e-10 <? at_ _ i)%float eqn:Et; [|exact Hacc].
    cbn [fst]. apply Forall_app. split; [exact Hacc|]. constructor; [exact Et | constructor].
  - unfold semiLogModel. apply fold_left_invariant.
    { unfold logGraph. simpl. repeat split; constructor. }
    intros acc i [H1 [H2 H3]]. unfold logGraph in *.
    destruct (1e-10 <? at_ tm i)%float eqn:Et; [|repeat split; assumption].
    cbn [fst snd]. rewrite !length_app, H1.
    repeat split; try (apply Forall_app; split; [assumption|]);
      (constructor; [first [exact Et | apply clampLog_floor] | constructor]).
Qed.

(** The label of the log-log plot lags one [plotAll] behind the Horner
    regression: [plotAll] draws the log-log plot, which reads
    [m_calculatedPi], before the semi-log plot, which computes it.  On a
    chart as constructed the first [plotAll] therefore shows no label,
    whatever the data; for a buildup with a positive producing time it
    stores the Horner pressure, and the next [plotAll] shows that value (when
    it exceeds [1e-6]), whatever curves it is given. *)
Theorem horner_label_lags_one_plot (defaults settings : FittingDataSettings)
    (t deltaP deriv rawP tm pm dm tm' pm' dm' : list double) (valid valid' : bool) :
  let chart := setSettings settings
                 (chartSetObservedData t deltaP deriv rawP
                    (initializeCharts true true true (newFittingChart defaults))) in
  let pressure := calculateHornerPressure log10 (FittingDataSettings.producingTime settings)
                    t rawP in
  exists chart' logLog semi cartesian,
    plotAll chart tm pm dm valid = (chart', Some (logLog, semi, cartesian))
    /\ label logLog = None
    /\ (FittingDataSettings.isBuildup settings = true ->
        (0 <? FittingDataSettings.producingTime settings)%float = true ->
        FittingChart.m_calculatedPi chart' = pressure
        /\ exists chart'' logLog' semi' cartesian',
             plotAll chart' tm' pm' dm' valid' = (chart'', Some (logLog', semi', cartesian'))
             /\ label logLog' = (if (1e-6 <? pressure)%float then Some pressure else None)).
Proof.
  intros chart pressure. unfold plotAll. cbn [negb orb FittingChart.m_plotLogLog
    FittingChart.m_plotSemiLog FittingChart.m_plotCartesian chart setSettings
    chartSetObservedData initializeCharts newFittingChart].
  eexists. eexists. eexists. eexists. split; [reflexivity|]. split.
  - unfold plotLogLog. cbn [label]. subst chart.
    cbn [FittingChart.m_calculatedPi setSettings chartSetObservedData initializeCharts
         newFittingChart].
    rewrite andb_false_r. reflexivity.
  - intros Hb Htp. unfold plotSemiLog. subst chart.
    cbn [FittingChart.m_settings setSettings]. rewrite Hb, Htp. cbn [andb fst snd].
    split; [reflexivity|].
    cbn [FittingChart.m_plotLogLog FittingChart.m_plotSemiLog FittingChart.m_plotCartesian
         setSettings chartSetObservedData initializeCharts newFittingChart negb orb].
    eexists. eexists. eexists. eexists. split; [reflexivity|].
    unfold plotLogLog. cbn [label FittingChart.m_settings FittingChart.m_calculatedPi
      FittingChart.m_obsT FittingChart.m_obsRawP setSettings chartSetObservedData].
    rewrite Hb. reflexivity.
Qed.

(** ** Two more edge cases *)

(** [calculateSumSquaredError] (lines 388-392) never returns a negative
    value: the sum is 0 for no residual, NaN as soon as one residual is NaN,
    and otherwise zero, positive or [+infinity]; so no sum of squares is
    strictly below 0, and none is strictly below a NaN. *)
Theorem sum_of_squares_is_not_negative (r : list double) :
  (calculateSumSquaredError r <? 0)%float = false
  /\ (forall v, In v r -> is_nan v = true -> is_nan (calculateSumSquaredError r) = true)
  /\ (forall c, is_nan c = true -> (calculateSumSquaredError r <? c)%float = false)
  /\ (r = [] -> calculateSumSquaredError r = 0%float).
Proof.
  split; [apply calculateSumSquaredError_not_negative|].
  split; [intros v; apply calculateSumSquaredError_nan|].
  split; [intros c Hc; apply ltb_nan_r; exact Hc|].
  intros ->. reflexivity.
Qed.

Lemma customPoints_no_count (intervals : list SamplingInterval)
    (srcT srcP srcD : list double) :
  Forall (fun interval => SamplingInterval.count interval <= 0) intervals ->
  customPoints intervals srcT srcP srcD = [].
Proof.
  intros H. unfold customPoints.
  assert (G : forall acc, fold_left (customInterval srcT srcP srcD) intervals acc = acc).
  { induction H as [|iv ivs H1 H2 IH]; intros acc; [reflexivity|].
    simpl. unfold customInterval at 2.
    destruct (Z.leb_spec (SamplingInterval.count iv) 0); [|lia]. apply IH. }
  apply G.
Qed.

(** Custom sampling in which no interval has a positive count returns three
    empty vectors, however many samples the source holds (the passthrough of
    line 100 is for an empty interval list only): the fit then runs on no
    data. *)
Theorem custom_sampling_without_counts_returns_nothing (self : FittingCore)
    (srcT srcP srcD : list double) :
  m_isCustomSamplingEnabled self = true ->
  m_customIntervals self <> [] ->
  Forall (fun interval => SamplingInterval.count interval <= 0) (m_customIntervals self) ->
  getLogSampledData self srcT srcP srcD = ([], [], []).
Proof.
  intros Hmode Hne Hcount. unfold getLogSampledData. rewrite Hmode.
  destruct srcT as [|t0 srcT']; [reflexivity|]. cbn [negb].
  destruct (m_customIntervals self) as [|iv ivs] eqn:E; [congruence|].
  rewrite customPoints_no_count by exact Hcount. reflexivity.
Qed.

End Core.

(** * The theorems at concrete inputs *)



(** C3, as stated, fails in both passthrough cases: two samples at the same
    time come back as they are. *)
Lemma C3_passthrough_counterexample :
  strictlyAscending
    (fst (fst (getLogSampledData refLog10 refPow
                 (mkFittingCore [] [] [] [] false) [1; 1] [5; 6] [7; 8])%float))
  = false
  /\ strictlyAscending
       (fst (fst (getLogSampledData refLog10 refPow
                    (mkFittingCore [] [] [] [] true) [1; 1] [5; 6] [7; 8])%float))
     = false.
Proof. split; vm_compute; reflexivity. Qed.

Lemma C3_resampler_ascending_witness :
  strictlyAscending
    (fst (fst (getLogSampledData refLog10 refPow (mkFittingCore [] [] [] [] false)
                 (linearTimes 300) [] []))) = true.
Proof.
  apply (proj2 (proj2 (C3_resampler_ascending refLog10 refPow
                         (mkFittingCore [] [] [] [] false) (linearTimes 300) [] [])));
    vm_compute; reflexivity.
Defined.

(** At the upper bound of the "bounds clamp" scenario, with [lambda = 1e7]
    and eleven iterations left, the five tries of the iteration are rejected,
    [lambda] reaches [1e12], and the loop ends with this iteration. *)
Lemma C4_damping_search_witness :
  lmLoop refLog refLog10 refPow unit flatEvaluator diagonalSolve neverStop
         11 clampSession 3 clampState false
  = (snd (result (lmIteration refLog refLog10 refPow unit flatEvaluator diagonalSolve
                    clampSession 3 clampState false)),
     false,
     events (lmIteration refLog refLog10 refPow unit flatEvaluator diagonalSolve
               clampSession 3 clampState false) ++ []).
Proof.
  assert (Hn : (0 < length (freeIndices (params clampSession)))%nat)
    by (vm_compute; lia).
  assert (Hconv : converged clampState = false) by (vm_compute; reflexivity).
  assert (Hend : negb (fst (result (lmIteration refLog refLog10 refPow unit flatEvaluator
                                      diagonalSolve clampSession 3 clampState false)))
                 && (1e10 <? lambda (snd (result (lmIteration refLog refLog10 refPow unit
                                                    flatEvaluator diagonalSolve
                                                    clampSession 3 clampState false))))%float
                 = true) by (vm_compute; reflexivity).
  rewrite (proj2 (C4_damping_search refLog refLog10 refPow unit flatEvaluator diagonalSolve
                    neverStop clampSession 3 clampState false 10 Hn) eq_refl Hconv).
  rewrite Hend. reflexivity.
Defined.

(** C5, as stated, fails: with two base residuals and an evaluator that
    returns one sample, both perturbed residual vectors have one entry and
    their difference quotient at index 0 is about [-1]; the column is zero
    all the same, in the worker's result and in the Jacobian. *)
Lemma C5_jacobian_column_counterexample :
  length (result (calculateResiduals refLog unit singleEvaluator
                    (perturbed refLog10 refPow (<["S" := 1%float]> ∅) "S" true)
                    tt 1%float [1; 2]%float [1; 1]%float [] false)) = 1%nat
  /\ length (result (calculateResiduals refLog unit singleEvaluator
                       (perturbed refLog10 refPow (<["S" := 1%float]> ∅) "S" false)
                       tt 1%float [1; 2]%float [1; 1]%float [] false)) = 1%nat
  /\ at2 (result (computeJacobian refLog refLog10 refPow unit singleEvaluator
                     (<["S" := 1%float]> ∅) [0; 0]%float [0%nat] tt paramsS 1%float
                     [1; 2]%float [1; 1]%float [] false)) 0 0
     <> ((at_ (result (calculateResiduals refLog unit singleEvaluator
                         (perturbed refLog10 refPow (<["S" := 1%float]> ∅) "S" true)
                         tt 1%float [1; 2]%float [1; 1]%float [] false)) 0
          - at_ (result (calculateResiduals refLog unit singleEvaluator
                           (perturbed refLog10 refPow (<["S" := 1%float]> ∅) "S" false)
                           tt 1%float [1; 2]%float [1; 1]%float [] false)) 0)
         / (2.0 * 1e-4))%float.
Proof.
  split; [vm_compute; reflexivity|]. split; [vm_compute; reflexivity|].
  intros H. apply (f_equal (fun x => (x =? 0)%float)) in H. vm_compute in H. discriminate H.
Qed.

(** C6, as stated, fails: an evaluator that returns fewer pressure values
    than there are samples shortens the residual vector. *)
Lemma C6_residual_length_counterexample :
  length (result (calculateResiduals refLog unit emptyEvaluator ∅ tt 1%float
                    [1; 2] [3; 4] [] false)%float) <> 2%nat.
Proof. vm_compute. discriminate. Qed.

Lemma C7_finished_twice_witness :
  events (startFit refLog refLog10 refPow unit flatEvaluator diagonalSolve neverStop
            false trivialCore tt [FitParameter.mk "a" 0.5%float false 0%float 10%float]
            1%float true)
  = [EvSetHighPrecision false; SigFitFinished; SigFitFinished].
Proof.
  apply (C7_finished_twice_without_free_parameters refLog refLog10 refPow unit
           flatEvaluator diagonalSolve neverStop). reflexivity.
Defined.

Lemma C9_rejected_trial_witness :
  currentParamMap
    (snd (result (tryStep refLog refLog10 refPow unit flatEvaluator diagonalSolve
                    clampSession [[1%float]] [0%float] 8 clampState false)))
  = clampMap.
Proof.
  apply (C9_rejected_trial_changes_only_lambda refLog refLog10 refPow unit flatEvaluator
           diagonalSolve clampSession [[1%float]] [0%float] 8 clampState false).
  vm_compute. reflexivity.
Defined.

Lemma C10_mismatched_column_witness :
  result (computeColumn refLog refLog10 refPow unit shrinkingEvaluator
            (<["S" := 1%float]> ∅) [0; 0]%float [0%nat] tt paramsS 1%float
            [1; 2]%float [1; 1]%float [] 0 false)
  = [0; 0]%float.
Proof.
  apply (C10_mismatched_column_is_zero refLog refLog10 refPow unit shrinkingEvaluator
           (<["S" := 1%float]> ∅) [0; 0]%float [0%nat] tt paramsS 1%float
           [1; 2]%float [1; 1]%float [] 0 false).
  left. vm_compute. discriminate.
Defined.

(** C8, as stated, fails: with the stand-in math library the default plan
    returns 154 points for the 10 000 linear times, not 200 (the targets below
    about 21 fall on the same integer samples several times over). *)
Lemma C8_default_plan_counterexample :
  length (fst (fst (getLogSampledData refLog10 refPow (mkFittingCore [] [] [] [] false)
                      (linearTimes 10000) [] []))) = 154%nat
  /\ length (fst (fst (getLogSampledData refLog10 refPow (mkFittingCore [] [] [] [] false)
                         (linearTimes 10000) [] []))) <> 200%nat.
Proof.
  assert (E : length (fst (fst (getLogSampledData refLog10 refPow
                                  (mkFittingCore [] [] [] [] false)
                                  (linearTimes 10000) [] []))) = 154%nat)
    by (vm_compute; reflexivity).
  split; [exact E | rewrite E; discriminate].
Qed.

Lemma C8_default_plan_witness :
  (length (fst (fst (getLogSampledData refLog10 refPow (mkFittingCore [] [] [] [] false)
                       (linearTimes 10000) [] []))) <= 199)%nat
  /\ strictlyAscending
       (fst (fst (getLogSampledData refLog10 refPow (mkFittingCore [] [] [] [] false)
                    (linearTimes 10000) [] []))) = true
  /\ (at_ (fst (fst (getLogSampledData refLog10 refPow (mkFittingCore [] [] [] [] false)
                       (linearTimes 10000) [] []))) 0 =? 1)%float = true
  /\ (abs (List.last
             (fst (fst (getLogSampledData refLog10 refPow
                          (mkFittingCore [] [] [] [] false) (linearTimes 10000) [] [])))
             0%float - 10000) <? 1e-9)%float = true.
Proof.
  apply (C8_default_plan_on_linear_times refLog10 refPow
           (mkFittingCore [] [] [] [] false) [] [] eq_refl);
    vm_compute; reflexivity.
Defined.

Lemma finished_once_and_last_witness :
  exists evs,
    events (startFit refLog refLog10 refPow unit flatEvaluator diagonalSolve neverStop
              false trivialCore tt [paramA 0%float 1%float] 1%float true)
    = evs ++ [SigFitFinished]
    /\ List.filter isFitFinished evs = [].
Proof.
  apply (finished_once_and_last_with_free_parameters refLog refLog10 refPow unit
           flatEvaluator diagonalSolve neverStop).
  vm_compute. discriminate.
Defined.


(** * The further properties at concrete inputs *)

Lemma default_resampling_size_witness :
  (1 <= length (fst (fst (getLogSampledData refLog10 refPow
                            (mkFittingCore [] [] [] [] false) (linearTimes 201) [] [])))
   <= 200)%nat.
Proof.
  apply (default_resampling_size refLog10 refPow (mkFittingCore [] [] [] [] false)
           (linearTimes 201) [] []); [reflexivity | vm_compute; lia].
Defined.

Lemma resampled_points_are_samples_witness :
  exists k, (k < length fourTimes)%nat
    /\ at_ (fst (fst (getLogSampledData refLog10 refPow windowCore
                        fourTimes fourPressures [5%float]))) 0
       = at_ fourTimes k
    /\ at_ (snd (fst (getLogSampledData refLog10 refPow windowCore
                        fourTimes fourPressures [5%float]))) 0
       = (if (k <? length fourPressures)%nat then at_ fourPressures k else 0%float)
    /\ at_ (snd (getLogSampledData refLog10 refPow windowCore
                   fourTimes fourPressures [5%float])) 0
       = (if (k <? length [5%float])%nat then at_ [5%float] k else 0%float).
Proof.
  apply (resampled_points_are_samples refLog10 refPow windowCore fourTimes fourPressures
           [5%float] eq_refl 0%nat).
  vm_compute. lia.
Defined.

Lemma custom_points_within_windows_witness :
  exists interval, In interval (m_customIntervals windowCore)
    /\ 0 < SamplingInterval.count interval
    /\ inWindow interval
         (at_ (fst (fst (getLogSampledData refLog10 refPow windowCore
                           fourTimes fourPressures [5%float]))) 0).
Proof.
  apply (custom_points_within_windows refLog10 refPow windowCore fourTimes fourPressures
           [5%float] eq_refl).
  - discriminate.
  - unfold ascendingTimes, fourTimes. repeat constructor.
  - vm_compute. lia.
Defined.

Lemma hessian_is_JtJ_witness :
  at2 (hessian [[1; 2]; [3; 4]]%float 2 2) 0 1 = lowerEntry [[1; 2]; [3; 4]]%float 2 0 1
  /\ at2 (hessian [[1; 2]; [3; 4]]%float 2 2) 0 1 = at2 (hessian [[1; 2]; [3; 4]]%float 2 2) 1 0
  /\ at2 (dampedHessian 0.01%float (hessian [[1; 2]; [3; 4]]%float 2 2) 2) 0 1
     = at2 (dampedHessian 0.01%float (hessian [[1; 2]; [3; 4]]%float 2 2) 2) 1 0.
Proof.
  apply (hessian_is_JtJ [[1; 2]; [3; 4]]%float 2 2 0 1 0.01%float); lia.
Defined.

Lemma nan_trial_is_rejected_witness :
  result (tryStep refLog refLog10 refPow unit flatEvaluator diagonalSolve clampSession
            [[1%float]] [0%float] 8 (mkLMState 0.01%float nan clampMap []) false)
  = (false, mkLMState (0.01 * 10.0)%float nan clampMap [])
  /\ List.filter isIterationUpdated
       (events (tryStep refLog refLog10 refPow unit flatEvaluator diagonalSolve clampSession
                  [[1%float]] [0%float] 8 (mkLMState 0.01%float nan clampMap []) false))
     = [].
Proof.
  apply (nan_trial_is_rejected refLog refLog10 refPow unit flatEvaluator diagonalSolve
           clampSession [[1%float]] [0%float] 8 (mkLMState 0.01%float nan clampMap []) false).
  right. reflexivity.
Defined.

Lemma final_snapshot_is_consistent_witness :
  exists st,
    residuals st
    = residualsOf refLog unit flatEvaluator
        (sessionOf refLog10 refPow unit trivialCore tt [paramA 0%float 1%float] 1%float)
        (currentParamMap st) false
    /\ currentSSE st = calculateSumSquaredError (residuals st).
Proof.
  destruct (final_snapshot_is_consistent refLog refLog10 refPow unit flatEvaluator
              diagonalSolve neverStop trivialCore tt [paramA 0%float 1%float] 1%float false)
    as [st [_ [H1 [H2 _]]]].
  - vm_compute. discriminate.
  - exists st. split; [exact H1 | exact H2].
Defined.

Lemma session_without_iterations_witness :
  progressValues
    (events (runLevenbergMarquardtOptimization refLog refLog10 refPow unit flatEvaluator
               diagonalSolve alwaysStop trivialCore tt [paramA 0%float 1%float]
               1%float false))
  = [].
Proof.
  rewrite (session_without_iterations refLog refLog10 refPow unit flatEvaluator
             diagonalSolve alwaysStop trivialCore tt [paramA 0%float 1%float] 1%float false).
  - reflexivity.
  - vm_compute. discriminate.
  - left. reflexivity.
Defined.

Lemma stalled_session_witness :
  progressValues
    (events (runLevenbergMarquardtOptimization refLog refLog10 refPow unit flatEvaluator
               diagonalSolve neverStop countlessCore tt [paramA 0%float 1%float]
               1%float false))
  = [0; 2; 4].
Proof.
  apply (stalled_session_ends_in_the_third_iteration refLog refLog10 refPow unit
           flatEvaluator diagonalSolve neverStop countlessCore tt [paramA 0%float 1%float]
           1%float false); try reflexivity.
  - vm_compute. discriminate.
  - left. reflexivity.
Defined.

Lemma snapshots_are_projected_witness :
  projectTrial (projectInitial (initialParamMap paramsKf))
  = projectInitial (initialParamMap paramsKf).
Proof.
  apply (snapshots_are_projected refLog refLog10 refPow unit flatEvaluator diagonalSolve
           alwaysStop countlessCore tt paramsKf 1%float false
           nan (projectInitial (initialParamMap paramsKf)) ([], [], [])).
  vm_compute. right. right. left. reflexivity.
Defined.

Lemma horner_pressure_is_zero_witness :
  calculateHornerPressure refLog10 10%float [1; 2; 3]%float [20; 21; 22]%float = 0%float.
Proof.
  apply horner_pressure_is_zero. left. simpl. lia.
Defined.

Lemma log_axes_get_positive_data_witness :
  Forall logGraph (graphs (plotLogLog buildupChart [0; 1]%float [0; 2]%float [3; 0]%float true)).
Proof.
  apply (log_axes_get_positive_data buildupChart [0; 1]%float [0; 2]%float [3; 0]%float true);
    simpl; lia.
Defined.

Lemma custom_sampling_without_counts_witness :
  getLogSampledData refLog10 refPow countlessCore fourTimes fourPressures [] = ([], [], []).
Proof.
  apply (custom_sampling_without_counts_returns_nothing refLog10 refPow countlessCore
           fourTimes fourPressures []).
  - reflexivity.
  - discriminate.
  - constructor; [simpl; lia | constructor].
Defined.
